(** * Huntarr Minimal: the sampling-and-deduplication engine

    A shallow embedding of [huntarr.py]: the SQLite search ledger
    ([StateDB]), the date parsing and the three candidate filters, the
    page arithmetic, the four hunt functions and the cycle driver [run],
    followed by the properties of the specification that concern them.

    Conventions of the embedding.
    - An instant is a [Z], in microseconds since the Unix epoch.  The
      ledger stores [datetime.isoformat()] texts of UTC instants and SQLite
      compares them as text; on such texts (fixed-width fields, [+00:00]
      suffix, fraction omitted only when it is zero, and ['+'] sorting
      before ['.']) the text order is the order of the instants, so the
      rows keep the instant itself.
    - The table [searched] has the primary key [(app, instance, media_id)]:
      it is a finite map from that key to [searched_at].
    - The outside world (clock, remote servers, random generator) is an
      explicit oracle, threaded through a state-and-exception monad that
      also records the requests and ledger writes a computation issues.
      [random.randint], [random.sample] and [datetime] comparison follow
      the documented behaviour of the Python library.
    - [datetime] arithmetic is bounded as in Python: an instant is a
      [datetime] only between [datetime.min] and [datetime.max] (years 1
      to 9999), and [now - timedelta(hours=ttl_hours)] raises
      [OverflowError] when it leaves that range.
    - A JSON record is a typed record of the keys the code reads, a key
      read with [.get] being optional ([None] is the absent key); text
      fields hold any text.  Answers that do not have the types of the
      API (a body that is no object, a [null] or a text where a number,
      a list or an object is expected) are outside the embedding.
    - The SQLite statements themselves are taken to succeed; logging is
      left out. *)

From Stdlib Require Import ZArith Lia Bool Ascii String.
From stdpp Require Import gmap strings list fin_maps pretty.

Local Open Scope string_scope.
Local Open Scope list_scope.
Local Open Scope Z_scope.

(** ** Exceptions *)

(** The exceptions that can escape the code modelled here:
    [RequestException] for what [requests] raises ([raise_for_status],
    transport errors, an undecodable body),
    [TypeError] (comparison of an offset-naive with an offset-aware
    [datetime]), [ValueError] ([random.sample] with a negative size,
    [random.randint] on an empty range) and [OverflowError] ([datetime]
    arithmetic that leaves the range of [datetime] or of [timedelta]). *)
Inductive exn : Type := RequestException | TypeError | ValueError | OverflowError.

Inductive result (A : Type) : Type :=
| Ok (a : A)
| Raise (e : exn).
Arguments Ok {A} a.
Arguments Raise {A} e.

Global Instance exn_eq_dec : EqDecision exn.
Proof. solve_decision. Defined.

Global Instance result_eq_dec {A : Type} `{EqDecision A} : EqDecision (result A).
Proof. solve_decision. Defined.

(** ** State DB (SQLite) *)

Module Ledger.

(** [(app, instance, media_id)], the primary key of table [searched]. *)
Definition Key : Type := string * string * string.

Record StateDB : Type := mkStateDB {
  ttl_hours : Z;
  rows : gmap Key Z
}.

Definition us_per_hour : Z := 3600 * 1000000.

(** [datetime.min] and [datetime.max] read as UTC instants:
    0001-01-01T00:00:00 and 9999-12-31T23:59:59.999999. *)
Definition datetime_min : Z := -62135596800000000.
Definition datetime_max : Z := 253402300799999999.

(** The instant is one a [datetime] can hold. *)
Definition representable (t : Z) : bool :=
  (datetime_min <=? t) && (t <=? datetime_max).

(** [timedelta(hours=h)], in microseconds: [OverflowError] when its days,
    [h // 24], have a magnitude above 999999999. *)
Definition timedelta (hours : Z) : result Z :=
  if (-999999999 <=? hours / 24) && (hours / 24 <=? 999999999)
  then Ok (hours * us_per_hour)
  else Raise OverflowError.

(** [datetime.now(utc) - timedelta(hours=self.ttl_hours)]:
    [OverflowError] when the [timedelta] cannot be built or the
    difference is no [datetime]. *)
Definition cutoff (st : StateDB) (now : Z) : result Z :=
  match timedelta (ttl_hours st) with
  | Ok delta =>
      if representable (now - delta) then Ok (now - delta) else Raise OverflowError
  | Raise e => Raise e
  end.

(** [SELECT 1 FROM searched WHERE app=? AND instance=? AND media_id=?
    AND searched_at>?] with a given cutoff, then [row is not None]. *)
Definition select_after (st : StateDB) (c : Z) (app instance media_id : string) : bool :=
  match rows st !! (app, instance, media_id) with
  | Some searched_at => bool_decide (c < searched_at)
  | None => false
  end.

(** [is_searched]: the cutoff is computed, then the row is looked up. *)
Definition is_searched (st : StateDB) (now : Z) (app instance media_id : string)
    : result bool :=
  match cutoff st now with
  | Ok c => Ok (select_after st c app instance media_id)
  | Raise e => Raise e
  end.

(** [INSERT OR REPLACE INTO searched ... VALUES (?,?,?,now)] *)
Definition mark_searched (st : StateDB) (now : Z) (app instance media_id : string) : StateDB :=
  {| ttl_hours := ttl_hours st;
     rows := <[(app, instance, media_id) := now]> (rows st) |}.

(** The rows that [DELETE FROM searched WHERE searched_at <= ?] matches,
    for a given cutoff. *)
Definition expired (st : StateDB) (c : Z) : gmap Key Z :=
  filter (λ kv, kv.2 ≤ c) (rows st).

(** The statement's [rowcount] and the table afterwards. *)
Definition delete_until (st : StateDB) (c : Z) : nat * StateDB :=
  (size (expired st c),
   {| ttl_hours := ttl_hours st;
      rows := filter (λ kv, ¬ kv.2 ≤ c) (rows st) |}).

(** [purge_expired]: the cutoff is computed, then the rows are deleted. *)
Definition purge_expired (st : StateDB) (now : Z) : result (nat * StateDB) :=
  match cutoff st now with
  | Ok c => Ok (delete_until st c)
  | Raise e => Raise e
  end.

End Ledger.

Import Ledger.

(** ** Remote records *)

(** The JSON objects of a [records] page, with the keys the code reads.
    A field read with [.get] may be absent; ["id"] is subscripted. *)
Record Series : Type := mkSeries {
  series_monitored : option bool
}.

Record Item : Type := mkItem {
  id : Z;
  monitored : option bool;
  series : option Series;
  airDateUtc : option string;
  releaseDate : option string;
  digitalRelease : option string;
  physicalRelease : option string
}.

(** The body of a [wanted/...] response. *)
Record Page : Type := mkPage {
  totalRecords : option Z;
  records : option (list Item)
}.

Global Instance Series_eq_dec : EqDecision Series.
Proof. solve_decision. Defined.
Global Instance Item_eq_dec : EqDecision Item.
Proof. solve_decision. Defined.

(** ** Dates *)

(** A [datetime]: its instant (wall-clock reading for a naive one) and
    whether it carries a UTC offset. *)
Record datetime : Type := mkDatetime {
  dt_instant : Z;
  dt_aware : bool
}.

(** [datetime.now(timezone.utc)] is offset-aware. *)
Definition utc (now : Z) : datetime := {| dt_instant := now; dt_aware := true |}.

(** [d <= now] and [d > now]: ordering a naive against an aware
    [datetime] raises [TypeError]. *)
Definition dt_le (d now : datetime) : result bool :=
  if Bool.eqb (dt_aware d) (dt_aware now)
  then Ok (dt_instant d <=? dt_instant now)
  else Raise TypeError.

Definition dt_gt (d now : datetime) : result bool :=
  if Bool.eqb (dt_aware d) (dt_aware now)
  then Ok (dt_instant now <? dt_instant d)
  else Raise TypeError.

Module Str.

(** [c in s] for a one-character [c]. *)
Fixpoint contains (c : ascii) (s : string) : bool :=
  match s with
  | EmptyString => false
  | String a s' => if Ascii.eqb a c then true else contains c s'
  end.

(** [s.split(c)[0]] *)
Fixpoint before (c : ascii) (s : string) : string :=
  match s with
  | EmptyString => EmptyString
  | String a s' => if Ascii.eqb a c then EmptyString else String a (before c s')
  end.

(** [s.endswith(c)] *)
Fixpoint endswith (c : ascii) (s : string) : bool :=
  match s with
  | EmptyString => false
  | String a EmptyString => Ascii.eqb a c
  | String _ s' => endswith c s'
  end.

(** [s[:-1]] *)
Fixpoint drop_last (s : string) : string :=
  match s with
  | EmptyString => EmptyString
  | String _ EmptyString => EmptyString
  | String a s' => String a (drop_last s')
  end.

(** Python truthiness of an optional text: [None] and [""] are falsy. *)
Definition truthy (o : option string) : bool :=
  match o with
  | Some EmptyString | None => false
  | Some _ => true
  end.

(** [a or b] *)
Definition or (a b : option string) : option string :=
  if truthy a then a else b.

End Str.

Section Dates.

(** [datetime.fromisoformat], [None] standing for its [ValueError]. *)
Variable fromisoformat : string → option datetime.

Definition _parse_date (s : option string) : option datetime :=
  if negb (Str.truthy s) then None
  else
    let clean := default "" s in
    let clean :=
      if Str.contains "." clean && Str.contains "Z" clean
      then Str.before "." clean +:+ "Z" else clean in
    let clean :=
      if Str.endswith "Z" clean
      then Str.drop_last clean +:+ "+00:00" else clean in
    fromisoformat clean.

(** ** The three candidate filters, item by item *)

(** Sonarr: [ep.get("series", {}).get("monitored", False) and
    ep.get("monitored", False)]. *)
Definition episode_monitored (ep : Item) : bool :=
  from_option (λ s, default false (series_monitored s)) false (series ep)
  && default false (monitored ep).

(** Radarr: [m.get("monitored", False)]. *)
Definition movie_monitored (m : Item) : bool :=
  default false (monitored m).

(** Sonarr: [not (d := _parse_date(ep.get("airDateUtc"))) or d <= now]. *)
Definition episode_not_future (now : Z) (ep : Item) : result bool :=
  match _parse_date (airDateUtc ep) with
  | None => Ok true
  | Some d => dt_le d (utc now)
  end.

(** The date Radarr's filter looks at:
    [m.get("releaseDate") or m.get("digitalRelease") or m.get("physicalRelease")]. *)
Definition movie_date (m : Item) : option string :=
  Str.or (Str.or (releaseDate m) (digitalRelease m)) (physicalRelease m).

(** Radarr: [if rd and rd > now: continue], else the movie is appended. *)
Definition movie_not_future (now : Z) (m : Item) : result bool :=
  match _parse_date (movie_date m) with
  | None => Ok true
  | Some rd =>
      match dt_gt rd (utc now) with
      | Ok b => Ok (negb b)
      | Raise e => Raise e
      end
  end.

(** A comprehension [[x for x in l if p(x)]] whose test can raise: the
    items are tested from left to right and the first exception ends it. *)
Fixpoint filter_raising {A : Type} (p : A → result bool) (l : list A) : result (list A) :=
  match l with
  | [] => Ok []
  | x :: l' =>
      match p x with
      | Raise e => Raise e
      | Ok b =>
          match filter_raising p l' with
          | Raise e => Raise e
          | Ok r => Ok (if b then x :: r else r)
          end
      end
  end.

End Dates.

(** ** Page selection *)

Module Paging.

(** [page_size = min(100, total)] *)
Definition page_size (total : Z) : Z := Z.min 100 total.

(** [total_pages = max(1, (total + page_size - 1) // page_size)];
    Python's [//] and [Z.div] both round towards minus infinity. *)
Definition total_pages (total : Z) : Z :=
  Z.max 1 ((total + page_size total - 1) / page_size total).

End Paging.

(** ** The outside world *)

(** [ArrClient]: [name], [base] (the url without trailing slashes), [key]. *)
Record ArrClient : Type := mkArrClient {
  client_name : string;
  client_base : string;
  client_key : string
}.

(** The GET requests the program issues: [system/status], and
    [wanted/missing] or [wanted/cutoff] with their query parameters
    ([includeSeries] tells whether ["includeSeries": "true"] is sent). *)
Inductive Request : Type :=
| SystemStatus
| Wanted (endpoint : string) (page pageSize : Z) (includeSeries monitored : bool).

(** The bodies posted to [command]. *)
Inductive Command : Type :=
| EpisodeSearch (episodeIds : list Z)
| MoviesSearch (movieIds : list Z).

(** What a computation did to the outside and to the ledger, in order. *)
Inductive Event : Type :=
| EvGet (c : ArrClient) (rq : Request) (ok : bool)
| EvPost (c : ArrClient) (cmd : Command) (ok : bool)
| EvMark (app instance media_id : string) (searched_at : Z)
| EvPurge (removed : nat).

(** The oracle: the clock, the servers' answers ([None] and [false] when
    the call raises), the random generator's raw draws, and
    [datetime.fromisoformat].  [W] is whatever state they depend on. *)
Record Env (W : Type) : Type := mkEnv {
  clock : W → Z * W;
  session_get : ArrClient → Request → W → option Page * W;
  session_post : ArrClient → Command → W → bool * W;
  random_draw : W → Z * W;
  fromisoformat : string → option datetime
}.
Arguments clock {W} _ _.
Arguments session_get {W} _ _ _ _.
Arguments session_post {W} _ _ _ _.
Arguments random_draw {W} _ _.
Arguments fromisoformat {W} _ _.

(** The state a cycle runs in: the ledger and the outside world. *)
Record Sys (W : Type) : Type := mkSys {
  db : StateDB;
  world : W
}.
Arguments mkSys {W} _ _.
Arguments db {W} _.
Arguments world {W} _.

(** ** Configuration *)

Record InstCfg : Type := mkInstCfg {
  cfg_name : option string;
  cfg_url : option string;
  cfg_api_key : option string;
  cfg_hunt_missing : option Z;
  cfg_hunt_upgrades : option Z;
  cfg_monitored_only : option bool;
  cfg_skip_future : option bool
}.

Record Config : Type := mkConfig {
  cfg_ttl_hours : option Z;
  cfg_sonarr : option (list InstCfg);
  cfg_radarr : option (list InstCfg)
}.

(** The summary [run] returns. *)
Record Totals : Type := mkTotals {
  sonarr_missing : Z;
  sonarr_upgrades : Z;
  radarr_missing : Z;
  radarr_upgrades : Z
}.

(** [url.rstrip("/")] *)
Fixpoint rstrip_slash (s : string) : string :=
  match s with
  | EmptyString => EmptyString
  | String a s' =>
      match rstrip_slash s' with
      | EmptyString => if Ascii.eqb a "/" then EmptyString else String a EmptyString
      | r => String a r
      end
  end.

(** ** The program *)

Section Program.

Context {W : Type} (env : Env W).

(** Computations: from a state to a result or an exception, the state
    reached, and the events issued meanwhile. *)
Definition M (A : Type) : Type := Sys W → result A * Sys W * list Event.

Definition ret {A : Type} (a : A) : M A := λ s, (Ok a, s, []).

Definition raise {A : Type} (e : exn) : M A := λ s, (Raise e, s, []).

Definition bind {A B : Type} (m : M A) (f : A → M B) : M B := λ s,
  match m s with
  | (Ok a, s1, l1) => let '(r, s2, l2) := f a s1 in (r, s2, l1 ++ l2)
  | (Raise e, s1, l1) => (Raise e, s1, l1)
  end.

(** [try: m  except Exception: h] *)
Definition try_except {A : Type} (m : M A) (h : M A) : M A := λ s,
  match m s with
  | (Ok a, s1, l1) => (Ok a, s1, l1)
  | (Raise _, s1, l1) => let '(r, s2, l2) := h s1 in (r, s2, l1 ++ l2)
  end.

Definition lift {A : Type} (r : result A) : M A := λ s, (r, s, []).

Notation "'let*' x ':=' m 'in' k" := (bind m (λ x, k))
  (at level 10, x name, m at level 100, k at level 200, only parsing).

(** [datetime.datetime.now(datetime.timezone.utc)] *)
Definition utcnow : M Z := λ s,
  let '(t, w) := clock env (world s) in (Ok t, mkSys (db s) w, []).

(** *** StateDB, on the cycle's state *)

(** [StateDB(db_path, ttl_hours=ttl)]: the table is the one found in
    the database file. *)
Definition StateDB_open (ttl : Z) : M unit := λ s,
  (Ok tt, mkSys (mkStateDB ttl (rows (db s))) (world s), []).

Definition StateDB_is_searched (app instance media_id : string) : M bool :=
  let* now := utcnow in
  λ s, (is_searched (db s) now app instance media_id, s, []).

Definition StateDB_mark_searched (app instance media_id : string) : M unit :=
  let* now := utcnow in
  λ s, (Ok tt, mkSys (mark_searched (db s) now app instance media_id) (world s),
        [EvMark app instance media_id now]).

Definition StateDB_purge_expired : M nat :=
  let* now := utcnow in
  λ s, match purge_expired (db s) now with
       | Ok (n, st) => (Ok n, mkSys st (world s), [EvPurge n])
       | Raise e => (Raise e, s, [])
       end.

(** *** ArrClient *)

(** [get]: [session.get], [raise_for_status], [r.json()]. *)
Definition ArrClient_get (c : ArrClient) (rq : Request) : M Page := λ s,
  match session_get env c rq (world s) with
  | (Some body, w) => (Ok body, mkSys (db s) w, [EvGet c rq true])
  | (None, w) => (Raise RequestException, mkSys (db s) w, [EvGet c rq false])
  end.

(** [post]; the decoded answer is not used by any caller. *)
Definition ArrClient_post (c : ArrClient) (cmd : Command) : M unit := λ s,
  match session_post env c cmd (world s) with
  | (true, w) => (Ok tt, mkSys (db s) w, [EvPost c cmd true])
  | (false, w) => (Raise RequestException, mkSys (db s) w, [EvPost c cmd false])
  end.

(** [check_connection]: the body of [system/status] is only logged. *)
Definition check_connection (c : ArrClient) : M bool :=
  try_except (let* _ := ArrClient_get c SystemStatus in ret true) (ret false).

(** *** The [random] module *)

(** A uniform draw below [n], from one raw draw of the generator. *)
Definition randbelow (n : Z) : M Z := λ s,
  let '(r, w) := random_draw env (world s) in (Ok (r mod n), mkSys (db s) w, []).

(** [random.randint(a, b)]: [a + randbelow(b - a + 1)], [ValueError] on
    an empty range. *)
Definition randint (a b : Z) : M Z :=
  if 0 <? b + 1 - a
  then let* r := randbelow (b + 1 - a) in ret (a + r)
  else raise ValueError.

(** [k] draws without replacement: each draw picks a position of what
    is left of the population and removes it. *)
Fixpoint sample_draws {A : Type} (pool : list A) (k : nat) : M (list A) :=
  match k with
  | O => ret []
  | S k' =>
      let* j := randbelow (Z.of_nat (length pool)) in
      match pool !! Z.to_nat j with
      | Some x => let* rest := sample_draws (delete (Z.to_nat j) pool) k' in ret (x :: rest)
      | None => ret []
      end
  end.

(** [random.sample(population, k)]: [ValueError] unless
    [0 <= k <= len(population)]. *)
Definition random_sample {A : Type} (population : list A) (k : Z) : M (list A) :=
  if (0 <=? k) && (k <=? Z.of_nat (length population))
  then sample_draws population (Z.to_nat k)
  else raise ValueError.

(** *** The hunts *)

(** What distinguishes the four hunt functions: the list endpoint and
    whether [includeSeries] is sent, the monitored test, the future test
    (missing hunts only), the ledger's [app] key, the search command. *)
Record HuntKind : Type := mkHuntKind {
  hk_endpoint : string;
  hk_includeSeries : bool;
  hk_monitored : Item → bool;
  hk_not_future : option (Z → Item → result bool);
  hk_app : string;
  hk_command : Z → Command
}.

Definition SonarrMissing : HuntKind :=
  {| hk_endpoint := "wanted/missing"; hk_includeSeries := true;
     hk_monitored := episode_monitored;
     hk_not_future := Some (episode_not_future (fromisoformat env));
     hk_app := "sonarr";
     hk_command := λ ep_id, EpisodeSearch [ep_id] |}.

Definition SonarrUpgrades : HuntKind :=
  {| hk_endpoint := "wanted/cutoff"; hk_includeSeries := true;
     hk_monitored := episode_monitored;
     hk_not_future := None;
     hk_app := "sonarr_upgrade";
     hk_command := λ ep_id, EpisodeSearch [ep_id] |}.

Definition RadarrMissing : HuntKind :=
  {| hk_endpoint := "wanted/missing"; hk_includeSeries := false;
     hk_monitored := movie_monitored;
     hk_not_future := Some (movie_not_future (fromisoformat env));
     hk_app := "radarr";
     hk_command := λ mid, MoviesSearch [mid] |}.

Definition RadarrUpgrades : HuntKind :=
  {| hk_endpoint := "wanted/cutoff"; hk_includeSeries := false;
     hk_monitored := movie_monitored;
     hk_not_future := None;
     hk_app := "radarr_upgrade";
     hk_command := λ mid, MoviesSearch [mid] |}.

Section Hunt.

Variables (hk : HuntKind) (client : ArrClient) (instance : string).

(** The first query, [page=1, pageSize=1], read for [totalRecords]. *)
Definition count_request (monitored_only : bool) : Request :=
  Wanted (hk_endpoint hk) 1 1 (hk_includeSeries hk) monitored_only.

Definition page_request (page page_size : Z) (monitored_only : bool) : Request :=
  Wanted (hk_endpoint hk) page page_size (hk_includeSeries hk) monitored_only.

(** [if monitored_only: items = [x for x in items if <monitored>]] *)
Definition filter_monitored (monitored_only : bool) (items : list Item) : list Item :=
  if monitored_only then List.filter (hk_monitored hk) items else items.

(** The future filter.  The missing hunts read the clock once, then
    filter when [skip_future]; the upgrade hunts have no such step. *)
Definition filter_future (skip_future : bool) (items : list Item) : M (list Item) :=
  match hk_not_future hk with
  | Some not_future =>
      let* now := utcnow in
      if skip_future then lift (filter_raising (not_future now) items)
      else ret items
  | None => ret items
  end.

(** [[x for x in items if not state.is_searched(app, instance, str(x["id"]))]]:
    every test is a query of its own, with its own reading of the clock. *)
Fixpoint filter_unsearched (items : list Item) : M (list Item) :=
  match items with
  | [] => ret []
  | x :: items' =>
      let* b := StateDB_is_searched (hk_app hk) instance (pretty (id x)) in
      let* rest := filter_unsearched items' in
      ret (if b then rest else x :: rest)
  end.

(** One turn of [for x in to_search]: nothing but a log line in a dry
    run; otherwise the trigger, then the ledger entry, then the count,
    any exception ending the turn without the steps that follow it. *)
Definition search_one (dry_run : bool) (x : Item) (searched : Z) : M Z :=
  if dry_run then ret searched
  else
    try_except
      (let* _ := ArrClient_post client (hk_command hk (id x)) in
       let* _ := StateDB_mark_searched (hk_app hk) instance (pretty (id x)) in
       ret (searched + 1))
      (ret searched).

Fixpoint search_loop (dry_run : bool) (to_search : list Item) (searched : Z) : M Z :=
  match to_search with
  | [] => ret searched
  | x :: rest =>
      let* searched' := search_one dry_run x searched in
      search_loop dry_run rest searched'
  end.

(** From [if not candidates] to [return searched]. *)
Definition hunt_batch (limit : Z) (dry_run : bool) (candidates : list Item) : M Z :=
  match candidates with
  | [] => ret 0
  | _ =>
      let* to_search :=
        random_sample candidates (Z.min limit (Z.of_nat (length candidates))) in
      search_loop dry_run to_search 0
  end.

(** From the page fetch to the candidates. *)
Definition hunt_candidates (total : Z) (monitored_only skip_future : bool) : M (list Item) :=
  let page_size := Paging.page_size total in
  let total_pages := Paging.total_pages total in
  let* page := randint 1 total_pages in
  let* data := ArrClient_get client (page_request page page_size monitored_only) in
  let items := default [] (records data) in
  let items := filter_monitored monitored_only items in
  let* items := filter_future skip_future items in
  filter_unsearched items.

Definition hunt (limit : Z) (monitored_only skip_future dry_run : bool) : M Z :=
  let* data := ArrClient_get client (count_request monitored_only) in
  let total := default 0 (totalRecords data) in
  if total =? 0 then ret 0
  else
    let* candidates := hunt_candidates total monitored_only skip_future in
    hunt_batch limit dry_run candidates.

End Hunt.

Definition sonarr_hunt_missing (client : ArrClient) (instance : string) (limit : Z)
    (monitored_only skip_future dry_run : bool) : M Z :=
  hunt SonarrMissing client instance limit monitored_only skip_future dry_run.

Definition sonarr_hunt_upgrades (client : ArrClient) (instance : string) (limit : Z)
    (monitored_only dry_run : bool) : M Z :=
  hunt SonarrUpgrades client instance limit monitored_only false dry_run.

Definition radarr_hunt_missing (client : ArrClient) (instance : string) (limit : Z)
    (monitored_only skip_future dry_run : bool) : M Z :=
  hunt RadarrMissing client instance limit monitored_only skip_future dry_run.

Definition radarr_hunt_upgrades (client : ArrClient) (instance : string) (limit : Z)
    (monitored_only dry_run : bool) : M Z :=
  hunt RadarrUpgrades client instance limit monitored_only false dry_run.

(** *** Main *)

Definition no_totals : Totals :=
  {| sonarr_missing := 0; sonarr_upgrades := 0; radarr_missing := 0; radarr_upgrades := 0 |}.

(** [totals[key] += n] for the two keys of one system. *)
Definition add_missing (sonarr : bool) (n : Z) (t : Totals) : Totals :=
  if sonarr
  then {| sonarr_missing := sonarr_missing t + n; sonarr_upgrades := sonarr_upgrades t;
          radarr_missing := radarr_missing t; radarr_upgrades := radarr_upgrades t |}
  else {| sonarr_missing := sonarr_missing t; sonarr_upgrades := sonarr_upgrades t;
          radarr_missing := radarr_missing t + n; radarr_upgrades := radarr_upgrades t |}.

Definition add_upgrades (sonarr : bool) (n : Z) (t : Totals) : Totals :=
  if sonarr
  then {| sonarr_missing := sonarr_missing t; sonarr_upgrades := sonarr_upgrades t + n;
          radarr_missing := radarr_missing t; radarr_upgrades := radarr_upgrades t |}
  else {| sonarr_missing := sonarr_missing t; sonarr_upgrades := sonarr_upgrades t;
          radarr_missing := radarr_missing t; radarr_upgrades := radarr_upgrades t + n |}.

(** The body of [for inst_cfg in cfg.get("sonarr", [])] ([sonarr = true])
    and of the Radarr loop, which differ in the default name, the hunt
    functions called and the totals updated. *)
Definition run_instance (sonarr dry_run : bool) (inst_cfg : InstCfg) (totals : Totals) : M Totals :=
  let name := default (if sonarr then "Sonarr" else "Radarr") (cfg_name inst_cfg) in
  let url := default "" (cfg_url inst_cfg) in
  let key := default "" (cfg_api_key inst_cfg) in
  if negb (Str.truthy (Some url)) || negb (Str.truthy (Some key)) then ret totals
  else
    let client := mkArrClient name (rstrip_slash url) key in
    let* connected := check_connection client in
    if negb connected then ret totals
    else
      let hunt_missing := default 5 (cfg_hunt_missing inst_cfg) in
      let hunt_upgrades := default 0 (cfg_hunt_upgrades inst_cfg) in
      let monitored := default true (cfg_monitored_only inst_cfg) in
      let skip_future := default true (cfg_skip_future inst_cfg) in
      let* totals :=
        if 0 <? hunt_missing
        then
          let* n :=
            (if sonarr then sonarr_hunt_missing else radarr_hunt_missing)
              client name hunt_missing monitored skip_future dry_run in
          ret (add_missing sonarr n totals)
        else ret totals in
      if 0 <? hunt_upgrades
      then
        let* n :=
          (if sonarr then sonarr_hunt_upgrades else radarr_hunt_upgrades)
            client name hunt_upgrades monitored dry_run in
        ret (add_upgrades sonarr n totals)
      else ret totals.

Fixpoint run_instances (sonarr dry_run : bool) (insts : list InstCfg) (totals : Totals) : M Totals :=
  match insts with
  | [] => ret totals
  | inst_cfg :: rest =>
      let* totals' := run_instance sonarr dry_run inst_cfg totals in
      run_instances sonarr dry_run rest totals'
  end.

(** [run(cfg, dry_run)]: one full cycle.  [ttl_hours] is read from the
    [state] section of the configuration; the closing [state.close()]
    changes nothing in the table. *)
Definition run (cfg : Config) (dry_run : bool) : M Totals :=
  let ttl := default 168 (cfg_ttl_hours cfg) in
  let* _ := StateDB_open ttl in
  let* purged := StateDB_purge_expired in
  let totals := no_totals in
  let* totals := run_instances true dry_run (default [] (cfg_sonarr cfg)) totals in
  let* totals := run_instances false dry_run (default [] (cfg_radarr cfg)) totals in
  ret totals.

End Program.

Arguments M : clear implicits.

(** ** A scripted world, for the examples *)

Module Demo.

(** The clock's next reading and the generator's next raw draws. *)
Record World : Type := mkWorld {
  w_time : Z;
  w_draws : list Z
}.

(** Servers that answer by request, a clock that advances by one
    microsecond per reading, draws read off a list (then [0]). *)
Definition env (get : ArrClient → Request → option Page)
    (post : ArrClient → Command → bool)
    (iso : string → option datetime) : Env World :=
  {| clock := λ w, (w_time w, mkWorld (w_time w + 1) (w_draws w));
     session_get := λ c rq w, (get c rq, w);
     session_post := λ c cmd w, (post c cmd, w);
     random_draw := λ w,
       match w_draws w with
       | [] => (0, w)
       | r :: ds => (r, mkWorld (w_time w) ds)
       end;
     fromisoformat := iso |}.

(** 2024-06-01T00:00:00Z and 2024-05-31T00:00:00Z *)
Definition june_1st : Z := 1717200000000000.
Definition may_31st : Z := 1717113600000000.

(** [datetime.fromisoformat] on the texts of the examples. *)
Definition iso (s : string) : option datetime :=
  if decide (s = "2000-01-01T00:00:00+00:00") then Some (mkDatetime 946684800000000 true)
  else if decide (s = "2999-01-01T00:00:00+00:00") then Some (mkDatetime 32472144000000000 true)
  else if decide (s = "2000-01-01T00:00:00") then Some (mkDatetime 946684800000000 false)
  else None.

Definition item (i : Z) : Item :=
  {| id := i; monitored := Some true; series := Some (mkSeries (Some true));
     airDateUtc := None; releaseDate := None; digitalRelease := None;
     physicalRelease := None |}.

Definition episode (i : Z) (mon : bool) (air : option string) : Item :=
  {| id := i; monitored := Some mon; series := Some (mkSeries (Some true));
     airDateUtc := air; releaseDate := None; digitalRelease := None;
     physicalRelease := None |}.

Definition movie (i : Z) (release digital : option string) : Item :=
  {| id := i; monitored := Some true; series := None;
     airDateUtc := None; releaseDate := release; digitalRelease := digital;
     physicalRelease := None |}.

Definition instance (name : string) (missing : Z) : InstCfg :=
  {| cfg_name := Some name; cfg_url := Some ("http://" +:+ name +:+ "/");
     cfg_api_key := Some "k"; cfg_hunt_missing := Some missing;
     cfg_hunt_upgrades := None; cfg_monitored_only := None;
     cfg_skip_future := None |}.

Definition client (name : string) : ArrClient :=
  mkArrClient name ("http://" +:+ name) "k".

Definition key (app inst media_id : string) : Key := (app, inst, media_id).

Definition start (table : gmap Key Z) (draws : list Z) : Sys World :=
  mkSys (mkStateDB 168 table) (mkWorld june_1st draws).

(** Two Sonarr instances; the first one's [wanted/missing] fails. *)
Definition get_first_fails (c : ArrClient) (rq : Request) : option Page :=
  match rq with
  | SystemStatus => Some (mkPage None None)
  | Wanted _ _ _ _ _ =>
      if decide (client_name c = "tv1") then None
      else Some (mkPage (Some 1) (Some [item 9]))
  end.

Definition two_sonarr : Config :=
  {| cfg_ttl_hours := None;
     cfg_sonarr := Some [instance "tv1" 5; instance "tv2" 5];
     cfg_radarr := None |}.

(** One Sonarr instance with three missing episodes; the search of
    episode 2 is rejected. *)
Definition get_three (c : ArrClient) (rq : Request) : option Page :=
  match rq with
  | SystemStatus => Some (mkPage None None)
  | Wanted _ _ _ _ _ => Some (mkPage (Some 3) (Some [item 1; item 2; item 3]))
  end.

Definition post_rejects_2 (c : ArrClient) (cmd : Command) : bool :=
  match cmd with
  | EpisodeSearch [2] => false
  | _ => true
  end.

Definition one_sonarr : Config :=
  {| cfg_ttl_hours := None;
     cfg_sonarr := Some [instance "tv" 5];
     cfg_radarr := None |}.

Definition no_instances : Config :=
  {| cfg_ttl_hours := None; cfg_sonarr := None; cfg_radarr := None |}.

End Demo.

(** ** Reading a record of events *)

Module Events.

(** A [wanted/...] query that raised. *)
Definition failed_query (e : Event) : bool :=
  match e with
  | EvGet _ (Wanted _ _ _ _ _) false => true
  | _ => false
  end.

(** A GET, the only kind of event that touches neither a search
    command nor the ledger. *)
Definition is_get (e : Event) : bool :=
  match e with
  | EvGet _ _ _ => true
  | _ => false
  end.

Definition is_trigger (e : Event) : bool :=
  match e with
  | EvPost _ _ _ => true
  | _ => false
  end.

Definition is_mark (e : Event) : bool :=
  match e with
  | EvMark _ _ _ _ => true
  | _ => false
  end.

(** A search command that was accepted. *)
Definition triggered (e : Event) : bool :=
  match e with
  | EvPost _ _ true => true
  | _ => false
  end.

(** A ledger entry written under the key [app]. *)
Definition marked (app : string) (e : Event) : bool :=
  match e with
  | EvMark a _ _ _ => bool_decide (a = app)
  | _ => false
  end.

Definition count (p : Event → bool) (evs : list Event) : Z :=
  Z.of_nat (length (List.filter p evs)).

(** The ledger entries written, counted under the four [app] keys and
    laid out as the totals they feed. *)
Definition tally (evs : list Event) : Totals :=
  {| sonarr_missing := count (marked "sonarr") evs;
     sonarr_upgrades := count (marked "sonarr_upgrade") evs;
     radarr_missing := count (marked "radarr") evs;
     radarr_upgrades := count (marked "radarr_upgrade") evs |}.

Definition plus (a b : Totals) : Totals :=
  {| sonarr_missing := sonarr_missing a + sonarr_missing b;
     sonarr_upgrades := sonarr_upgrades a + sonarr_upgrades b;
     radarr_missing := radarr_missing a + radarr_missing b;
     radarr_upgrades := radarr_upgrades a + radarr_upgrades b |}.

(** No [wanted/...] query failed, or one did, it is the last event and
    the computation ended with its exception. *)
Definition ended_by_query {A : Type} (evs : list Event) (r : result A) : Prop :=
  Forall (λ e, failed_query e = false) evs
  ∨ (r = Raise RequestException
     ∧ ∃ pre e, evs = pre ++ [e] ∧ failed_query e = true
                ∧ Forall (λ e, failed_query e = false) pre).

End Events.

(** ** One batch, turn by turn *)

Section Turns.

Variables (hk : HuntKind) (client : ArrClient) (instance : string).

(** What one turn of the search loop leaves behind, by its outcome:
    [Some t] when the command was accepted and the entry written at
    instant [t], [None] when the command was rejected. *)
Definition turn_events (x : Item) (o : option Z) : list Event :=
  match o with
  | Some t => [EvPost client (hk_command hk (id x)) true;
               EvMark (hk_app hk) instance (pretty (id x)) t]
  | None => [EvPost client (hk_command hk (id x)) false]
  end.

Definition turn_db (st : StateDB) (x : Item) (o : option Z) : StateDB :=
  match o with
  | Some t => mark_searched st t (hk_app hk) instance (pretty (id x))
  | None => st
  end.

Fixpoint batch_events (xs : list Item) (os : list (option Z)) : list Event :=
  match xs, os with
  | x :: xs', o :: os' => turn_events x o ++ batch_events xs' os'
  | _, _ => []
  end.

Fixpoint batch_db (st : StateDB) (xs : list Item) (os : list (option Z)) : StateDB :=
  match xs, os with
  | x :: xs', o :: os' => batch_db (turn_db st x o) xs' os'
  | _, _ => st
  end.

(** The number of accepted commands among the outcomes. *)
Definition successes (os : list (option Z)) : Z :=
  Z.of_nat (length (List.filter (λ o : option Z, bool_decide (is_Some o)) os)).

End Turns.

(** ** What a stretch of the cycle must satisfy *)

(** A computation that carries the totals on from [t0]: its [wanted]
    queries obey [ended_by_query], the totals it returns are [t0] plus the
    tally of the entries it wrote, and in a dry run it only issues GETs
    and leaves the ledger as it found it. *)
Definition carries_totals {W : Type} (dry_run : bool) (t0 : Totals) (m : M W Totals) : Prop :=
  ∀ s r s' evs,
    m s = (r, s', evs) →
    Events.ended_by_query evs r
    ∧ (∀ t, r = Ok t → t = Events.plus t0 (Events.tally evs))
    ∧ (dry_run = true → Forall (λ e, Events.is_get e = true) evs ∧ db s' = db s).

(** ** The filters as steps over a page *)

(** The three filters of a hunt as steps that can be chained in any order,
    at a fixed ledger and a fixed [now]: the monitored test, the future
    test, which raises on a date without UTC offset, and the ledger test,
    which raises when the cutoff is no [datetime]. *)
Inductive Step : Type := ByMonitored | ByFuture | ByLedger.

(** [not state.is_searched(app, instance, str(x["id"]))] *)
Definition not_searched (hk : HuntKind) (st : StateDB) (now : Z) (instance : string)
    (x : Item) : result bool :=
  match is_searched st now (hk_app hk) instance (pretty (id x)) with
  | Ok b => Ok (negb b)
  | Raise e => Raise e
  end.

Definition apply_step (hk : HuntKind) (st : StateDB) (now : Z) (instance : string)
    (step : Step) (items : list Item) : result (list Item) :=
  match step with
  | ByMonitored => Ok (List.filter (hk_monitored hk) items)
  | ByFuture =>
      match hk_not_future hk with
      | Some not_future => filter_raising (not_future now) items
      | None => Ok items
      end
  | ByLedger => filter_raising (not_searched hk st now instance) items
  end.

Fixpoint apply_steps (hk : HuntKind) (st : StateDB) (now : Z) (instance : string)
    (steps : list Step) (items : list Item) : result (list Item) :=
  match steps with
  | [] => Ok items
  | step :: rest =>
      match apply_step hk st now instance step items with
      | Ok items' => apply_steps hk st now instance rest items'
      | Raise e => Raise e
      end
  end.

(** The order of the code. *)
Definition code_order : list Step := [ByMonitored; ByFuture; ByLedger].

(** The test a step makes on one item, where it does not raise. *)
Definition step_keeps (hk : HuntKind) (st : StateDB) (now : Z) (instance : string)
    (step : Step) (x : Item) : bool :=
  match step with
  | ByMonitored => hk_monitored hk x
  | ByFuture =>
      match hk_not_future hk with
      | Some not_future =>
          match not_future now x with
          | Ok b => b
          | Raise _ => true
          end
      | None => true
      end
  | ByLedger =>
      match not_searched hk st now instance x with
      | Ok b => b
      | Raise _ => true
      end
  end.

(** The future test is defined on [x]. *)
Definition future_defined (hk : HuntKind) (now : Z) (x : Item) : Prop :=
  ∀ not_future, hk_not_future hk = Some not_future → ∃ b, not_future now x = Ok b.

(** The ledger test is defined: the cutoff at [now] is a [datetime]. *)
Definition ledger_defined (st : StateDB) (now : Z) : Prop :=
  ∃ c, cutoff st now = Ok c.

(** The world after [n] readings of the clock with nothing in between. *)
Fixpoint tick {W : Type} (env : Env W) (n : nat) (w : W) : W :=
  match n with
  | O => w
  | S n' => tick env n' (clock env w).2
  end.

(** "The first non-empty one" of a list of optional texts, the reading of
    Radarr's [a or b or c] that the date filter is compared with. *)
Definition first_nonempty (l : list (option string)) : option string :=
  match List.find Str.truthy l with
  | Some o => o
  | None => None
  end.

(** ** The URL of a request *)

(** [endpoint.lstrip("/")] *)
Fixpoint lstrip_slash (s : string) : string :=
  match s with
  | String a s' => if Ascii.eqb a "/" then lstrip_slash s' else s
  | EmptyString => EmptyString
  end.

(** [ArrClient(name, url, api_key)], as [run] builds its clients. *)
Definition ArrClient_init (name url api_key : string) : ArrClient :=
  mkArrClient name (rstrip_slash url) api_key.

(** [_url]: [f"{self.base}/api/v3/{endpoint.lstrip('/')}"] *)
Definition _url (c : ArrClient) (endpoint : string) : string :=
  client_base c +:+ "/api/v3/" +:+ lstrip_slash endpoint.

(** The first character of a text is [c]. *)
Definition startswith (c : ascii) (s : string) : bool :=
  match s with
  | String a _ => Ascii.eqb a c
  | EmptyString => false
  end.

(** ** A world whose clock stands still *)

Module Still.

(** The servers and the generator of [Demo.env], at a fixed instant. *)
Definition env (now : Z) (get : ArrClient → Request → option Page)
    (post : ArrClient → Command → bool)
    (iso : string → option datetime) : Env Demo.World :=
  {| clock := λ w, (now, w);
     session_get := λ c rq w, (get c rq, w);
     session_post := λ c cmd w, (post c cmd, w);
     random_draw := λ w,
       match Demo.w_draws w with
       | [] => (0, w)
       | r :: ds => (r, Demo.mkWorld (Demo.w_time w) ds)
       end;
     fromisoformat := iso |}.

End Still.

(** ** Conditions on the servers *)

(** The ids of the records of a page are pairwise distinct. *)
Definition ids_distinct {W : Type} (env : Env W) : Prop :=
  ∀ c rq w body w',
    session_get env c rq w = (Some body, w') →
    NoDup (id <$> default [] (records body)).

(** The search commands an instance may issue in one cycle: its two
    limits, those that are positive. *)
Definition instance_budget (inst_cfg : InstCfg) : Z :=
  Z.max 0 (default 5 (cfg_hunt_missing inst_cfg))
  + Z.max 0 (default 0 (cfg_hunt_upgrades inst_cfg)).

Fixpoint instances_budget (insts : list InstCfg) : Z :=
  match insts with
  | [] => 0
  | inst_cfg :: rest => instance_budget inst_cfg + instances_budget rest
  end.

Definition cycle_budget (cfg : Config) : Z :=
  instances_budget (default [] (cfg_sonarr cfg))
  + instances_budget (default [] (cfg_radarr cfg)).

(** The ids a record of events shows as posted, and as posted and
    accepted. *)
Definition posted_ids (evs : list Event) : list Z :=
  flat_map (λ e, match e with
                 | EvPost _ (EpisodeSearch ids) _ | EvPost _ (MoviesSearch ids) _ => ids
                 | _ => []
                 end) evs.

Definition accepted_ids (evs : list Event) : list Z :=
  flat_map (λ e, match e with
                 | EvPost _ (EpisodeSearch ids) true
                 | EvPost _ (MoviesSearch ids) true => ids
                 | _ => []
                 end) evs.

(** The four hunt kinds of the program. *)
Definition hunt_kinds {W : Type} (env : Env W) : list HuntKind :=
  [SonarrMissing env; SonarrUpgrades; RadarrMissing env; RadarrUpgrades].

(** A GET on the list endpoint [endpoint]. *)
Definition queries (endpoint : string) (e : Event) : bool :=
  match e with
  | EvGet _ (Wanted ep _ _ _ _) _ => bool_decide (ep = endpoint)
  | _ => false
  end.

(** An event that belongs to no upgrade hunt: neither a query of
    [wanted/cutoff] nor a ledger entry under an upgrade key. *)
Definition upgrade_free (e : Event) : bool :=
  negb (queries "wanted/cutoff" e)
  && negb (Events.marked "sonarr_upgrade" e)
  && negb (Events.marked "radarr_upgrade" e).

(** The same for the missing hunts. *)
Definition missing_free (e : Event) : bool :=
  negb (queries "wanted/missing" e)
  && negb (Events.marked "sonarr" e)
  && negb (Events.marked "radarr" e).

(** The client [run] builds for an instance, and the instance's settings
    with their defaults. *)
Definition instance_client (sonarr : bool) (inst_cfg : InstCfg) : ArrClient :=
  ArrClient_init (default (if sonarr then "Sonarr" else "Radarr") (cfg_name inst_cfg))
    (default "" (cfg_url inst_cfg)) (default "" (cfg_api_key inst_cfg)).

Definition all_instances (cfg : Config) : list InstCfg :=
  default [] (cfg_sonarr cfg) ++ default [] (cfg_radarr cfg).

(** A stretch of events that holds at most [posts] search commands, no
    more ledger entries than search commands, and at most [gets] GETs. *)
Definition bounded_work (posts gets : Z) (evs : list Event) : Prop :=
  Events.count Events.is_trigger evs ≤ posts
  ∧ Events.count Events.is_mark evs ≤ Events.count Events.is_trigger evs
  ∧ Events.count Events.is_get evs ≤ gets.

(** An event of a hunt of kind [hk] at most: no query of another list
    endpoint, no ledger entry under another key. *)
Definition local_to (hk : HuntKind) (e : Event) : Prop :=
  (∀ endpoint, endpoint ≠ hk_endpoint hk → queries endpoint e = false)
  ∧ (∀ app, app ≠ hk_app hk → Events.marked app e = false).

(** ** The ledger: marking, querying, purging *)

Section LedgerFacts.

Implicit Types (st : StateDB) (k : Key).

Lemma ttl_mark_searched st now app inst mid :
  ttl_hours (mark_searched st now app inst mid) = ttl_hours st.
Proof. reflexivity. Qed.

(** The cutoff, when there is one, is [now - ttl]; the only exception is
    [OverflowError]. *)
Lemma cutoff_Ok st now c :
  cutoff st now = Ok c →
  c = now - ttl_hours st * us_per_hour ∧ representable c = true.
Proof.
  unfold cutoff, timedelta.
  destruct ((-999999999 <=? ttl_hours st / 24) && (ttl_hours st / 24 <=? 999999999));
    [|done].
  destruct (representable (now - ttl_hours st * us_per_hour)) eqn:E; [|done].
  by intros [= <-].
Qed.

Lemma cutoff_Raise st now e : cutoff st now = Raise e → e = OverflowError.
Proof.
  unfold cutoff, timedelta.
  destruct ((-999999999 <=? ttl_hours st / 24) && (ttl_hours st / 24 <=? 999999999));
    [|by intros [= <-]].
  destruct (representable (now - ttl_hours st * us_per_hour)); [done | by intros [= <-]].
Qed.

(** Between two instants that [datetime] can hold, the [timedelta] can be
    built: the cutoff is there. *)
Lemma cutoff_representable st now :
  representable now = true →
  representable (now - ttl_hours st * us_per_hour) = true →
  cutoff st now = Ok (now - ttl_hours st * us_per_hour).
Proof.
  intros Hnow Hcut. unfold cutoff, timedelta.
  assert (Hdays : (-999999999 <=? ttl_hours st / 24) && (ttl_hours st / 24 <=? 999999999)
                  = true).
  { unfold representable, datetime_min, datetime_max, us_per_hour in Hnow, Hcut.
    apply andb_true_iff in Hnow as [H1 H2]. apply andb_true_iff in Hcut as [H3 H4].
    apply Z.leb_le in H1, H2, H3, H4.
    apply andb_true_iff. split; apply Z.leb_le.
    - apply Z.div_le_lower_bound; lia.
    - apply Z.div_le_upper_bound; lia. }
  by rewrite Hdays, Hcut.
Qed.

Lemma cutoff_unrepresentable st now :
  representable (now - ttl_hours st * us_per_hour) = false →
  cutoff st now = Raise OverflowError.
Proof.
  intros Hcut. unfold cutoff, timedelta.
  destruct ((-999999999 <=? ttl_hours st / 24) && (ttl_hours st / 24 <=? 999999999));
    [|done].
  by rewrite Hcut.
Qed.

Lemma cutoff_mark_searched st T app inst mid now :
  cutoff (mark_searched st T app inst mid) now = cutoff st now.
Proof. reflexivity. Qed.

Lemma select_after_mark_same st T c app inst mid :
  select_after (mark_searched st T app inst mid) c app inst mid = bool_decide (c < T).
Proof. unfold select_after, mark_searched; simpl. by rewrite lookup_insert_eq. Qed.

Lemma select_after_mark_other st T c app inst mid app' inst' mid' :
  (app, inst, mid) ≠ (app', inst', mid') →
  select_after (mark_searched st T app inst mid) c app' inst' mid'
  = select_after st c app' inst' mid'.
Proof.
  intros Hne. unfold select_after, mark_searched; simpl.
  by rewrite lookup_insert_ne.
Qed.

Lemma is_searched_Ok st now c app inst mid :
  cutoff st now = Ok c →
  is_searched st now app inst mid = Ok (select_after st c app inst mid).
Proof. unfold is_searched. by intros ->. Qed.

Lemma is_searched_Raise st now e app inst mid :
  cutoff st now = Raise e → is_searched st now app inst mid = Raise e.
Proof. unfold is_searched. by intros ->. Qed.

Lemma is_searched_inv st now app inst mid b :
  is_searched st now app inst mid = Ok b →
  ∃ c, cutoff st now = Ok c ∧ b = select_after st c app inst mid.
Proof.
  unfold is_searched. destruct (cutoff st now) as [c|e]; [|done].
  intros [= <-]. by exists c.
Qed.

Lemma is_searched_mark_same st T T' app inst mid :
  is_searched (mark_searched st T app inst mid) T' app inst mid
  = match cutoff st T' with
    | Ok _ => Ok (bool_decide (T' < T + ttl_hours st * us_per_hour))
    | Raise e => Raise e
    end.
Proof.
  unfold is_searched. rewrite cutoff_mark_searched.
  destruct (cutoff st T') as [c|e] eqn:Hc; [|done].
  apply cutoff_Ok in Hc as [-> _]. rewrite select_after_mark_same.
  f_equal. apply bool_decide_ext. lia.
Qed.

Lemma rows_delete_lookup st c k :
  rows (delete_until st c).2 !! k
  = match rows st !! k with
    | Some t => if bool_decide (t ≤ c) then None else Some t
    | None => None
    end.
Proof.
  unfold delete_until; simpl.
  rewrite map_lookup_filter.
  destruct (rows st !! k) as [t|] eqn:E; simpl; [|done].
  case_bool_decide; simpl.
  - rewrite option_guard_False; [done | tauto].
  - by rewrite option_guard_True.
Qed.

Lemma rows_split st c :
  rows st = expired st c ∪ rows (delete_until st c).2.
Proof.
  unfold expired, delete_until; simpl.
  symmetry. apply map_filter_union_complement.
Qed.

Lemma size_delete st c :
  size (rows st) = ((delete_until st c).1 + size (rows (delete_until st c).2))%nat.
Proof.
  rewrite (rows_split st c) at 1.
  rewrite map_size_disj_union; [done|].
  apply map_disjoint_filter_complement.
Qed.

Lemma select_after_delete st c app inst mid :
  select_after (delete_until st c).2 c app inst mid = select_after st c app inst mid.
Proof.
  unfold select_after. rewrite rows_delete_lookup.
  destruct (rows st !! _) as [t|]; [|reflexivity].
  case_bool_decide as Hexp; [|reflexivity].
  symmetry. apply bool_decide_eq_false. lia.
Qed.

Lemma purge_expired_Ok st now c :
  cutoff st now = Ok c → purge_expired st now = Ok (delete_until st c).
Proof. unfold purge_expired. by intros ->. Qed.

Lemma purge_expired_inv st now n st' :
  purge_expired st now = Ok (n, st') →
  ∃ c, cutoff st now = Ok c ∧ (n, st') = delete_until st c.
Proof.
  unfold purge_expired. destruct (cutoff st now) as [c|e]; [|done].
  intros H. exists c. split; [done | congruence].
Qed.

Lemma purge_expired_Raise st now e :
  purge_expired st now = Raise e →
  e = OverflowError ∧ cutoff st now = Raise OverflowError.
Proof.
  unfold purge_expired. destruct (cutoff st now) as [c|e'] eqn:Hc; [done|].
  intros [= <-]. by rewrite (cutoff_Raise _ _ _ Hc) in *.
Qed.

(** Purging first changes no answer of [is_searched] at that [now]. *)
Lemma is_searched_purge st now n st' app inst mid :
  purge_expired st now = Ok (n, st') →
  is_searched st' now app inst mid = is_searched st now app inst mid.
Proof.
  intros Hp. apply purge_expired_inv in Hp as (c & Hc & Hd).
  assert (Hst' : st' = (delete_until st c).2) by (by rewrite <- Hd).
  subst st'. unfold is_searched.
  change (cutoff (delete_until st c).2 now) with (cutoff st now).
  rewrite Hc. by rewrite select_after_delete.
Qed.

End LedgerFacts.

(** C1 (as amended). A key marked searched at time [T] is reported as
    recently searched at every query time [T'] with [T <= T' < T + ttl],
    and as not recently searched at every [T' >= T + ttl] ([ttl] being
    [ttl_hours] hours), provided [T'] and [T' - ttl] are instants a
    [datetime] can hold; when [T' - ttl] is not, the query raises
    [OverflowError]. *)
Theorem marked_is_searched_within_ttl :
  ∀ (st : StateDB) (app inst mid : string) (T T' : Z),
    (representable T' = true →
     representable (T' - ttl_hours st * us_per_hour) = true →
     (T ≤ T' < T + ttl_hours st * us_per_hour →
        is_searched (mark_searched st T app inst mid) T' app inst mid = Ok true)
     ∧ (T + ttl_hours st * us_per_hour ≤ T' →
          is_searched (mark_searched st T app inst mid) T' app inst mid = Ok false))
    ∧ (representable (T' - ttl_hours st * us_per_hour) = false →
       is_searched (mark_searched st T app inst mid) T' app inst mid
       = Raise OverflowError).
Proof.
  intros st app inst mid T T'. rewrite is_searched_mark_same. split.
  - intros Hnow Hcut. rewrite (cutoff_representable st T' Hnow Hcut).
    split; intros H; f_equal.
    + apply bool_decide_eq_true. lia.
    + apply bool_decide_eq_false. lia.
  - intros Hcut. by rewrite (cutoff_unrepresentable st T' Hcut).
Qed.

(** An entry marked on 2024-05-31 is in force a day later and no more
    168 hours later. *)
Lemma marked_is_searched_within_ttl_witness :
  let st := mkStateDB 168 ∅ in
  is_searched (mark_searched st Demo.may_31st "sonarr" "tv" "1") Demo.june_1st
    "sonarr" "tv" "1" = Ok true
  ∧ is_searched (mark_searched st Demo.may_31st "sonarr" "tv" "1")
      (Demo.may_31st + 168 * us_per_hour) "sonarr" "tv" "1" = Ok false.
Proof.
  intros st.
  destruct (marked_is_searched_within_ttl st "sonarr" "tv" "1"
              Demo.may_31st Demo.june_1st) as [Hin _].
  destruct (marked_is_searched_within_ttl st "sonarr" "tv" "1"
              Demo.may_31st (Demo.may_31st + 168 * us_per_hour)) as [Hout _].
  split.
  - apply Hin; [reflexivity | reflexivity |].
    vm_compute. split; [discriminate | reflexivity].
  - apply Hout; [reflexivity | reflexivity |]. vm_compute. discriminate.
Defined.

(** C1, as stated, fails: with [ttl_hours = 20000000] (some 2283 years)
    the cutoff of a query made in 2024 lies before year 1, and the query
    of a key marked at that very instant raises [OverflowError] instead
    of returning true. *)
Lemma marked_key_query_overflows :
  let st := mkStateDB 20000000 ∅ in
  let T := Demo.june_1st in
  T ≤ T < T + ttl_hours st * us_per_hour
  ∧ representable T = true
  ∧ is_searched (mark_searched st T "sonarr" "tv" "1") T "sonarr" "tv" "1"
    = Raise OverflowError
  ∧ is_searched (mark_searched st T "sonarr" "tv" "1") T "sonarr" "tv" "1" ≠ Ok true.
Proof.
  intros st T.
  split; [vm_compute; split; [discriminate | reflexivity]|].
  split; [reflexivity|]. split; [vm_compute; reflexivity | vm_compute; discriminate].
Qed.

(** C9 (as amended). When [now] and [now - ttl] are instants a [datetime]
    can hold, [purge_expired] removes exactly the rows with
    [searched_at <= now - ttl] and returns their number, and no answer of
    [is_searched] at that same [now] is changed by purging first; when
    [now - ttl] is not, [purge_expired] and [is_searched] raise
    [OverflowError]. *)
Theorem purge_expired_is_housekeeping :
  ∀ (st : StateDB) (now : Z),
    let c := now - ttl_hours st * us_per_hour in
    (representable now = true → representable c = true →
     ∃ n st',
       purge_expired st now = Ok (n, st')
       ∧ ttl_hours st' = ttl_hours st
       ∧ (∀ k : Key,
            rows st' !! k
            = match rows st !! k with
              | Some t => if bool_decide (t ≤ c) then None else Some t
              | None => None
              end)
       ∧ n = size (expired st c)
       ∧ (∀ k t, expired st c !! k = Some t ↔ rows st !! k = Some t ∧ t ≤ c)
       ∧ size (rows st) = (n + size (rows st'))%nat
       ∧ (∀ app inst mid,
            is_searched st' now app inst mid = is_searched st now app inst mid))
    ∧ (representable c = false →
       purge_expired st now = Raise OverflowError
       ∧ ∀ app inst mid, is_searched st now app inst mid = Raise OverflowError).
Proof.
  intros st now c. split.
  - intros Hnow Hcut. pose proof (cutoff_representable st now Hnow Hcut) as Hc.
    fold c in Hc.
    exists (delete_until st c).1, (delete_until st c).2.
    assert (Hp : purge_expired st now = Ok ((delete_until st c).1, (delete_until st c).2))
      by (rewrite (purge_expired_Ok st now c Hc); by destruct (delete_until st c)).
    split; [done|]. split; [done|].
    split; [intros k; apply rows_delete_lookup|].
    split; [done|].
    split; [intros k t; unfold expired; rewrite map_lookup_filter_Some; reflexivity|].
    split; [apply size_delete|].
    intros app inst mid. by eapply is_searched_purge.
  - intros Hcut. pose proof (cutoff_unrepresentable st now Hcut) as Hc.
    split; [unfold purge_expired; by rewrite Hc|].
    intros app inst mid. by apply is_searched_Raise.
Qed.

(** A row of 1970 and a row of 2024-05-31, purged on 2024-06-01 under a
    TTL of 168 hours: one row removed. *)
Lemma purge_expired_is_housekeeping_witness :
  let st := mkStateDB 168 {[ Demo.key "sonarr" "tv" "1" := 5;
                             Demo.key "sonarr" "tv" "2" := Demo.may_31st ]} in
  ∃ n st', purge_expired st Demo.june_1st = Ok (n, st')
           ∧ n = 1%nat
           ∧ is_searched st' Demo.june_1st "sonarr" "tv" "2"
             = is_searched st Demo.june_1st "sonarr" "tv" "2".
Proof.
  intros st.
  destruct (proj1 (purge_expired_is_housekeeping st Demo.june_1st) eq_refl eq_refl)
    as (n & st' & Hp & _ & _ & Hn & _ & _ & Hsame).
  exists n, st'. split; [done|]. split; [rewrite Hn; vm_compute; reflexivity|].
  apply Hsame.
Defined.

(** C9, as stated, fails: with [ttl_hours = -80000000] the cutoff of a
    purge made in 2024 lies after year 9999; every row is older than it,
    yet [purge_expired] removes none and returns no number: it raises
    [OverflowError], and so does [is_searched]. *)
Lemma purge_overflows :
  let st := mkStateDB (-80000000) {[ Demo.key "sonarr" "tv" "1" := Demo.may_31st ]} in
  let now := Demo.june_1st in
  representable now = true
  ∧ rows st !! Demo.key "sonarr" "tv" "1" = Some Demo.may_31st
  ∧ Demo.may_31st ≤ now - ttl_hours st * us_per_hour
  ∧ purge_expired st now = Raise OverflowError
  ∧ (∀ n st', purge_expired st now ≠ Ok (n, st'))
  ∧ is_searched st now "sonarr" "tv" "1" = Raise OverflowError.
Proof.
  intros st now.
  split; [reflexivity|]. split; [vm_compute; reflexivity|].
  split; [vm_compute; discriminate|].
  assert (Hp : purge_expired st now = Raise OverflowError) by (vm_compute; reflexivity).
  split; [done|]. split; [intros n st'; by rewrite Hp|].
  vm_compute; reflexivity.
Qed.

(** ** The monad and the random module *)

Section MonadFacts.

Context {W : Type} (env : Env W).

Lemma bind_inv {A B : Type} (m : M W A) (f : A → M W B) s r s' evs :
  bind m f s = (r, s', evs) →
  (∃ a s1 l1 l2, m s = (Ok a, s1, l1) ∧ f a s1 = (r, s', l2) ∧ evs = l1 ++ l2)
  ∨ (∃ e, m s = (Raise e, s', evs) ∧ r = Raise e).
Proof.
  unfold bind. destruct (m s) as [[[a|e] s1] l1].
  - destruct (f a s1) as [[r2 s2] l2] eqn:Ef. intros [= <- <- <-].
    left. by exists a, s1, l1, l2.
  - intros [= <- <- <-]. right. by exists e.
Qed.

Lemma bind_ok {A B : Type} (m : M W A) (f : A → M W B) s a s1 l1 :
  m s = (Ok a, s1, l1) →
  bind m f s = ((f a s1).1.1, (f a s1).1.2, l1 ++ (f a s1).2).
Proof. unfold bind. intros ->. by destruct (f a s1) as [[??]?]. Qed.

Lemma bind_raise {A B : Type} (m : M W A) (f : A → M W B) s e s1 l1 :
  m s = (Raise e, s1, l1) → bind m f s = (Raise e, s1, l1).
Proof. unfold bind. by intros ->. Qed.

Lemma utcnow_eq s :
  utcnow env s = (Ok (clock env (world s)).1, mkSys (db s) (clock env (world s)).2, []).
Proof. unfold utcnow. by destruct (clock env (world s)). Qed.

Lemma randbelow_eq n s :
  randbelow env n s
  = (Ok ((random_draw env (world s)).1 mod n),
     mkSys (db s) (random_draw env (world s)).2, []).
Proof. unfold randbelow. by destruct (random_draw env (world s)). Qed.

(** [randint] stays within its bounds. *)
Lemma randint_range a b s :
  a ≤ b →
  ∃ p s', randint env a b s = (Ok p, s', []) ∧ db s' = db s ∧ a ≤ p ≤ b.
Proof.
  intros Hab. unfold randint.
  destruct (0 <? b + 1 - a) eqn:E; [|apply Z.ltb_ge in E; lia].
  erewrite bind_ok by apply randbelow_eq. simpl.
  eexists _, _. split; [reflexivity|]. split; [done|].
  pose proof (Z.mod_pos_bound (random_draw env (world s)).1 (b + 1 - a)). lia.
Qed.

(** The draws of [random.sample] form a sub-multiset of the population:
    each position is drawn at most once. *)
Lemma sample_draws_spec {A : Type} (k : nat) :
  ∀ (pool : list A) s,
    (k ≤ length pool)%nat →
    ∃ l s', sample_draws env pool k s = (Ok l, s', [])
            ∧ db s' = db s ∧ length l = k ∧ l ⊆+ pool.
Proof.
  induction k as [|k IH]; intros pool s Hk; simpl.
  - exists [], s. split; [done|]. split; [done|]. split; [done|].
    apply submseteq_nil_l.
  - erewrite bind_ok by apply randbelow_eq. simpl.
    set (r := (random_draw env (world s)).1).
    set (s1 := mkSys (db s) (random_draw env (world s)).2).
    assert (Hj : (Z.to_nat (r mod Z.of_nat (length pool)) < length pool)%nat).
    { pose proof (Z.mod_pos_bound r (Z.of_nat (length pool))). lia. }
    destruct (lookup_lt_is_Some_2 pool _ Hj) as [x Hx]. rewrite Hx.
    destruct (IH (delete (Z.to_nat (r mod Z.of_nat (length pool))) pool) s1)
      as (l & s' & Hrun & Hdb & Hlen & Hsub).
    { rewrite length_delete by eauto. lia. }
    erewrite bind_ok by exact Hrun. simpl.
    exists (x :: l), s'. split; [done|]. split; [done|]. split; [simpl; lia|].
    rewrite (delete_Permutation pool _ x Hx). by apply submseteq_skip.
Qed.

Lemma random_sample_spec {A : Type} (population : list A) (k : Z) s :
  0 ≤ k ≤ Z.of_nat (length population) →
  ∃ l s', random_sample env population k s = (Ok l, s', [])
          ∧ db s' = db s ∧ Z.of_nat (length l) = k ∧ l ⊆+ population.
Proof.
  intros Hk. unfold random_sample.
  rewrite andb_true_intro by (split; lia).
  destruct (sample_draws_spec (Z.to_nat k) population s) as (l & s' & ? & ? & ? & ?);
    [lia|].
  exists l, s'. split; [done|]. split; [done|]. split; [lia | done].
Qed.

Lemma random_sample_negative {A : Type} (population : list A) (k : Z) s :
  k < 0 → random_sample env population k s = (Raise ValueError, s, []).
Proof.
  intros Hk. unfold random_sample.
  by destruct (0 <=? k) eqn:E; [apply Z.leb_le in E; lia|].
Qed.

End MonadFacts.

(** ** The search loop *)

Section LoopFacts.

Context {W : Type} (env : Env W).
Variables (hk : HuntKind) (client : ArrClient) (instance : string).

(** A turn of a real run, spelled out: the command is posted; only
    when it is accepted is the clock read and the entry written. *)
Lemma search_one_live x n s :
  search_one env hk client instance false x n s
  = match session_post env client (hk_command hk (id x)) (world s) with
    | (true, w1) =>
        (Ok (n + 1),
         mkSys (mark_searched (db s) (clock env w1).1 (hk_app hk) instance (pretty (id x)))
               (clock env w1).2,
         turn_events hk client instance x (Some (clock env w1).1))
    | (false, w1) =>
        (Ok n, mkSys (db s) w1, turn_events hk client instance x None)
    end.
Proof.
  unfold search_one, try_except, bind, ArrClient_post, StateDB_mark_searched,
    bind, utcnow, ret; simpl.
  destruct (session_post env client (hk_command hk (id x)) (world s)) as [[|] w1];
    simpl; [|done].
  by destruct (clock env w1) as [t w2].
Qed.

Lemma search_one_dry x n s :
  search_one env hk client instance true x n s = (Ok n, s, []).
Proof. reflexivity. Qed.

Lemma search_loop_dry to_search n s :
  search_loop env hk client instance true to_search n s = (Ok n, s, []).
Proof.
  revert n s. induction to_search as [|x rest IH]; intros n s; [done|].
  cbn [search_loop]. unfold bind at 1. rewrite search_one_dry. by rewrite IH.
Qed.

Lemma search_loop_live to_search :
  ∀ n s, ∃ (outcomes : list (option Z)) (s' : Sys W),
    length outcomes = length to_search
    ∧ search_loop env hk client instance false to_search n s
      = (Ok (n + successes outcomes), s',
         batch_events hk client instance to_search outcomes)
    ∧ db s' = batch_db hk instance (db s) to_search outcomes.
Proof.
  induction to_search as [|x rest IH]; intros n s.
  - exists [], s. simpl. unfold ret, successes. simpl. by rewrite Z.add_0_r.
  - cbn [search_loop]. unfold bind at 1. rewrite search_one_live.
    destruct (session_post env client (hk_command hk (id x)) (world s)) as [[|] w1].
    + destruct (IH (n + 1)
        (mkSys (mark_searched (db s) (clock env w1).1 (hk_app hk) instance (pretty (id x)))
               (clock env w1).2)) as (os & s' & Hlen & Hrun & Hdb).
      exists (Some (clock env w1).1 :: os), s'. rewrite Hrun. simpl.
      split; [by rewrite Hlen|]. split; [|done].
      f_equal. f_equal. f_equal. unfold successes. simpl. lia.
    + destruct (IH n (mkSys (db s) w1)) as (os & s' & Hlen & Hrun & Hdb).
      exists (None :: os), s'. rewrite Hrun. simpl.
      split; [by rewrite Hlen|]. by split.
Qed.

(** Counting in a batch's record. *)
Lemma count_triggered_batch xs :
  ∀ os, (length os ≤ length xs)%nat →
    Events.count Events.triggered (batch_events hk client instance xs os) = successes os.
Proof.
  unfold Events.count, successes.
  induction xs as [|x xs IH]; intros [|o os] Hlen; simpl in *; try done; [lia|].
  specialize (IH os ltac:(lia)).
  destruct o as [t|]; simpl; lia.
Qed.

Lemma count_marked_batch xs :
  ∀ os, (length os ≤ length xs)%nat →
    Events.count (Events.marked (hk_app hk)) (batch_events hk client instance xs os)
    = successes os.
Proof.
  unfold Events.count, successes.
  induction xs as [|x xs IH]; intros [|o os] Hlen; simpl in *; try done; [lia|].
  specialize (IH os ltac:(lia)).
  destruct o as [t|]; simpl; [|lia].
  rewrite bool_decide_eq_true_2 by done. simpl. lia.
Qed.

Lemma count_marked_other app xs :
  app ≠ hk_app hk →
  ∀ os, Events.count (Events.marked app) (batch_events hk client instance xs os) = 0.
Proof.
  intros Hne. unfold Events.count.
  induction xs as [|x xs IH]; intros [|o os]; simpl; try done.
  specialize (IH os).
  destruct o as [t|]; simpl; [|lia].
  rewrite bool_decide_eq_false_2 by done. simpl. lia.
Qed.

Lemma batch_events_no_failed_query xs :
  ∀ os, Forall (λ e, Events.failed_query e = false)
               (batch_events hk client instance xs os).
Proof.
  induction xs as [|x xs IH]; intros [|o os]; simpl; try done.
  destruct o as [t|]; simpl; repeat constructor; apply IH.
Qed.

Lemma successes_bounds os : 0 ≤ successes os ≤ Z.of_nat (length os).
Proof.
  unfold successes. split; [lia|].
  apply inj_le. induction os as [|o os IH]; simpl; [lia|].
  destruct (bool_decide (is_Some o)); simpl; lia.
Qed.

End LoopFacts.

(** ** The shape of a hunt *)

Section HuntFacts.

Context {W : Type} (env : Env W).
Variables (hk : HuntKind) (client : ArrClient) (instance : string).

Lemma ArrClient_get_cases rq s :
  (∃ body w, session_get env client rq (world s) = (Some body, w)
             ∧ ArrClient_get env client rq s
               = (Ok body, mkSys (db s) w, [EvGet client rq true]))
  ∨ (∃ w, session_get env client rq (world s) = (None, w)
          ∧ ArrClient_get env client rq s
            = (Raise RequestException, mkSys (db s) w, [EvGet client rq false])).
Proof.
  unfold ArrClient_get.
  destruct (session_get env client rq (world s)) as [[body|] w]; eauto.
Qed.

Lemma StateDB_is_searched_eq app inst mid s :
  StateDB_is_searched env app inst mid s
  = (is_searched (db s) (clock env (world s)).1 app inst mid,
     mkSys (db s) (clock env (world s)).2, []).
Proof.
  unfold StateDB_is_searched, bind. rewrite utcnow_eq. simpl.
  by destruct (is_searched _ _ _ _ _).
Qed.

(** The ledger filter reads, never writes, issues nothing, and keeps a
    sublist when it returns. *)
Lemma filter_unsearched_frame items :
  ∀ s r s' evs,
    filter_unsearched env hk instance items s = (r, s', evs) →
    evs = [] ∧ db s' = db s ∧ ∀ l, r = Ok l → l `sublist_of` items.
Proof.
  induction items as [|x items IH]; intros s r s' evs.
  - intros [= <- <- <-]. split; [done|]. split; [done|]. by intros l [= <-].
  - cbn [filter_unsearched]. unfold bind at 1. rewrite StateDB_is_searched_eq.
    destruct (is_searched _ _ _ _ _) as [b|e].
    + destruct (filter_unsearched env hk instance items
                  (mkSys (db s) (clock env (world s)).2)) as [[r1 s1] l1] eqn:Hrest.
      destruct (IH _ _ _ _ Hrest) as (-> & Hdb & Hsub).
      unfold bind. rewrite Hrest. destruct r1 as [rest|e].
      * unfold ret. intros [= <- <- <-]. split; [done|]. split; [done|].
        intros l [= <-]. specialize (Hsub rest eq_refl).
        destruct b; [by apply sublist_cons | by apply sublist_skip].
      * intros [= <- <- <-]. by repeat split.
    + intros [= <- <- <-]. by repeat split.
Qed.

(** With a clock that stands still at [now], the ledger filter is the
    comprehension by [not_searched] at [now]. *)
Lemma filter_unsearched_frozen now items :
  (∀ w, (clock env w).1 = now) →
  ∀ s, ∃ s', filter_unsearched env hk instance items s
             = (filter_raising (not_searched hk (db s) now instance) items, s', [])
             ∧ db s' = db s.
Proof.
  intros Hclock. induction items as [|x items IH]; intros s.
  - by exists s.
  - cbn [filter_unsearched filter_raising]. unfold bind at 1.
    rewrite StateDB_is_searched_eq, Hclock. unfold not_searched at 1.
    destruct (is_searched (db s) now (hk_app hk) instance (pretty (id x))) as [b|e];
      [|by eexists].
    destruct (IH (mkSys (db s) (clock env (world s)).2)) as (s' & Hrun & Hdb).
    unfold bind. rewrite Hrun. cbn [db].
    destruct (filter_raising (not_searched hk (db s) now instance) items) as [rest|e].
    + exists s'. unfold ret. split; [|done]. by destruct b.
    + by exists s'.
Qed.

Lemma filter_raising_sublist {A : Type} (p : A → result bool) (l : list A) :
  ∀ r, filter_raising p l = Ok r → r `sublist_of` l.
Proof.
  induction l as [|x l IH]; intros r; simpl.
  - by intros [= <-].
  - destruct (p x) as [b|e]; [|done].
    destruct (filter_raising p l) as [r'|e]; [|done].
    intros [= <-]. specialize (IH r' eq_refl).
    destruct b; [by apply sublist_skip | by apply sublist_cons].
Qed.

(** The future filter issues nothing and leaves the ledger alone. *)
Lemma filter_future_frame skip items s r s' evs :
  filter_future env hk skip items s = (r, s', evs) →
  evs = [] ∧ db s' = db s ∧ ∀ l, r = Ok l → l `sublist_of` items.
Proof.
  unfold filter_future. destruct (hk_not_future hk) as [nf|].
  - unfold bind. rewrite utcnow_eq. destruct skip.
    + unfold lift. intros [= <- <- <-]. split; [done|]. split; [done|].
      intros l Hl. by eapply filter_raising_sublist.
    + unfold ret. intros [= <- <- <-]. split; [done|]. split; [done|].
      by intros l [= <-].
  - unfold ret. intros [= <- <- <-]. split; [done|]. split; [done|].
    by intros l [= <-].
Qed.

Lemma total_pages_ge_1 total : 1 ≤ Paging.total_pages total.
Proof. unfold Paging.total_pages. lia. Qed.

(** How the candidates phase can end: the page query fails, or it
    succeeds and the filters return or raise; one page is asked for,
    within [1 .. total_pages], and the ledger is only read. *)
Lemma hunt_candidates_cases total mo sf s r s' evs :
  hunt_candidates env hk client instance total mo sf s = (r, s', evs) →
  db s' = db s
  ∧ ∃ page, 1 ≤ page ≤ Paging.total_pages total
    ∧ let q := page_request hk page (Paging.page_size total) mo in
      (r = Raise RequestException ∧ evs = [EvGet client q false])
      ∨ evs = [EvGet client q true].
Proof.
  unfold hunt_candidates. intros Hrun.
  destruct (randint_range env 1 (Paging.total_pages total) s (total_pages_ge_1 total))
    as (page & s0 & Hpage & Hdb0 & Hrange).
  rewrite (bind_ok _ _ _ _ _ _ Hpage) in Hrun. simpl in Hrun.
  set (q := page_request hk page (Paging.page_size total) mo) in *.
  destruct (ArrClient_get_cases q s0) as [(body & w & _ & Hget) | (w & _ & Hget)].
  - rewrite (bind_ok _ _ _ _ _ _ Hget) in Hrun. simpl in Hrun.
    match type of Hrun with
    | context [bind (filter_future ?e ?h ?sk ?its) ?k ?st] =>
        destruct (filter_future e h sk its st) as [[rf sf'] lf] eqn:Hf;
        destruct (filter_future_frame _ _ _ _ _ _ Hf) as (-> & Hdbf & _);
        destruct rf as [items|e0];
        [ rewrite (bind_ok _ _ _ _ _ _ Hf) in Hrun
        | rewrite (bind_raise _ _ _ _ _ _ Hf) in Hrun ]
    end.
    + destruct (filter_unsearched env hk instance items sf') as [[ru s2] lu] eqn:Hu.
      destruct (filter_unsearched_frame _ _ _ _ _ Hu) as (-> & Hdbu & _).
      simpl in Hrun. injection Hrun as <- <- <-.
      split; [by rewrite Hdbu, Hdbf, <- Hdb0|].
      exists page. split; [done|]. by right.
    + injection Hrun as <- <- <-.
      split; [by rewrite Hdbf, <- Hdb0|].
      exists page. split; [done|]. by right.
  - rewrite (bind_raise _ _ _ _ _ _ Hget) in Hrun. injection Hrun as <- <- <-.
    split; [done|]. exists page. split; [done|]. by left.
Qed.

(** How a batch can end. *)
Lemma hunt_batch_cases limit dry cands s r s' evs :
  hunt_batch env hk client instance limit dry cands s = (r, s', evs) →
  (cands = [] ∧ r = Ok 0 ∧ s' = s ∧ evs = [])
  ∨ (limit < 0 ∧ cands ≠ [] ∧ r = Raise ValueError ∧ s' = s ∧ evs = [])
  ∨ (∃ to_search s1,
        0 ≤ limit ∧ cands ≠ []
        ∧ to_search ⊆+ cands
        ∧ Z.of_nat (length to_search) = Z.min limit (Z.of_nat (length cands))
        ∧ db s1 = db s
        ∧ search_loop env hk client instance dry to_search 0 s1 = (r, s', evs)).
Proof.
  unfold hunt_batch. destruct cands as [|c0 cands'] eqn:Ec.
  - intros [= <- <- <-]. by left.
  - rewrite <- Ec. assert (Hne : cands ≠ []) by (by subst).
    clear Ec. intros Hrun. right.
    destruct (Z_lt_le_dec limit 0) as [Hneg|Hpos].
    + left.
      assert (Hk : Z.min limit (Z.of_nat (length cands)) < 0) by lia.
      rewrite (bind_raise _ _ _ _ _ _
        (random_sample_negative env cands _ s Hk)) in Hrun.
      by injection Hrun as <- <- <-.
    + right.
      destruct (random_sample_spec env cands (Z.min limit (Z.of_nat (length cands))) s)
        as (l & s1 & Hs & Hdb & Hlen & Hsub); [lia|].
      rewrite (bind_ok _ _ _ _ _ _ Hs) in Hrun. simpl in Hrun.
      exists l, s1. repeat (split; [done|]).
      by destruct (search_loop env hk client instance dry l 0 s1) as [[??]?].
Qed.

(** How a hunt can end: at the count query, on an empty catalogue, at
    the page query, in a filter, or with the outcome of its batch. *)
Lemma hunt_cases limit mo sf dry s r s' evs :
  hunt env hk client instance limit mo sf dry s = (r, s', evs) →
  let q0 := count_request hk mo in
  (r = Raise RequestException ∧ evs = [EvGet client q0 false] ∧ db s' = db s)
  ∨ (r = Ok 0 ∧ evs = [EvGet client q0 true] ∧ db s' = db s)
  ∨ (∃ page total,
        r = Raise RequestException
        ∧ evs = [EvGet client q0 true;
                 EvGet client (page_request hk page (Paging.page_size total) mo) false]
        ∧ db s' = db s)
  ∨ (∃ q1 e, r = Raise e
             ∧ evs = [EvGet client q0 true; EvGet client q1 true] ∧ db s' = db s)
  ∨ (∃ q1 total s0 s1 cands evs2,
        total ≠ 0
        ∧ db s0 = db s
        ∧ hunt_candidates env hk client instance total mo sf s0
          = (Ok cands, s1, [EvGet client q1 true])
        ∧ db s1 = db s
        ∧ hunt_batch env hk client instance limit dry cands s1 = (r, s', evs2)
        ∧ evs = [EvGet client q0 true; EvGet client q1 true] ++ evs2).
Proof.
  intros Hrun q0. unfold hunt in Hrun. fold q0 in Hrun.
  destruct (ArrClient_get_cases q0 s) as [(body & w & _ & Hget) | (w & _ & Hget)].
  - rewrite (bind_ok _ _ _ _ _ _ Hget) in Hrun. simpl in Hrun.
    destruct (default 0 (totalRecords body) =? 0) eqn:Etotal.
    + injection Hrun as <- <- <-. right; left. by repeat split.
    + set (total := default 0 (totalRecords body)) in *.
      set (s0 := mkSys (db s) w) in *.
      destruct (hunt_candidates env hk client instance total mo sf s0)
        as [[rc s1] lc] eqn:Hc.
      destruct (hunt_candidates_cases _ _ _ _ _ _ _ Hc)
        as (Hdb1 & page & _ & [(-> & ->) | ->]).
      * rewrite (bind_raise _ _ _ _ _ _ Hc) in Hrun. simpl in Hrun.
        injection Hrun as <- <- <-. right; right; left. eauto.
      * destruct rc as [cands|e].
        -- rewrite (bind_ok _ _ _ _ _ _ Hc) in Hrun. simpl in Hrun.
           destruct (hunt_batch env hk client instance limit dry cands s1)
             as [[rb sb] lb] eqn:Hb.
           simpl in Hrun. injection Hrun as <- <- <-.
           right; right; right; right.
           exists (page_request hk page (Paging.page_size total) mo), total, s0, s1, cands, lb.
           apply Z.eqb_neq in Etotal. by repeat split.
        -- rewrite (bind_raise _ _ _ _ _ _ Hc) in Hrun. simpl in Hrun.
           injection Hrun as <- <- <-. right; right; right; left. eauto.
  - rewrite (bind_raise _ _ _ _ _ _ Hget) in Hrun. injection Hrun as <- <- <-.
    left. by repeat split.
Qed.

(** A batch ends with [ValueError] (negative limit) or with the record
    of its turns; a dry run has no turn that leaves anything. *)
Lemma hunt_batch_summary limit dry cands s r s' evs :
  hunt_batch env hk client instance limit dry cands s = (r, s', evs) →
  (limit < 0 ∧ cands ≠ [] ∧ r = Raise ValueError ∧ evs = [] ∧ s' = s)
  ∨ (∃ to_search outcomes,
        to_search ⊆+ cands
        ∧ (0 ≤ limit →
           Z.of_nat (length to_search) = Z.min limit (Z.of_nat (length cands)))
        ∧ (length outcomes ≤ length to_search)%nat
        ∧ (dry = true → outcomes = [])
        ∧ (dry = false → length outcomes = length to_search)
        ∧ r = Ok (successes outcomes)
        ∧ evs = batch_events hk client instance to_search outcomes
        ∧ db s' = batch_db hk instance (db s) to_search outcomes).
Proof.
  intros Hrun.
  destruct (hunt_batch_cases _ _ _ _ _ _ _ Hrun)
    as [(-> & -> & -> & ->) | [(? & ? & -> & -> & ->) | (l & s1 & Hl & Hne & Hsub & Hlen & Hdb & Hloop)]].
  - right. exists [], []. split; [done|]. split; [simpl; lia|].
    by repeat split.
  - left. by repeat split.
  - right. destruct dry.
    + rewrite search_loop_dry in Hloop. injection Hloop as <- <- <-.
      exists l, []. split; [done|]. split; [done|]. split; [simpl; lia|].
      split; [done|]. split; [done|]. split; [done|].
      split; [by destruct l|]. rewrite Hdb. by destruct l.
    + destruct (search_loop_live env hk client instance l 0 s1)
        as (os & s2 & Hos & Hrun' & Hdb').
      rewrite Hrun' in Hloop. injection Hloop as <- <- <-.
      exists l, os. split; [done|]. split; [done|]. split; [lia|].
      split; [done|]. split; [done|]. split; [done|].
      split; [done|]. by rewrite Hdb', Hdb.
Qed.

Lemma count_app p l1 l2 :
  Events.count p (l1 ++ l2) = Events.count p l1 + Events.count p l2.
Proof. unfold Events.count. rewrite List.filter_app, length_app. lia. Qed.

Lemma successes_nil : successes [] = 0.
Proof. reflexivity. Qed.

Lemma failed_query_ok c rq : Events.failed_query (EvGet c rq true) = false.
Proof. by destruct rq. Qed.

Local Ltac all_events :=
  repeat (apply Forall_cons_2; [first [done | apply failed_query_ok] |]);
  try apply Forall_nil_2.

(** What every hunt guarantees, however it ends. *)
Lemma hunt_summary limit mo sf dry s r s' evs :
  hunt env hk client instance limit mo sf dry s = (r, s', evs) →
  Events.ended_by_query evs r
  ∧ (∀ app, app ≠ hk_app hk → Events.count (Events.marked app) evs = 0)
  ∧ (∀ n, r = Ok n →
       0 ≤ n ∧ n = Events.count (Events.marked (hk_app hk)) evs
       ∧ n = Events.count Events.triggered evs)
  ∧ (dry = true →
       Forall (λ e, Events.is_get e = true) evs ∧ db s' = db s
       ∧ ∀ n, r = Ok n → n = 0).
Proof.
  intros Hrun. apply hunt_cases in Hrun. cbv zeta in Hrun.
  destruct Hrun as [(-> & -> & Hdb) | [(-> & -> & Hdb) | [(page & total & -> & -> & Hdb)
    | [(q1 & e & -> & -> & Hdb) | (q1 & total & s0 & s1 & cands & evs2 & _ & _ & _ & Hdb1 & Hb & ->)]]]].
  - split; [right; split; [done|]; by exists [], (EvGet client (count_request hk mo) false)|].
    split; [done|]. split; [done|].
    intros _. split; [all_events|]. by split.
  - split; [left; all_events|].
    split; [done|]. split; [by intros n [= <-]|].
    intros _. split; [all_events|]. split; [done|]. by intros n [= <-].
  - split.
    { right. split; [done|].
      exists [EvGet client (count_request hk mo) true], 
        (EvGet client (page_request hk page (Paging.page_size total) mo) false).
      split; [done|]. split; [done|]. all_events. }
    split; [done|]. split; [done|].
    intros _. split; [all_events|]. by split.
  - split; [left; all_events|].
    split; [done|]. split; [done|].
    intros _. split; [all_events|]. by split.
  - apply hunt_batch_summary in Hb.
    destruct Hb as [(_ & _ & -> & -> & ->)
      | (l & os & _ & _ & Hlen & Hdry & _ & -> & -> & Hdb)].
    + split; [left; all_events|].
      split; [done|]. split; [done|].
      intros _. split; [all_events|]. by split.
    + split.
      { left. all_events. apply batch_events_no_failed_query. }
      split.
      { intros app Hne. rewrite count_app.
        rewrite (count_marked_other _ _ _ app l Hne os). done. }
      split.
      { intros n [= <-]. rewrite !count_app.
        rewrite count_marked_batch, count_triggered_batch by done.
        pose proof (successes_bounds os). by repeat split; [lia|..]. }
      intros ->. rewrite (Hdry eq_refl) in *.
      replace (batch_events hk client instance l []) with (@nil Event) by (by destruct l).
      split; [all_events|].
      split; [rewrite Hdb, <- Hdb1; by destruct l|].
      by intros n [= <-].
Qed.

End HuntFacts.

(** ** The cycle *)

Section RunFacts.

Context {W : Type} (env : Env W).

Lemma tally_app l1 l2 :
  Events.tally (l1 ++ l2) = Events.plus (Events.tally l1) (Events.tally l2).
Proof. unfold Events.tally, Events.plus. simpl. by rewrite !count_app. Qed.

Lemma plus_assoc a b c :
  Events.plus (Events.plus a b) c = Events.plus a (Events.plus b c).
Proof. unfold Events.plus. simpl. f_equal; lia. Qed.

Lemma plus_no_totals t : Events.plus t no_totals = t.
Proof. destruct t. unfold Events.plus. simpl. f_equal; lia. Qed.

Lemma count_gets p evs :
  (∀ e, Events.is_get e = true → p e = false) →
  Forall (λ e, Events.is_get e = true) evs → Events.count p evs = 0.
Proof.
  intros Hp. unfold Events.count. induction 1 as [|e evs He _ IH]; [done|].
  simpl. by rewrite (Hp e He).
Qed.

Lemma tally_gets evs :
  Forall (λ e, Events.is_get e = true) evs → Events.tally evs = no_totals.
Proof.
  intros H. unfold Events.tally, no_totals.
  f_equal; apply count_gets; try done; by intros [].
Qed.

Lemma ended_by_query_ok {A : Type} evs (a : A) :
  Events.ended_by_query evs (Ok a) → Forall (λ e, Events.failed_query e = false) evs.
Proof. by intros [H | [[=] _]]. Qed.

Lemma ended_by_query_raise {A B : Type} evs e :
  Events.ended_by_query evs (@Raise A e) → Events.ended_by_query evs (@Raise B e).
Proof.
  intros [H | [[= ->] H]]; [by left | by right].
Qed.

Lemma ended_by_query_app {A : Type} l1 l2 (r : result A) :
  Forall (λ e, Events.failed_query e = false) l1 →
  Events.ended_by_query l2 r → Events.ended_by_query (l1 ++ l2) r.
Proof.
  intros H1 [H2 | (-> & pre & e & -> & He & Hpre)].
  - left. by apply Forall_app.
  - right. split; [done|]. exists (l1 ++ pre), e.
    split; [by rewrite <- app_assoc|]. split; [done|]. by apply Forall_app.
Qed.

Lemma carries_totals_ret dry t0 : carries_totals dry t0 (@ret W _ t0).
Proof.
  intros s r s' evs [= <- <- <-]. split; [by left|].
  split; [|done]. intros t [= <-]. by rewrite plus_no_totals.
Qed.

Lemma carries_totals_bind dry t0 (m : M W Totals) (f : Totals → M W Totals) :
  carries_totals dry t0 m →
  (∀ t1, carries_totals dry t1 (f t1)) →
  carries_totals dry t0 (bind m f).
Proof.
  intros Hm Hf s r s' evs Hrun.
  apply bind_inv in Hrun
    as [(t1 & s1 & l1 & l2 & Hm1 & Hf1 & ->) | (e & Hm1 & ->)].
  - destruct (Hm _ _ _ _ Hm1) as (Hq1 & Ht1 & Hd1).
    destruct (Hf _ _ _ _ _ Hf1) as (Hq2 & Ht2 & Hd2).
    split; [apply ended_by_query_app; [by eapply ended_by_query_ok | done]|].
    split.
    + intros t ->. rewrite (Ht2 t eq_refl), (Ht1 t1 eq_refl).
      by rewrite tally_app, plus_assoc.
    + intros Hdry. destruct (Hd1 Hdry) as [? ?], (Hd2 Hdry) as [? ?].
      split; [by apply Forall_app | congruence].
  - destruct (Hm _ _ _ _ Hm1) as (Hq1 & _ & Hd1).
    split; [by eapply ended_by_query_raise|]. by split.
Qed.

Lemma check_connection_spec c s :
  ∃ b w, check_connection env c s = (Ok b, mkSys (db s) w, [EvGet c SystemStatus b]).
Proof.
  unfold check_connection, try_except, bind, ArrClient_get, ret.
  destruct (session_get env c SystemStatus (world s)) as [[body|] w]; simpl; eauto.
Qed.

(** A hunt followed by [totals[key] += n], for each of the four keys. *)
Lemma carries_totals_hunt dry t0 hk c name limit mo sf (add : Z → Totals → Totals) :
  (∀ n evs,
      (∀ app, app ≠ hk_app hk → Events.count (Events.marked app) evs = 0) →
      n = Events.count (Events.marked (hk_app hk)) evs →
      add n t0 = Events.plus t0 (Events.tally evs)) →
  carries_totals dry t0
    (bind (hunt env hk c name limit mo sf dry) (λ n, ret (add n t0))).
Proof.
  intros Hadd s r s' evs Hrun.
  apply bind_inv in Hrun
    as [(n & s1 & l1 & l2 & Hh & [= <- <- <-] & ->) | (e & Hh & ->)];
    destruct (hunt_summary _ _ _ _ _ _ _ _ _ _ _ _ Hh) as (Hq & Hother & Hn & Hd).
  - rewrite app_nil_r.
    split; [left; by eapply ended_by_query_ok|].
    split; [|intros Hdry; by destruct (Hd Hdry) as (? & ? & _)].
    intros t [= <-]. apply Hadd; [done|]. by destruct (Hn n eq_refl) as (_ & ? & _).
  - split; [by eapply ended_by_query_raise|].
    split; [done|]. intros Hdry; by destruct (Hd Hdry) as (? & ? & _).
Qed.

Local Ltac tally_key t :=
  intros n evs Hother Hn; destruct t; unfold Events.plus, Events.tally; simpl in *;
  f_equal; try (rewrite Hother by done); lia.

Lemma run_instance_carries sonarr dry inst_cfg t0 :
  carries_totals dry t0 (run_instance env sonarr dry inst_cfg t0).
Proof.
  unfold run_instance.
  destruct (negb (Str.truthy (Some (default "" (cfg_url inst_cfg))))
            || negb (Str.truthy (Some (default "" (cfg_api_key inst_cfg)))));
    [apply carries_totals_ret|].
  intros s r s' evs Hrun.
  match type of Hrun with
  | context [check_connection env ?c] =>
      destruct (check_connection_spec c s) as (b & w & Hc)
  end.
  rewrite (bind_ok _ _ _ _ _ _ Hc) in Hrun. simpl in Hrun.
  match type of Hrun with
  | ((?m ?st).1.1, _, _) = _ =>
      destruct (m st) as [[r1 s1] l1] eqn:Hm; simpl in Hrun;
      injection Hrun as <- <- <-;
      assert (Hok : carries_totals dry t0 m); [clear Hm | ]
  end.
  - destruct b; simpl; [|apply carries_totals_ret].
    apply carries_totals_bind.
    + destruct (0 <? default 5 (cfg_hunt_missing inst_cfg)); [|apply carries_totals_ret].
      destruct sonarr; apply carries_totals_hunt; tally_key t0.
    + intros t1.
      destruct (0 <? default 0 (cfg_hunt_upgrades inst_cfg)); [|apply carries_totals_ret].
      destruct sonarr; apply carries_totals_hunt; tally_key t1.
  - destruct (Hok _ _ _ _ Hm) as (Hq & Ht & Hd).
    split; [apply (ended_by_query_app [_]); [by repeat constructor | done]|].
    split.
    + intros t ->. by rewrite (Ht t eq_refl).
    + intros Hdry. destruct (Hd Hdry) as [? ?]. split; [by constructor | done].
Qed.

Lemma run_instances_carries sonarr dry insts :
  ∀ t0, carries_totals dry t0 (run_instances env sonarr dry insts t0).
Proof.
  induction insts as [|inst_cfg rest IH]; intros t0; cbn [run_instances].
  - apply carries_totals_ret.
  - apply carries_totals_bind; [apply run_instance_carries | apply IH].
Qed.

Lemma StateDB_purge_expired_eq s :
  StateDB_purge_expired env s
  = match purge_expired (db s) (clock env (world s)).1 with
    | Ok (n, st) => (Ok n, mkSys st (clock env (world s)).2, [EvPurge n])
    | Raise e => (Raise e, mkSys (db s) (clock env (world s)).2, [])
    end.
Proof.
  unfold StateDB_purge_expired, bind. rewrite utcnow_eq. cbn [db world].
  by destruct (purge_expired _ _) as [[n st]|e].
Qed.

(** One cycle: the purge, which may raise, then the instances. *)
Lemma run_shape cfg dry s r s' evs :
  run env cfg dry s = (r, s', evs) →
  let st0 := mkStateDB (default 168 (cfg_ttl_hours cfg)) (rows (db s)) in
  let now := (clock env (world s)).1 in
  match purge_expired st0 now with
  | Raise e => r = Raise e ∧ evs = [] ∧ db s' = st0
  | Ok (n, st1) =>
      ∃ evs',
        evs = EvPurge n :: evs'
        ∧ Events.ended_by_query evs' r
        ∧ (∀ t, r = Ok t → t = Events.tally evs')
        ∧ (dry = true → Forall (λ e, Events.is_get e = true) evs' ∧ db s' = st1)
  end.
Proof.
  intros Hrun st0 now. unfold run in Hrun.
  unfold bind at 1 in Hrun. unfold StateDB_open at 1 in Hrun.
  unfold bind at 1 in Hrun. rewrite StateDB_purge_expired_eq in Hrun.
  cbn [db world] in Hrun. fold st0 now in Hrun.
  destruct (purge_expired st0 now) as [[n st1]|e].
  2: { injection Hrun as <- <- <-. by repeat split. }
  match type of Hrun with
  | context [bind ?m ?f ?st] =>
      assert (Hok : carries_totals dry no_totals (bind m f));
      [| destruct (bind m f st) as [[r1 s1] l1] eqn:Hm ]
  end.
  - apply carries_totals_bind; [apply run_instances_carries|].
    intros t1. apply carries_totals_bind; [apply run_instances_carries|].
    intros t2. apply carries_totals_ret.
  - simpl in Hrun. injection Hrun as <- <- <-.
    destruct (Hok _ _ _ _ Hm) as (Hq & Ht & Hd).
    exists l1. split; [done|]. split; [done|]. split.
    + intros t ->. rewrite (Ht t eq_refl).
      unfold Events.plus, Events.tally, no_totals. simpl. f_equal; lia.
    + intros Hdry. destruct (Hd Hdry) as [? ->]. by split.
Qed.

End RunFacts.

(** ** Properties of the cycle *)

Lemma ended_by_query_last {A : Type} (evs pre post : list Event) (e : Event) (r : result A) :
  Events.ended_by_query evs r →
  evs = pre ++ e :: post →
  Events.failed_query e = true →
  r = Raise RequestException ∧ post = [].
Proof.
  intros [Hall | (-> & pre' & e' & -> & He' & Hpre')] Hevs He.
  - subst evs. apply Forall_app in Hall as [_ Hall].
    apply Forall_cons in Hall as [Hall _]. congruence.
  - split; [done|].
    destruct post as [|x post _] using rev_ind; [done|].
    change (pre ++ e :: post ++ [x]) with (pre ++ (e :: post) ++ [x]) in Hevs.
    rewrite app_assoc in Hevs. apply app_inj_tail in Hevs as [-> _].
    apply Forall_app in Hpre' as [_ Hpre'].
    apply Forall_cons in Hpre' as [Hpre' _]. congruence.
Qed.

(** C2 (as amended). A failure of a candidate-source query, the count
    query or the page fetch, is caught neither by the hunt function nor
    by [run]: the hunt ends with that exception, and so does the cycle,
    the failed query being the last thing it did; no totals are
    returned and nothing more is processed. *)
Theorem failed_query_ends_cycle :
  ∀ (W : Type) (env : Env W),
    (∀ hk client instance limit monitored_only skip_future dry_run
       (s s' : Sys W) r evs pre post e,
        hunt env hk client instance limit monitored_only skip_future dry_run s
        = (r, s', evs) →
        evs = pre ++ e :: post →
        Events.failed_query e = true →
        r = Raise RequestException ∧ post = [])
    ∧ (∀ cfg dry_run (s s' : Sys W) r evs pre post e,
        run env cfg dry_run s = (r, s', evs) →
        evs = pre ++ e :: post →
        Events.failed_query e = true →
        r = Raise RequestException ∧ post = []).
Proof.
  intros W env. split.
  - intros hk client instance limit mo sf dry s s' r evs pre post e Hrun Hevs He.
    destruct (hunt_summary _ _ _ _ _ _ _ _ _ _ _ _ Hrun) as (Hq & _).
    by eapply ended_by_query_last.
  - intros cfg dry s s' r evs pre post e Hrun Hevs He.
    pose proof (run_shape _ _ _ _ _ _ _ Hrun) as Hshape. cbv zeta in Hshape.
    destruct (purge_expired _ _) as [[n st1]|e0].
    + destruct Hshape as (evs' & -> & Hq & _).
      eapply ended_by_query_last; [|exact Hevs|exact He].
      by apply (ended_by_query_app [_]); [repeat constructor|].
    + destruct Hshape as (_ & -> & _). by destruct pre.
Qed.

(** With two Sonarr instances of which the first one's [wanted/missing]
    query fails, the cycle raises: [tv2] is never contacted. *)
Lemma failed_query_ends_cycle_witness :
  let env := Demo.env Demo.get_first_fails (λ _ _, true) Demo.iso in
  let out := run env Demo.two_sonarr false (Demo.start ∅ []) in
  out.2 = [EvPurge 0; EvGet (Demo.client "tv1") SystemStatus true]
          ++ EvGet (Demo.client "tv1") (Wanted "wanted/missing" 1 1 true true) false :: []
  ∧ out.1.1 = Raise RequestException ∧ @nil Event = [].
Proof.
  intros env out. split; [vm_compute; reflexivity|].
  refine (proj2 (failed_query_ends_cycle Demo.World env)
            Demo.two_sonarr false (Demo.start ∅ []) out.1.2 out.1.1 out.2
            [EvPurge 0; EvGet (Demo.client "tv1") SystemStatus true] []
            (EvGet (Demo.client "tv1") (Wanted "wanted/missing" 1 1 true true) false)
            _ _ _).
  - subst out. by destruct (run env _ _ _) as [[??]?].
  - vm_compute; reflexivity.
  - reflexivity.
Defined.

(** C2, as stated, fails: the orchestrator does not catch the failure;
    the cycle ends without totals and the second instance, [tv2], is
    not processed. *)
Lemma source_failure_not_isolated :
  let env := Demo.env Demo.get_first_fails (λ _ _, true) Demo.iso in
  let out := run env Demo.two_sonarr false (Demo.start ∅ []) in
  out.1.1 = Raise RequestException
  ∧ (∀ totals, out.1.1 ≠ Ok totals)
  ∧ out.2 = [EvPurge 0;
             EvGet (Demo.client "tv1") SystemStatus true;
             EvGet (Demo.client "tv1") (Wanted "wanted/missing" 1 1 true true) false]
  ∧ Forall (λ e, match e with
                 | EvGet c _ _ | EvPost c _ _ => client_name c ≠ "tv2"
                 | _ => True
                 end) out.2.
Proof.
  intros env out.
  assert (Hout : out.1.1 = Raise RequestException
                 ∧ out.2 = [EvPurge 0;
                            EvGet (Demo.client "tv1") SystemStatus true;
                            EvGet (Demo.client "tv1")
                              (Wanted "wanted/missing" 1 1 true true) false])
    by (split; vm_compute; reflexivity).
  destruct Hout as [Hr Hevs]. rewrite Hr, Hevs.
  split; [done|]. split; [done|]. split; [done|].
  repeat constructor; simpl; discriminate.
Qed.

(** C3 (as amended). A dry-run cycle issues no search command and writes
    no ledger entry, and the totals it returns are all 0.  When [now] and
    [now - ttl] are instants a [datetime] can hold, it runs, apart from
    its GET requests, only the initial purge, which deletes the expired
    rows, so that the ledger it leaves is the purged one and answers
    [is_searched] as before; when [now - ttl] is not, the purge raises
    [OverflowError] and the cycle ends there, with no request made and
    every row still in place. *)
Theorem dry_run_only_purges :
  ∀ (W : Type) (env : Env W) (cfg : Config) (s s' : Sys W)
    (r : result Totals) (evs : list Event),
    run env cfg true s = (r, s', evs) →
    let st0 := mkStateDB (default 168 (cfg_ttl_hours cfg)) (rows (db s)) in
    let now := (clock env (world s)).1 in
    let c := now - ttl_hours st0 * us_per_hour in
    Events.count Events.is_trigger evs = 0
    ∧ Events.count Events.is_mark evs = 0
    ∧ (∀ t, r = Ok t → t = no_totals)
    ∧ (representable now = true → representable c = true →
       ∃ n st1 evs',
         purge_expired st0 now = Ok (n, st1)
         ∧ evs = EvPurge n :: evs'
         ∧ Forall (λ e, Events.is_get e = true) evs'
         ∧ db s' = st1
         ∧ (∀ k : Key,
              rows st1 !! k
              = match rows (db s) !! k with
                | Some t => if bool_decide (t ≤ c) then None else Some t
                | None => None
                end)
         ∧ (∀ app inst mid,
              is_searched (db s') now app inst mid = is_searched st0 now app inst mid))
    ∧ (representable c = false →
       r = Raise OverflowError ∧ evs = [] ∧ rows (db s') = rows (db s)).
Proof.
  intros W env cfg s s' r evs Hrun st0 now c.
  pose proof (run_shape _ _ _ _ _ _ _ Hrun) as Hshape. cbv zeta in Hshape.
  fold st0 now in Hshape.
  destruct (purge_expired st0 now) as [[n st1]|e] eqn:Hp.
  - destruct Hshape as (evs' & -> & _ & Ht & Hd).
    destruct (Hd eq_refl) as [Hgets Hdb].
    split; [apply (count_gets Events.is_trigger evs'); [by intros []|done]|].
    split; [apply (count_gets Events.is_mark evs'); [by intros []|done]|].
    split; [intros t Hr; rewrite (Ht t Hr); by apply tally_gets|].
    split.
    + intros Hnow Hcut. exists n, st1, evs'.
      split; [done|]. split; [done|]. split; [done|]. split; [done|].
      split.
      * intros k. rewrite (purge_expired_Ok st0 now c) in Hp
          by (by apply cutoff_representable).
        assert (Hd1 : delete_until st0 c = (n, st1)) by congruence.
        pose proof (rows_delete_lookup st0 c k) as Hk. rewrite Hd1 in Hk. exact Hk.
      * intros app inst mid. rewrite Hdb. by eapply is_searched_purge.
    + intros Hcut. unfold purge_expired in Hp.
      by rewrite (cutoff_unrepresentable st0 now Hcut) in Hp.
  - destruct Hshape as (-> & -> & Hdb).
    apply purge_expired_Raise in Hp as [-> Hc].
    split; [done|]. split; [done|]. split; [done|]. split.
    + intros Hnow Hcut. by rewrite (cutoff_representable st0 now Hnow Hcut) in Hc.
    + intros _. split; [done|]. split; [done|]. by rewrite Hdb.
Qed.

(** A dry run over one Sonarr instance with three missing episodes and a
    ledger holding one expired row. *)
Lemma dry_run_only_purges_witness :
  let env := Demo.env Demo.get_three Demo.post_rejects_2 Demo.iso in
  let s := Demo.start {[ Demo.key "sonarr" "tv" "7" := 5 ]} [] in
  let out := run env Demo.one_sonarr true s in
  Events.count Events.is_trigger out.2 = 0
  ∧ Events.count Events.is_mark out.2 = 0
  ∧ (∀ t, out.1.1 = Ok t → t = no_totals)
  ∧ ∃ n evs', out.2 = EvPurge n :: evs' ∧ Forall (λ e, Events.is_get e = true) evs'.
Proof.
  intros env s out.
  assert (Hrun : run env Demo.one_sonarr true s = (out.1.1, out.1.2, out.2))
    by (subst out; by destruct (run env _ _ _) as [[??]?]).
  destruct (dry_run_only_purges Demo.World env Demo.one_sonarr s out.1.2 out.1.1 out.2 Hrun)
    as (Htrig & Hmark & Htot & Hin & _).
  split; [exact Htrig|]. split; [exact Hmark|]. split; [exact Htot|].
  assert (Hnow : representable (clock env (world s)).1 = true)
    by (vm_compute; reflexivity).
  assert (Hcut : representable
            ((clock env (world s)).1
             - ttl_hours (mkStateDB (default 168 (cfg_ttl_hours Demo.one_sonarr))
                            (rows (db s))) * us_per_hour) = true)
    by (vm_compute; reflexivity).
  destruct (Hin Hnow Hcut) as (n & st1 & evs' & _ & Hevs & Hgets & _).
  exists n, evs'. split; [exact Hevs | exact Hgets].
Defined.

(** C3, as stated, fails: a dry run does mutate the ledger, for it purges.
    The expired row of the ledger is deleted by a dry-run cycle. *)
Lemma dry_run_deletes_expired_rows :
  let env := Demo.env Demo.get_three Demo.post_rejects_2 Demo.iso in
  let s := Demo.start {[ Demo.key "sonarr" "tv" "7" := 5 ]} [] in
  let out := run env Demo.one_sonarr true s in
  rows (db s) !! Demo.key "sonarr" "tv" "7" = Some 5
  ∧ rows (db out.1.2) !! Demo.key "sonarr" "tv" "7" = None
  ∧ out.1.1 = Ok no_totals
  ∧ out.2 = [EvPurge 1;
             EvGet (Demo.client "tv") SystemStatus true;
             EvGet (Demo.client "tv") (Wanted "wanted/missing" 1 1 true true) true;
             EvGet (Demo.client "tv") (Wanted "wanted/missing" 1 3 true true) true].
Proof.
  intros env s out. repeat split; vm_compute; reflexivity.
Qed.

(** Under [ttl_hours = 20000000] the purge of a dry-run cycle raises
    [OverflowError]: the cycle ends before any request, every row still
    in place. *)
Lemma dry_run_overflows :
  let env := Demo.env Demo.get_three Demo.post_rejects_2 Demo.iso in
  let cfg := mkConfig (Some 20000000) (Some [Demo.instance "tv" 5]) None in
  let s := Demo.start {[ Demo.key "sonarr" "tv" "7" := 5 ]} [] in
  let out := run env cfg true s in
  out.1.1 = Raise OverflowError
  ∧ out.2 = []
  ∧ rows (db out.1.2) !! Demo.key "sonarr" "tv" "7" = Some 5.
Proof. intros env cfg s out. repeat split; vm_compute; reflexivity. Qed.

(** ** Page selection *)

Lemma page_size_pos total : 0 < total → 0 < Paging.page_size total.
Proof. unfold Paging.page_size. lia. Qed.

(** [total_pages] is the ceiling of [total / page_size]. *)
Lemma total_pages_ceiling total :
  0 < total →
  (Paging.total_pages total - 1) * Paging.page_size total < total
  ∧ total ≤ Paging.total_pages total * Paging.page_size total.
Proof.
  intros Htotal. pose proof (page_size_pos total Htotal) as Hps.
  unfold Paging.total_pages.
  set (ps := Paging.page_size total) in *.
  pose proof (Z.div_mod (total + ps - 1) ps ltac:(lia)) as Hdm.
  pose proof (Z.mod_pos_bound (total + ps - 1) ps Hps) as Hmod.
  assert (1 ≤ (total + ps - 1) / ps) by (apply Z.div_le_lower_bound; lia).
  rewrite Z.max_r by lia. nia.
Qed.

(** The hunt on an empty catalogue: one query, the count, and nothing else. *)
Lemma hunt_nothing_wanted {W : Type} (env : Env W) hk client instance limit mo sf dry
    (s : Sys W) body w :
  session_get env client (count_request hk mo) (world s) = (Some body, w) →
  default 0 (totalRecords body) = 0 →
  hunt env hk client instance limit mo sf dry s
  = (Ok 0, mkSys (db s) w, [EvGet client (count_request hk mo) true]).
Proof.
  intros Hget Htotal. unfold hunt, bind, ArrClient_get.
  rewrite Hget, Htotal. reflexivity.
Qed.

(** C5. For [total > 0]: [page_size = min(100, total)], [total_pages] is
    [ceil(total / page_size)] and at least 1, and the page drawn, the one
    the hunt then asks for, lies in [1 .. total_pages]; 250 records make
    3 pages of 100, 1 record makes 1 page of 1; with [total = 0] a hunt
    returns 0 after the count query alone. *)
Theorem page_selection :
  ∀ (W : Type) (env : Env W),
    (∀ total, 0 < total →
        Paging.page_size total = Z.min 100 total
        ∧ 1 ≤ Paging.total_pages total
        ∧ (Paging.total_pages total - 1) * Paging.page_size total < total
        ∧ total ≤ Paging.total_pages total * Paging.page_size total
        ∧ (∀ s : Sys W, ∃ page s',
              randint env 1 (Paging.total_pages total) s = (Ok page, s', [])
              ∧ 1 ≤ page ≤ Paging.total_pages total)
        ∧ (∀ hk client instance monitored_only skip_future (s s' : Sys W) r evs,
              hunt_candidates env hk client instance total monitored_only skip_future s
              = (r, s', evs) →
              ∃ page ok,
                1 ≤ page ≤ Paging.total_pages total
                ∧ evs = [EvGet client
                           (page_request hk page (Paging.page_size total) monitored_only) ok]))
    ∧ (Paging.page_size 250 = 100 ∧ Paging.total_pages 250 = 3)
    ∧ (Paging.page_size 1 = 1 ∧ Paging.total_pages 1 = 1)
    ∧ (∀ hk client instance limit monitored_only skip_future dry_run (s : Sys W) body w,
          session_get env client (count_request hk monitored_only) (world s) = (Some body, w) →
          default 0 (totalRecords body) = 0 →
          hunt env hk client instance limit monitored_only skip_future dry_run s
          = (Ok 0, mkSys (db s) w, [EvGet client (count_request hk monitored_only) true])).
Proof.
  intros W env. split; [|split; [done|split; [done|]]].
  - intros total Htotal.
    destruct (total_pages_ceiling total Htotal) as [Hlo Hhi].
    split; [done|]. split; [apply total_pages_ge_1|]. split; [done|]. split; [done|].
    split.
    + intros s.
      destruct (randint_range env 1 (Paging.total_pages total) s (total_pages_ge_1 total))
        as (page & s' & Hrun & _ & Hrange).
      by exists page, s'.
    + intros hk client instance mo sf s s' r evs Hrun.
      destruct (hunt_candidates_cases _ _ _ _ _ _ _ _ _ _ _ Hrun)
        as (_ & page & Hrange & [(_ & ->) | ->]).
      * by exists page, false.
      * by exists page, true.
  - intros hk client instance limit mo sf dry s body w. apply hunt_nothing_wanted.
Qed.

(** 250 records: a page of 100 out of 3; and a Sonarr that reports no
    missing episode. *)
Lemma page_selection_witness :
  let env := Demo.env (λ _ _, Some (mkPage (Some 0) None)) (λ _ _, true) Demo.iso in
  let s := Demo.start ∅ [7] in
  (Paging.page_size 250 = Z.min 100 250 ∧ 1 ≤ Paging.total_pages 250
   ∧ (Paging.total_pages 250 - 1) * Paging.page_size 250 < 250
   ∧ 250 ≤ Paging.total_pages 250 * Paging.page_size 250)
  ∧ sonarr_hunt_missing env (Demo.client "tv") "tv" 5 true true false s
    = (Ok 0, s, [EvGet (Demo.client "tv") (Wanted "wanted/missing" 1 1 true true) true]).
Proof.
  intros env s.
  destruct (page_selection Demo.World env) as (Hpos & _ & _ & Hzero).
  split.
  - assert (H250 : 0 < 250) by lia.
    destruct (Hpos 250 H250) as (? & ? & ? & ? & _). by repeat split.
  - apply (Hzero (SonarrMissing env) (Demo.client "tv") "tv" 5 true true false s
             (mkPage (Some 0) None) (world s)); reflexivity.
Defined.

(** ** Trigger, then mark *)

(** C6. In a real run every selected item gets its search command, in
    order and whatever happened to the items before it; the ledger entry
    of an item is written right after its command, and only when the
    command was accepted; an item whose command was rejected leaves the
    ledger as it was and is not counted. *)
Theorem trigger_then_mark :
  ∀ (W : Type) (env : Env W) (hk : HuntKind) (client : ArrClient) (instance : string)
    (to_search : list Item) (searched : Z) (s : Sys W),
    ∃ (outcomes : list (option Z)) (s' : Sys W),
      length outcomes = length to_search
      ∧ search_loop env hk client instance false to_search searched s
        = (Ok (searched + successes outcomes), s',
           batch_events hk client instance to_search outcomes)
      ∧ db s' = batch_db hk instance (db s) to_search outcomes
      ∧ List.filter Events.is_trigger (batch_events hk client instance to_search outcomes)
        = zip_with (λ x o, EvPost client (hk_command hk (id x)) (bool_decide (is_Some o)))
            to_search outcomes.
Proof.
  intros W env hk client instance to_search searched s.
  destruct (search_loop_live env hk client instance to_search searched s)
    as (os & s' & Hlen & Hrun & Hdb).
  exists os, s'. split; [done|]. split; [done|]. split; [done|].
  clear Hrun Hdb s s' searched. revert os Hlen.
  induction to_search as [|x xs IH]; intros [|o os] Hlen; simplify_eq/=; [done|].
  rewrite <- (IH os) by done.
  by destruct o.
Qed.

(** Episodes 1, 2, 3, the search of episode 2 being rejected. *)
Example trigger_then_mark_demo :
  let env := Demo.env Demo.get_three Demo.post_rejects_2 Demo.iso in
  let out := search_loop env (SonarrMissing env) (Demo.client "tv") "tv" false
               [Demo.item 1; Demo.item 2; Demo.item 3] 0 (Demo.start ∅ []) in
  out.1.1 = Ok 2
  ∧ out.2 = [EvPost (Demo.client "tv") (EpisodeSearch [1]) true;
             EvMark "sonarr" "tv" "1" Demo.june_1st;
             EvPost (Demo.client "tv") (EpisodeSearch [2]) false;
             EvPost (Demo.client "tv") (EpisodeSearch [3]) true;
             EvMark "sonarr" "tv" "3" (Demo.june_1st + 1)]
  ∧ rows (db out.1.2) !! Demo.key "sonarr" "tv" "2" = None
  ∧ rows (db out.1.2) !! Demo.key "sonarr" "tv" "3" = Some (Demo.june_1st + 1).
Proof.
  intros env out. repeat split; vm_compute; reflexivity.
Qed.

(** ** Selection *)

Lemma submseteq_NoDup {A : Type} (l k : list A) : l ⊆+ k → NoDup k → NoDup l.
Proof.
  intros Hsub Hk. apply submseteq_Permutation in Hsub as [k' Hk'].
  rewrite Hk' in Hk. by apply NoDup_app in Hk as [? _].
Qed.

(** C4 (as amended). For a limit [L > 0] the selection step returns
    exactly [min(L, N)] of the [N] filtered candidates, drawn at pairwise
    distinct positions of the candidate list: the selection is a
    sub-multiset of the candidates, so every selected item is a candidate,
    and the selected items (their ids) are pairwise distinct whenever the
    candidates (their ids) are. *)
Theorem selection_is_a_sample :
  ∀ (W : Type) (env : Env W) (candidates : list Item) (limit : Z) (s : Sys W),
    0 < limit →
    ∃ (to_search : list Item) (s' : Sys W),
      random_sample env candidates (Z.min limit (Z.of_nat (length candidates))) s
      = (Ok to_search, s', [])
      ∧ Z.of_nat (length to_search) = Z.min limit (Z.of_nat (length candidates))
      ∧ to_search ⊆+ candidates
      ∧ (∀ x, x ∈ to_search → x ∈ candidates)
      ∧ (NoDup candidates → NoDup to_search)
      ∧ (NoDup (id <$> candidates) → NoDup (id <$> to_search)).
Proof.
  intros W env candidates limit s Hlimit.
  destruct (random_sample_spec env candidates
              (Z.min limit (Z.of_nat (length candidates))) s)
    as (l & s' & Hrun & _ & Hlen & Hsub); [lia|].
  exists l, s'. split; [done|]. split; [done|]. split; [done|].
  split; [intros x Hx; by eapply elem_of_submseteq|].
  split; [by apply submseteq_NoDup|].
  apply submseteq_NoDup. by apply fmap_submseteq.
Qed.

(** Two out of three distinct episodes, with the draws 4 and 1. *)
Lemma selection_is_a_sample_witness :
  let env := Demo.env Demo.get_three Demo.post_rejects_2 Demo.iso in
  let candidates := [Demo.item 1; Demo.item 2; Demo.item 3] in
  let out := random_sample env candidates (Z.min 2 3) (Demo.start ∅ [4; 1]) in
  out.1.1 = Ok [Demo.item 2; Demo.item 3]
  ∧ ∃ to_search, out.1.1 = Ok to_search ∧ NoDup to_search.
Proof.
  intros env candidates out. split; [vm_compute; reflexivity|].
  assert (Hlimit : 0 < 2) by lia.
  destruct (selection_is_a_sample Demo.World env candidates 2 (Demo.start ∅ [4; 1]) Hlimit)
    as (l & s' & Hrun & _ & _ & _ & Hnodup & _).
  exists l. split.
  - subst out. change (Z.of_nat (length candidates)) with 3 in Hrun. by rewrite Hrun.
  - apply Hnodup. subst candidates.
    apply NoDup_ListNoDup. repeat constructor; simpl; intuition discriminate.
Defined.

(** C4, as stated, fails on a candidate list that repeats a record: both
    occurrences can be drawn, and with [L = 2] they are. *)
Lemma selection_repeats_repeated_candidate :
  let env := Demo.env Demo.get_three Demo.post_rejects_2 Demo.iso in
  let candidates := [Demo.item 7; Demo.item 7] in
  let out := random_sample env candidates
               (Z.min 2 (Z.of_nat (length candidates))) (Demo.start ∅ []) in
  out.1.1 = Ok [Demo.item 7; Demo.item 7]
  ∧ ¬ NoDup [Demo.item 7; Demo.item 7].
Proof.
  intros env candidates out. split; [vm_compute; reflexivity|].
  intros Hnd. apply NoDup_cons in Hnd as [Hnotin _]. apply Hnotin. by left.
Qed.

(** ** The candidate filters *)

Section FilterFacts.

Context (iso : string → option datetime).

Lemma dt_le_utc d now :
  dt_le d (utc now)
  = if dt_aware d then Ok (dt_instant d <=? now) else Raise TypeError.
Proof. unfold dt_le, utc. simpl. by destruct (dt_aware d). Qed.

Lemma dt_gt_utc d now :
  dt_gt d (utc now)
  = if dt_aware d then Ok (now <? dt_instant d) else Raise TypeError.
Proof. unfold dt_gt, utc. simpl. by destruct (dt_aware d). Qed.

(** What the future test answers, by what the date parses to. *)
Lemma episode_not_future_eq now ep :
  episode_not_future iso now ep
  = match _parse_date iso (airDateUtc ep) with
    | None => Ok true
    | Some d => if dt_aware d then Ok (bool_decide (dt_instant d ≤ now)) else Raise TypeError
    end.
Proof.
  unfold episode_not_future. destruct (_parse_date iso (airDateUtc ep)) as [d|]; [|done].
  rewrite dt_le_utc. destruct (dt_aware d); [|done].
  f_equal. destruct (Z.leb_spec (dt_instant d) now).
  - by rewrite bool_decide_eq_true_2.
  - rewrite bool_decide_eq_false_2; [done | lia].
Qed.

Lemma movie_not_future_eq now m :
  movie_not_future iso now m
  = match _parse_date iso (movie_date m) with
    | None => Ok true
    | Some d => if dt_aware d then Ok (bool_decide (dt_instant d ≤ now)) else Raise TypeError
    end.
Proof.
  unfold movie_not_future. destruct (_parse_date iso (movie_date m)) as [d|]; [|done].
  rewrite dt_gt_utc. destruct (dt_aware d); [|done].
  f_equal. destruct (Z.ltb_spec now (dt_instant d)); simpl.
  - rewrite bool_decide_eq_false_2; [done | lia].
  - by rewrite bool_decide_eq_true_2.
Qed.

(** The answer of a test that looks at the parsed date [o] as both
    future tests do: dropped exactly when the date parses to an
    offset-aware instant after [now]. *)
Lemma not_future_dropped (o : option datetime) now :
  match o with
  | None => Ok true
  | Some d => if dt_aware d then Ok (bool_decide (dt_instant d ≤ now)) else Raise TypeError
  end = Ok false
  ↔ ∃ t, o = Some (mkDatetime t true) ∧ now < t.
Proof.
  destruct o as [[t [|]]|]; simpl.
  - split.
    + intros [= H]. apply bool_decide_eq_false in H. exists t. split; [done | lia].
    + intros (t' & [= <-] & Ht). f_equal. apply bool_decide_eq_false. lia.
  - split; [done | by intros (t' & [=] & _)].
  - split; [done | by intros (t' & [=] & _)].
Qed.

Lemma not_future_kept (o : option datetime) now :
  match o with
  | None => Ok true
  | Some d => if dt_aware d then Ok (bool_decide (dt_instant d ≤ now)) else Raise TypeError
  end = Ok true
  ↔ o = None ∨ ∃ t, o = Some (mkDatetime t true) ∧ t ≤ now.
Proof.
  destruct o as [[t [|]]|]; simpl.
  - split.
    + intros [= H]. apply bool_decide_eq_true in H. right. by exists t.
    + intros [[=] | (t' & [= <-] & Ht)]. f_equal. by apply bool_decide_eq_true.
  - split; [done | by intros [[=] | (t' & [=] & _)]].
  - split; [by left | done].
Qed.

(** [a or b or c] picks the first non-empty text, when there is one, and
    parses to nothing otherwise. *)
Lemma movie_date_first_nonempty m :
  (Str.truthy (movie_date m) = true →
   movie_date m = first_nonempty [releaseDate m; digitalRelease m; physicalRelease m])
  ∧ _parse_date iso (movie_date m)
    = _parse_date iso (first_nonempty [releaseDate m; digitalRelease m; physicalRelease m]).
Proof.
  unfold movie_date, first_nonempty, Str.or. simpl.
  destruct (Str.truthy (releaseDate m)) eqn:E1; simpl; rewrite ?E1; [done|].
  destruct (Str.truthy (digitalRelease m)) eqn:E2; simpl; [done|].
  destruct (Str.truthy (physicalRelease m)) eqn:E3; simpl; [done|].
  split; [done|]. unfold _parse_date. by rewrite E3.
Qed.

(** A comprehension that returns, returns the items whose test said yes. *)
Lemma filter_raising_ok {A : Type} (p : A → result bool) (l : list A) :
  ∀ r, filter_raising p l = Ok r →
       r = List.filter (λ x, bool_decide (p x = Ok true)) l.
Proof.
  induction l as [|x l IH]; intros r; simpl.
  - by intros [= <-].
  - destruct (p x) as [b|e]; [|done].
    destruct (filter_raising p l) as [r'|e]; [|done].
    intros [= <-]. rewrite <- (IH r' eq_refl). by destruct b.
Qed.

Lemma filter_raising_defined {A : Type} (p : A → result bool) (l : list A) :
  Forall (λ x, ∃ b, p x = Ok b) l →
  filter_raising p l
  = Ok (List.filter (λ x, match p x with Ok b => b | Raise _ => true end) l).
Proof.
  induction 1 as [|x l [b Hb] _ IH]; simpl; [done|].
  rewrite Hb, IH. by destruct b.
Qed.

End FilterFacts.

Section PipelineFacts.

Variables (hk : HuntKind) (st : StateDB) (now : Z) (instance : string).

Lemma not_searched_defined x :
  ledger_defined st now → ∃ b, not_searched hk st now instance x = Ok b.
Proof.
  intros [c Hc]. unfold not_searched.
  rewrite (is_searched_Ok st now c _ _ _ Hc). by eexists.
Qed.

Lemma apply_step_defined step items :
  Forall (future_defined hk now) items →
  ledger_defined st now →
  apply_step hk st now instance step items
  = Ok (List.filter (step_keeps hk st now instance step) items).
Proof.
  intros Hdef Hled. destruct step; simpl; [done| |].
  - destruct (hk_not_future hk) as [nf|] eqn:Enf.
    + rewrite filter_raising_defined.
      * f_equal. apply List.filter_ext. intros x. simpl. by rewrite Enf.
      * eapply Forall_impl; [exact Hdef|]. intros x Hx. by apply Hx.
    + f_equal. rewrite (List.filter_ext _ (λ _, true)).
      * clear Hdef. induction items as [|x items IH]; simpl; [done|]. by rewrite <- IH.
      * intros x. simpl. by rewrite Enf.
  - rewrite filter_raising_defined; [done|].
    apply Forall_forall. intros x _. by apply not_searched_defined.
Qed.

Lemma Forall_list_filter {A : Type} (P : A → Prop) (p : A → bool) (l : list A) :
  Forall P l → Forall P (List.filter p l).
Proof.
  induction 1 as [|x l Hx _ IH]; simpl; [done|].
  destruct (p x); [by constructor | done].
Qed.

Lemma list_filter_filter {A : Type} (p q : A → bool) (l : list A) :
  List.filter q (List.filter p l) = List.filter (λ x, p x && q x) l.
Proof.
  induction l as [|x l IH]; simpl; [done|].
  destruct (p x); simpl; [|done]. destruct (q x); by rewrite IH.
Qed.

(** Where the future test and the ledger test are defined, a chain of
    steps is one filter, by the conjunction of the steps' tests. *)
Lemma apply_steps_defined steps :
  ∀ items,
    Forall (future_defined hk now) items →
    ledger_defined st now →
    apply_steps hk st now instance steps items
    = Ok (List.filter
            (λ x, forallb (λ step, step_keeps hk st now instance step x) steps) items).
Proof.
  induction steps as [|step steps IH]; intros items Hdef Hled; simpl.
  - f_equal. clear Hdef. induction items as [|x items IHi]; simpl; [done|].
    by rewrite <- IHi.
  - rewrite apply_step_defined by done.
    rewrite IH by (done || by apply Forall_list_filter).
    by rewrite list_filter_filter.
Qed.

Lemma forallb_Permutation {A : Type} (f : A → bool) (l k : list A) :
  l ≡ₚ k → forallb f l = forallb f k.
Proof.
  induction 1 as [|x l k _ IH|x y l|l k m _ IH1 _ IH2]; simpl.
  - done.
  - by rewrite IH.
  - by destruct (f x), (f y).
  - congruence.
Qed.

(** On a page where the future test is defined on every item, and with
    a ledger whose test is defined, the result does not depend on the
    order of the steps. *)
Lemma steps_commute steps steps' items :
  Forall (future_defined hk now) items →
  ledger_defined st now →
  steps ≡ₚ steps' →
  apply_steps hk st now instance steps items
  = apply_steps hk st now instance steps' items.
Proof.
  intros Hdef Hled Hperm. rewrite !apply_steps_defined by done.
  f_equal. apply List.filter_ext. intros x. by apply forallb_Permutation.
Qed.

End PipelineFacts.

Section FutureFilterFacts.

Context {W : Type} (env : Env W).

Lemma filter_future_missing hk not_future skip items (s : Sys W) :
  hk_not_future hk = Some not_future →
  filter_future env hk skip items s
  = ((if skip then filter_raising (not_future (clock env (world s)).1) items else Ok items),
     mkSys (db s) (clock env (world s)).2, []).
Proof.
  intros Hnf. unfold filter_future. rewrite Hnf. unfold bind.
  rewrite utcnow_eq. by destruct skip.
Qed.

Lemma filter_future_upgrades hk skip items (s : Sys W) :
  hk_not_future hk = None →
  filter_future env hk skip items s = (Ok items, s, []).
Proof. intros Hnf. unfold filter_future. by rewrite Hnf. Qed.

(** With a clock that stands still at [now], and both [monitored_only]
    and [skip_future] set, the filters of a hunt are the chain
    [code_order] at the hunt's ledger. *)
Lemma hunt_filters_in_code_order now hk instance items (s : Sys W) :
  (∀ w, (clock env w).1 = now) →
  ∃ s',
    bind (filter_future env hk true (filter_monitored hk true items))
         (filter_unsearched env hk instance) s
    = (apply_steps hk (db s) now instance code_order items, s', []).
Proof.
  intros Hclock. unfold code_order, filter_monitored. cbn [apply_steps apply_step].
  destruct (hk_not_future hk) as [nf|] eqn:Enf.
  - pose proof (filter_future_missing hk nf true
                  (List.filter (hk_monitored hk) items) s Enf) as Hf.
    rewrite Hclock in Hf.
    destruct (filter_raising (nf now) (List.filter (hk_monitored hk) items)) as [l|e].
    + destruct (filter_unsearched_frozen env hk instance now l Hclock
                  (mkSys (db s) (clock env (world s)).2)) as (s' & Hu & _).
      exists s'. rewrite (bind_ok _ _ _ _ _ _ Hf), Hu. cbn [db fst snd app].
      by destruct (filter_raising (not_searched hk (db s) now instance) l).
    + eexists. by rewrite (bind_raise _ _ _ _ _ _ Hf).
  - pose proof (filter_future_upgrades hk true
                  (List.filter (hk_monitored hk) items) s Enf) as Hf.
    destruct (filter_unsearched_frozen env hk instance now
                (List.filter (hk_monitored hk) items) Hclock s) as (s' & Hu & _).
    exists s'. rewrite (bind_ok _ _ _ _ _ _ Hf), Hu. cbn [db fst snd app].
    by destruct (filter_raising (not_searched hk (db s) now instance)
                   (List.filter (hk_monitored hk) items)).
Qed.

End FutureFilterFacts.

(** C7 (as amended). The future filter belongs to the missing hunts only:
    the upgrade hunts never drop an item for its date.  In a missing
    hunt with [skip_future], the filter, when it returns, keeps exactly
    the items its test keeps; an episode is tested on [airDateUtc], a
    movie on the first non-empty of [releaseDate], [digitalRelease],
    [physicalRelease]; an item is dropped exactly when that date parses
    to an offset-aware instant strictly after [now], and kept when the
    date is missing or does not parse, or parses to an offset-aware
    instant not after [now]. *)
Theorem future_filter :
  ∀ (W : Type) (env : Env W),
    let iso := fromisoformat env in
    (∀ skip_future items (s : Sys W),
        filter_future env SonarrUpgrades skip_future items s = (Ok items, s, [])
        ∧ filter_future env RadarrUpgrades skip_future items s = (Ok items, s, []))
    ∧ (∀ items (s : Sys W),
        (filter_future env (SonarrMissing env) false items s).1.1 = Ok items
        ∧ (filter_future env (RadarrMissing env) false items s).1.1 = Ok items)
    ∧ (∀ items (s s' : Sys W) kept evs,
        let now := (clock env (world s)).1 in
        (filter_future env (SonarrMissing env) true items s = (Ok kept, s', evs) →
         kept = List.filter (λ x, bool_decide (episode_not_future iso now x = Ok true)) items)
        ∧ (filter_future env (RadarrMissing env) true items s = (Ok kept, s', evs) →
           kept = List.filter (λ x, bool_decide (movie_not_future iso now x = Ok true)) items))
    ∧ (∀ now ep,
        (episode_not_future iso now ep = Ok false
         ↔ ∃ t, _parse_date iso (airDateUtc ep) = Some (mkDatetime t true) ∧ now < t)
        ∧ (episode_not_future iso now ep = Ok true
           ↔ _parse_date iso (airDateUtc ep) = None
             ∨ ∃ t, _parse_date iso (airDateUtc ep) = Some (mkDatetime t true) ∧ t ≤ now))
    ∧ (∀ now m,
        let date := first_nonempty [releaseDate m; digitalRelease m; physicalRelease m] in
        (movie_not_future iso now m = Ok false
         ↔ ∃ t, _parse_date iso date = Some (mkDatetime t true) ∧ now < t)
        ∧ (movie_not_future iso now m = Ok true
           ↔ _parse_date iso date = None
             ∨ ∃ t, _parse_date iso date = Some (mkDatetime t true) ∧ t ≤ now)).
Proof.
  intros W env iso. split; [|split; [|split; [|split]]].
  - intros skip items s. split; by apply filter_future_upgrades.
  - intros items s.
    split; erewrite filter_future_missing by reflexivity; reflexivity.
  - intros items s s' kept evs now. split; intros Hrun.
    + erewrite filter_future_missing in Hrun by reflexivity.
      injection Hrun as Hk _ _. by apply filter_raising_ok.
    + erewrite filter_future_missing in Hrun by reflexivity.
      injection Hrun as Hk _ _. by apply filter_raising_ok.
  - intros now ep. rewrite episode_not_future_eq.
    split; [apply not_future_dropped | apply not_future_kept].
  - intros now m date. rewrite movie_not_future_eq.
    destruct (movie_date_first_nonempty iso m) as [_ ->]. fold date.
    split; [apply not_future_dropped | apply not_future_kept].
Qed.

(** A page with an episode already aired, one airing in 2999 and one
    without a date, filtered on 2024-06-01. *)
Lemma future_filter_witness :
  let env := Demo.env Demo.get_three Demo.post_rejects_2 Demo.iso in
  let aired := Demo.episode 1 true (Some "2000-01-01T00:00:00Z") in
  let coming := Demo.episode 2 true (Some "2999-01-01T00:00:00.000Z") in
  let undated := Demo.episode 3 true None in
  let out := filter_future env (SonarrMissing env) true [aired; coming; undated]
               (Demo.start ∅ []) in
  out.1.1 = Ok [aired; undated]
  ∧ ∀ kept, out.1.1 = Ok kept →
      kept = List.filter
               (λ x, bool_decide (episode_not_future Demo.iso Demo.june_1st x = Ok true))
               [aired; coming; undated].
Proof.
  intros env aired coming undated out. split; [vm_compute; reflexivity|].
  intros kept Hkept.
  destruct (future_filter Demo.World env) as (_ & _ & Hlist & _).
  refine (proj1 (Hlist [aired; coming; undated] (Demo.start ∅ []) out.1.2 kept out.2) _).
  rewrite <- Hkept. subst out. by destruct (filter_future env _ _ _ _) as [[??]?].
Defined.

(** C7, as stated, fails twice.  A movie whose [releaseDate] is the empty
    text, its first non-null date, and whose [digitalRelease] lies in
    2999 is dropped, though its relevant date does not parse.  And an
    episode whose [airDateUtc] carries no UTC offset, a date that is
    present, parses and lies in the past, is not kept: the test raises
    [TypeError], and with it the hunt. *)
Lemma future_filter_misses :
  let env := Demo.env
               (λ _ _, Some (mkPage (Some 1)
                               (Some [Demo.episode 1 true (Some "2000-01-01T00:00:00")])))
               (λ _ _, true) Demo.iso in
  let m := Demo.movie 1 (Some "") (Some "2999-01-01T00:00:00Z") in
  let ep := Demo.episode 1 true (Some "2000-01-01T00:00:00") in
  (List.find (λ o : option string, bool_decide (is_Some o))
     [releaseDate m; digitalRelease m; physicalRelease m] = Some (Some "")
   ∧ _parse_date Demo.iso (Some "") = None
   ∧ movie_not_future Demo.iso Demo.june_1st m = Ok false)
  ∧ (_parse_date Demo.iso (airDateUtc ep) = Some (mkDatetime 946684800000000 false)
     ∧ 946684800000000 ≤ Demo.june_1st
     ∧ episode_not_future Demo.iso Demo.june_1st ep = Raise TypeError
     ∧ (sonarr_hunt_missing env (Demo.client "tv") "tv" 5 true true false
          (Demo.start ∅ [])).1.1 = Raise TypeError).
Proof.
  intros env m ep. repeat split; vm_compute; try reflexivity. discriminate.
Qed.

Lemma future_defined_episode {W : Type} (env : Env W) now x :
  future_defined (SonarrMissing env) now x
  ↔ ∀ d, _parse_date (fromisoformat env) (airDateUtc x) = Some d → dt_aware d = true.
Proof.
  unfold future_defined. simpl. split.
  - intros H d Hd. destruct (H _ eq_refl) as [b Hb].
    rewrite episode_not_future_eq, Hd in Hb. by destruct (dt_aware d).
  - intros H nf [= <-]. rewrite episode_not_future_eq.
    destruct (_parse_date _ _) as [d|]; [|by eexists].
    rewrite (H d eq_refl). by eexists.
Qed.

Lemma future_defined_movie {W : Type} (env : Env W) now x :
  future_defined (RadarrMissing env) now x
  ↔ ∀ d, _parse_date (fromisoformat env) (movie_date x) = Some d → dt_aware d = true.
Proof.
  unfold future_defined. simpl. split.
  - intros H d Hd. destruct (H _ eq_refl) as [b Hb].
    rewrite movie_not_future_eq, Hd in Hb. by destruct (dt_aware d).
  - intros H nf [= <-]. rewrite movie_not_future_eq.
    destruct (_parse_date _ _) as [d|]; [|by eexists].
    rewrite (H d eq_refl). by eexists.
Qed.

(** C8 (as amended). At a fixed ledger and a fixed [now], on a page where
    the future test is defined on every item and with a ledger whose test
    is defined, the three filters give the same result in whatever order
    they are applied, each being then a test on the single item; that
    result is the one of the hunt, whose order is [code_order].  The
    future test is defined on an item when its date, if it parses,
    carries a UTC offset; the upgrade hunts have no future test, so
    there it is defined everywhere.  The ledger test is defined when the
    cutoff [now - ttl] is an instant a [datetime] can hold. *)
Theorem filters_commute :
  ∀ (W : Type) (env : Env W),
    (∀ hk st now instance steps steps' items,
        Forall (future_defined hk now) items →
        ledger_defined st now →
        steps ≡ₚ steps' →
        apply_steps hk st now instance steps items
        = apply_steps hk st now instance steps' items)
    ∧ (∀ hk st now instance steps items,
        Forall (future_defined hk now) items →
        ledger_defined st now →
        apply_steps hk st now instance steps items
        = Ok (List.filter
                (λ x, forallb (λ step, step_keeps hk st now instance step x) steps)
                items))
    ∧ (∀ now hk instance items (s : Sys W),
        (∀ w, (clock env w).1 = now) →
        ∃ s',
          bind (filter_future env hk true (filter_monitored hk true items))
               (filter_unsearched env hk instance) s
          = (apply_steps hk (db s) now instance code_order items, s', []))
    ∧ (∀ now x,
        (future_defined (SonarrMissing env) now x
         ↔ ∀ d, _parse_date (fromisoformat env) (airDateUtc x) = Some d → dt_aware d = true)
        ∧ (future_defined (RadarrMissing env) now x
           ↔ ∀ d, _parse_date (fromisoformat env) (movie_date x) = Some d
                  → dt_aware d = true)
        ∧ future_defined SonarrUpgrades now x
        ∧ future_defined RadarrUpgrades now x)
    ∧ (∀ st now,
        (representable now = true →
         representable (now - ttl_hours st * us_per_hour) = true →
         ledger_defined st now)
        ∧ (ledger_defined st now →
           representable (now - ttl_hours st * us_per_hour) = true)).
Proof.
  intros W env. split; [|split; [|split; [|split]]].
  - intros hk st now instance steps steps' items. apply steps_commute.
  - intros hk st now instance steps items. apply apply_steps_defined.
  - intros now hk instance items s. apply hunt_filters_in_code_order.
  - intros now x.
    split; [apply future_defined_episode|]. split; [apply future_defined_movie|].
    split; by intros nf.
  - intros st now. split.
    + intros Hnow Hcut. eexists. by apply cutoff_representable.
    + intros [c Hc]. by apply cutoff_Ok in Hc as [-> ?].
Qed.

(** Three monitored episodes without dates, one of them searched the day
    before: the same two candidates in the order of the code and in its
    reverse. *)
Lemma filters_commute_witness :
  let env := Demo.env Demo.get_three Demo.post_rejects_2 Demo.iso in
  let hk := SonarrMissing env in
  let st := mkStateDB 168 {[ Demo.key "sonarr" "tv" "2" := Demo.may_31st ]} in
  let page := [Demo.item 1; Demo.item 2; Demo.item 3] in
  apply_steps hk st Demo.june_1st "tv" code_order page = Ok [Demo.item 1; Demo.item 3]
  ∧ apply_steps hk st Demo.june_1st "tv" [ByLedger; ByFuture; ByMonitored] page
    = apply_steps hk st Demo.june_1st "tv" code_order page.
Proof.
  intros env hk st page. split; [vm_compute; reflexivity|].
  apply (proj1 (filters_commute Demo.World env)).
  - repeat constructor; intros nf [= <-]; by eexists.
  - eexists. reflexivity.
  - unfold code_order.
    change [ByLedger; ByFuture; ByMonitored] with (reverse [ByMonitored; ByFuture; ByLedger]).
    by rewrite reverse_Permutation.
Defined.

(** C8, as stated, fails on a page holding an unmonitored episode whose
    [airDateUtc] carries no UTC offset: in the order of the code the
    monitored test drops the episode before its date is looked at, and
    the result is the empty list; with the future test first, the
    comparison of its date with [now] raises [TypeError]. *)
Lemma filter_order_matters :
  let env := Demo.env Demo.get_three Demo.post_rejects_2 Demo.iso in
  let hk := SonarrMissing env in
  let st := mkStateDB 168 ∅ in
  let page := [Demo.episode 1 false (Some "2000-01-01T00:00:00")] in
  [ByFuture; ByMonitored; ByLedger] ≡ₚ code_order
  ∧ apply_steps hk st Demo.june_1st "tv" code_order page = Ok []
  ∧ apply_steps hk st Demo.june_1st "tv" [ByFuture; ByMonitored; ByLedger] page
    = Raise TypeError.
Proof.
  intros env hk st page. split; [apply Permutation_swap|].
  split; vm_compute; reflexivity.
Qed.

(** The ledger test is partial too: under [ttl_hours = 20000000] an
    unmonitored episode gives the empty list in the order of the code,
    where the ledger is never asked, and [OverflowError] with the ledger
    test first. *)
Lemma ledger_first_overflows :
  let env := Demo.env Demo.get_three Demo.post_rejects_2 Demo.iso in
  let hk := SonarrMissing env in
  let st := mkStateDB 20000000 ∅ in
  let page := [Demo.episode 1 false None] in
  apply_steps hk st Demo.june_1st "tv" code_order page = Ok []
  ∧ apply_steps hk st Demo.june_1st "tv" [ByLedger; ByMonitored; ByFuture] page
    = Raise OverflowError.
Proof. intros env hk st page. split; vm_compute; reflexivity. Qed.

(** C10. A hunt that returns, returns a count [n >= 0] that is the number
    of search commands accepted in its batch and the number of ledger
    entries it wrote, all under its own key; and, for a limit that is not
    negative ([run] calls a hunt only with [limit > 0]), either the count
    query reported no record and [n = 0], or [n] does not exceed
    [min(limit, number of candidates)], the candidates being those the
    filters of this very hunt left of the page it fetched after its count
    query; the totals [run] returns are, key by key, the numbers of
    entries written during the cycle, hence the sums of those counts,
    and none is negative. *)
Theorem searched_counts :
  ∀ (W : Type) (env : Env W),
    (∀ hk client instance limit monitored_only skip_future dry_run
       (s s' : Sys W) (n : Z) (evs : list Event),
        0 ≤ limit →
        hunt env hk client instance limit monitored_only skip_future dry_run s
        = (Ok n, s', evs) →
        let q0 := count_request hk monitored_only in
        0 ≤ n
        ∧ n = Events.count Events.triggered evs
        ∧ n = Events.count (Events.marked (hk_app hk)) evs
        ∧ (∀ app, app ≠ hk_app hk → Events.count (Events.marked app) evs = 0)
        ∧ ∃ body s0,
            ArrClient_get env client q0 s = (Ok body, s0, [EvGet client q0 true])
            ∧ let total := default 0 (totalRecords body) in
              (total = 0 ∧ n = 0 ∧ s' = s0 ∧ evs = [EvGet client q0 true])
              ∨ (total ≠ 0
                 ∧ ∃ s1 q1 candidates evs2,
                     hunt_candidates env hk client instance total monitored_only
                       skip_future s0
                     = (Ok candidates, s1, [EvGet client q1 true])
                     ∧ hunt_batch env hk client instance limit dry_run candidates s1
                       = (Ok n, s', evs2)
                     ∧ evs = [EvGet client q0 true; EvGet client q1 true] ++ evs2
                     ∧ n ≤ Z.min limit (Z.of_nat (length candidates))))
    ∧ (∀ cfg dry_run (s s' : Sys W) (totals : Totals) (evs : list Event),
        run env cfg dry_run s = (Ok totals, s', evs) →
        totals = Events.tally evs
        ∧ 0 ≤ sonarr_missing totals ∧ 0 ≤ sonarr_upgrades totals
        ∧ 0 ≤ radarr_missing totals ∧ 0 ≤ radarr_upgrades totals).
Proof.
  intros W env. split.
  - intros hk client instance limit mo sf dry s s' n evs Hlimit Hrun q0.
    destruct (hunt_summary _ _ _ _ _ _ _ _ _ _ _ _ Hrun) as (_ & Hother & Hn & _).
    destruct (Hn n eq_refl) as (Hpos & Hmarked & Htriggered).
    repeat (split; [done|]).
    unfold hunt in Hrun. fold q0 in Hrun.
    apply bind_inv in Hrun as [(body & s0 & l1 & l2 & Hget & Hrest & ->) | (e & _ & [=])].
    assert (Hl1 : l1 = [EvGet client q0 true]).
    { destruct (ArrClient_get_cases env client q0 s)
        as [(body' & w & _ & Hget') | (w & _ & Hget')]; congruence. }
    subst l1. exists body, s0. split; [done|]. cbv zeta.
    destruct (default 0 (totalRecords body) =? 0) eqn:Etotal.
    + left. injection Hrest as <- <- <-. apply Z.eqb_eq in Etotal. by repeat split.
    + right. apply Z.eqb_neq in Etotal. split; [done|].
      apply bind_inv in Hrest
        as [(cands & s1 & l3 & l4 & Hc & Hb & ->) | (e & _ & [=])].
      destruct (hunt_candidates_cases _ _ _ _ _ _ _ _ _ _ _ Hc)
        as (_ & page & _ & [([=] & _) | ->]).
      eexists s1, _, cands, l4. split; [exact Hc|]. split; [exact Hb|].
      split; [done|].
      apply hunt_batch_summary in Hb.
      destruct Hb as [(? & _ & [=] & _) | (l & os & _ & Hlen & Hos & _ & _ & [= ->] & _)].
      pose proof (successes_bounds os). specialize (Hlen Hlimit). lia.
  - intros cfg dry s s' totals evs Hrun.
    pose proof (run_shape _ _ _ _ _ _ _ Hrun) as Hshape. cbv zeta in Hshape.
    destruct (purge_expired _ _) as [[n st1]|e]; [|by destruct Hshape as ([=] & _)].
    destruct Hshape as (evs' & -> & _ & Ht & _).
    rewrite (Ht totals eq_refl).
    split; [done|]. unfold Events.tally, Events.count. simpl. lia.
Qed.

(** A live cycle over one Sonarr instance with three missing episodes,
    the search of episode 2 being rejected: 2 searched, out of the three
    candidates of the page. *)
Lemma searched_counts_witness :
  let env := Demo.env Demo.get_three Demo.post_rejects_2 Demo.iso in
  let s := Demo.start ∅ [] in
  let out := run env Demo.one_sonarr false s in
  let h := sonarr_hunt_missing env (Demo.client "tv") "tv" 5 true true false s in
  (out.1.1 = Ok (mkTotals 2 0 0 0) ∧ Events.tally out.2 = mkTotals 2 0 0 0)
  ∧ (h.1.1 = Ok 2 ∧ 2 = Events.count Events.triggered h.2).
Proof.
  intros env s out h.
  assert (Hout : out.1.1 = Ok (mkTotals 2 0 0 0)) by (vm_compute; reflexivity).
  assert (Hh : h.1.1 = Ok 2) by (vm_compute; reflexivity).
  split.
  - split; [exact Hout|].
    assert (Hrun : run env Demo.one_sonarr false s = (Ok (mkTotals 2 0 0 0), out.1.2, out.2))
      by (rewrite <- Hout; subst out; by destruct (run env _ _ _) as [[??]?]).
    by destruct (proj2 (searched_counts Demo.World env) _ _ _ _ _ _ Hrun) as [<- _].
  - assert (Hlimit : 0 ≤ 5) by lia.
    split; [exact Hh|].
    assert (Hrun : hunt env (SonarrMissing env) (Demo.client "tv") "tv" 5 true true false s
                   = (Ok 2, h.1.2, h.2))
      by (rewrite <- Hh; subst h; unfold sonarr_hunt_missing;
          by destruct (hunt env _ _ _ _ _ _ _ _) as [[??]?]).
    by destruct (proj1 (searched_counts Demo.World env) _ _ _ _ _ _ _ _ _ _ _ Hlimit Hrun)
      as (_ & ? & _).
Defined.

(** ** More on the ledger *)

Lemma rows_delete_delete st c c' k :
  c ≤ c' →
  rows (delete_until (delete_until st c).2 c').2 !! k
  = rows (delete_until st c').2 !! k.
Proof.
  intros Hle. rewrite !rows_delete_lookup.
  destruct (rows st !! k) as [t|]; [|done].
  repeat case_bool_decide; try done; lia.
Qed.

Lemma delete_until_delete st c c' :
  c ≤ c' → (delete_until (delete_until st c).2 c').2 = (delete_until st c').2.
Proof.
  intros Hle.
  assert (Hrows : rows (delete_until (delete_until st c).2 c').2
                  = rows (delete_until st c').2)
    by (apply map_eq; intros k; by apply rows_delete_delete).
  unfold delete_until in *. simpl in *. by rewrite Hrows.
Qed.

(** Nothing is left to delete at the cutoff of a deletion. *)
Lemma delete_until_again st c :
  delete_until (delete_until st c).2 c = (0%nat, (delete_until st c).2).
Proof.
  assert (Hnone : expired (delete_until st c).2 c = ∅).
  { apply map_eq. intros k. rewrite lookup_empty.
    unfold expired. apply map_lookup_filter_None. right. intros t Ht Hexp.
    rewrite rows_delete_lookup in Ht.
    destruct (rows st !! k) as [t'|]; [|done].
    case_bool_decide; simplify_eq/=. done. }
  assert (Hsame : (delete_until (delete_until st c).2 c).2 = (delete_until st c).2)
    by (by apply delete_until_delete).
  unfold delete_until at 1. rewrite Hnone, map_size_empty. f_equal.
  exact Hsame.
Qed.

(** X1. [mark_searched] is an upsert on the key: marking a key again
    leaves the table as if only the last mark had happened; a first mark
    adds one row, a later one adds none; the rows of the other keys are
    left alone. *)
Theorem mark_searched_upsert :
  ∀ (st : StateDB) (T1 T2 : Z) (app inst mid : string),
    mark_searched (mark_searched st T1 app inst mid) T2 app inst mid
    = mark_searched st T2 app inst mid
    ∧ (rows st !! (app, inst, mid) = None →
       size (rows (mark_searched st T1 app inst mid)) = S (size (rows st)))
    ∧ (is_Some (rows st !! (app, inst, mid)) →
       size (rows (mark_searched st T1 app inst mid)) = size (rows st))
    ∧ (∀ k, k ≠ (app, inst, mid) →
            rows (mark_searched st T1 app inst mid) !! k = rows st !! k).
Proof.
  intros st T1 T2 app inst mid. unfold mark_searched; simpl.
  split; [by rewrite insert_insert_eq|].
  split; [intros Hnone; by apply map_size_insert_None|].
  split; [intros Hsome; by apply map_size_insert_Some|].
  intros k Hk. by rewrite lookup_insert_ne.
Qed.

(** Marking a second episode of one instance, then marking the first
    again. *)
Lemma mark_searched_upsert_witness :
  let st := mark_searched (mkStateDB 168 ∅) Demo.may_31st "sonarr" "tv" "1" in
  size (rows (mark_searched st Demo.june_1st "sonarr" "tv" "2")) = 2%nat
  ∧ size (rows (mark_searched st Demo.june_1st "sonarr" "tv" "1")) = 1%nat
  ∧ rows (mark_searched st Demo.june_1st "sonarr" "tv" "2")
      !! Demo.key "sonarr" "tv" "1" = Some Demo.may_31st.
Proof.
  intros st.
  destruct (mark_searched_upsert st Demo.june_1st 0 "sonarr" "tv" "2")
    as (_ & Hnew & _ & Hother).
  destruct (mark_searched_upsert st Demo.june_1st 0 "sonarr" "tv" "1")
    as (_ & _ & Hold & _).
  split; [|split].
  - rewrite Hnew; [reflexivity | vm_compute; reflexivity].
  - rewrite Hold; [reflexivity | vm_compute; by eexists].
  - rewrite Hother; [vm_compute; reflexivity | discriminate].
Defined.

(** X2. Purging composes: when the purge at [now] and the purge at a
    later [now'] both go through, the purge at [now] followed by the
    purge at [now'] leaves the table of the single purge at [now']; in
    particular a second purge at the same instant removes nothing. *)
Theorem purge_expired_composes :
  ∀ (st st1 st' : StateDB) (now now' : Z) (n1 n' : nat),
    now ≤ now' →
    purge_expired st now = Ok (n1, st1) →
    purge_expired st now' = Ok (n', st') →
    (∃ n2, purge_expired st1 now' = Ok (n2, st'))
    ∧ purge_expired st1 now = Ok (0%nat, st1).
Proof.
  intros st st1 st' now now' n1 n' Hle H1 H'.
  apply purge_expired_inv in H1 as (c & Hc & Hd).
  apply purge_expired_inv in H' as (c' & Hc' & Hd').
  assert (Hst1 : st1 = (delete_until st c).2) by (by rewrite <- Hd).
  assert (Hst' : st' = (delete_until st c').2) by (by rewrite <- Hd').
  assert (Hcc : c ≤ c').
  { apply cutoff_Ok in Hc as [-> _]. apply cutoff_Ok in Hc' as [-> _]. lia. }
  subst st1 st'. split.
  - exists (delete_until (delete_until st c).2 c').1.
    rewrite (purge_expired_Ok _ now' c') by exact Hc'.
    rewrite <- (delete_until_delete st c c' Hcc).
    by destruct (delete_until (delete_until st c).2 c').
  - rewrite (purge_expired_Ok _ now c) by exact Hc.
    by rewrite delete_until_again.
Qed.

(** A row of 1970 and a row of 2024-05-31, purged on 2024-06-01 and again
    a microsecond later. *)
Lemma purge_expired_composes_witness :
  let st := mkStateDB 168 {[ Demo.key "sonarr" "tv" "1" := 5;
                             Demo.key "sonarr" "tv" "2" := Demo.may_31st ]} in
  ∃ n1 st1 n' st',
    purge_expired st Demo.june_1st = Ok (n1, st1)
    ∧ purge_expired st (Demo.june_1st + 1) = Ok (n', st')
    ∧ n1 = 1%nat
    ∧ (∃ n2, purge_expired st1 (Demo.june_1st + 1) = Ok (n2, st'))
    ∧ purge_expired st1 Demo.june_1st = Ok (0%nat, st1).
Proof.
  intros st.
  destruct (purge_expired st Demo.june_1st) as [[n1 st1]|e] eqn:H1;
    [|by vm_compute in H1].
  destruct (purge_expired st (Demo.june_1st + 1)) as [[n' st']|e] eqn:H';
    [|by vm_compute in H'].
  assert (Hle : Demo.june_1st ≤ Demo.june_1st + 1) by lia.
  exists n1, st1, n', st'. split; [done|]. split; [done|].
  split; [vm_compute in H1; by injection H1 as <- _|].
  exact (purge_expired_composes st st1 st' _ _ n1 n' Hle H1 H').
Defined.

(** X3. Expiry is final: a key that is not recently searched at some
    instant is never reported as recently searched at a later instant,
    as long as it is not marked again; and with [ttl_hours <= 0] a key
    is never reported as recently searched from the instant of its mark
    on, so that such a TTL switches the deduplication off.  The answer
    is [False] when the later instant and its cutoff are instants a
    [datetime] can hold, and [OverflowError] otherwise. *)
Theorem expiry_is_final :
  ∀ (st : StateDB) (app inst mid : string) (T T' : Z),
    T ≤ T' →
    let in_range :=
      representable T' = true
      ∧ representable (T' - ttl_hours st * us_per_hour) = true in
    (is_searched st T app inst mid = Ok false →
     is_searched st T' app inst mid ≠ Ok true
     ∧ (in_range → is_searched st T' app inst mid = Ok false))
    ∧ (ttl_hours st ≤ 0 →
       is_searched (mark_searched st T app inst mid) T' app inst mid ≠ Ok true
       ∧ (in_range →
          is_searched (mark_searched st T app inst mid) T' app inst mid = Ok false)).
Proof.
  intros st app inst mid T T' Hle in_range. split.
  - intros H. apply is_searched_inv in H as (c & Hc & Hsel).
    apply cutoff_Ok in Hc as [-> _].
    assert (Hlater : ∀ c', cutoff st T' = Ok c' → select_after st c' app inst mid = false).
    { intros c' Hc'. apply cutoff_Ok in Hc' as [-> _].
      unfold select_after in *. destruct (rows st !! _) as [t|]; [|done].
      symmetry in Hsel. apply bool_decide_eq_false in Hsel.
      apply bool_decide_eq_false. lia. }
    split.
    + intros H'. apply is_searched_inv in H' as (c' & Hc' & Hsel').
      by rewrite (Hlater c' Hc') in Hsel'.
    + intros [Hnow Hcut]. pose proof (cutoff_representable st T' Hnow Hcut) as Hc'.
      by rewrite (is_searched_Ok st T' _ _ _ _ Hc'), (Hlater _ Hc').
  - intros Httl. rewrite is_searched_mark_same.
    assert (Hout : bool_decide (T' < T + ttl_hours st * us_per_hour) = false)
      by (apply bool_decide_eq_false; unfold us_per_hour; nia).
    split.
    + destruct (cutoff st T'); [by rewrite Hout | done].
    + intros [Hnow Hcut]. by rewrite (cutoff_representable st T' Hnow Hcut), Hout.
Qed.

(** A mark of 2024-05-31 seen from 2024-06-01, under a TTL of 12 hours
    and under a TTL of 0. *)
Lemma expiry_is_final_witness :
  let st := mark_searched (mkStateDB 12 ∅) Demo.may_31st "sonarr" "tv" "1" in
  is_searched st (Demo.june_1st + 1) "sonarr" "tv" "1" = Ok false
  ∧ is_searched (mark_searched (mkStateDB 0 ∅) Demo.may_31st "sonarr" "tv" "1")
      Demo.may_31st "sonarr" "tv" "1" = Ok false.
Proof.
  intros st.
  assert (H1 : Demo.june_1st ≤ Demo.june_1st + 1) by lia.
  assert (H0 : Demo.may_31st ≤ Demo.may_31st) by lia.
  split.
  - apply (proj1 (expiry_is_final st "sonarr" "tv" "1" _ _ H1)).
    + vm_compute; reflexivity.
    + split; reflexivity.
  - apply (proj2 (expiry_is_final (mkStateDB 0 ∅) "sonarr" "tv" "1" _ _ H0)).
    + simpl. lia.
    + split; reflexivity.
Defined.

(** X4. Right after a purge that went through, the table holds exactly
    the keys in force: a key has a row if and only if it is recently
    searched at the instant of the purge. *)
Theorem purged_rows_are_in_force :
  ∀ (st st' : StateDB) (now : Z) (n : nat) (app inst mid : string),
    purge_expired st now = Ok (n, st') →
    is_Some (rows st' !! (app, inst, mid))
    ↔ is_searched st' now app inst mid = Ok true.
Proof.
  intros st st' now n app inst mid Hp.
  rewrite (is_searched_purge st now n st' app inst mid Hp).
  apply purge_expired_inv in Hp as (c & Hc & Hd).
  assert (Hst' : st' = (delete_until st c).2) by (by rewrite <- Hd).
  subst st'. rewrite (is_searched_Ok st now c _ _ _ Hc).
  unfold select_after. rewrite rows_delete_lookup.
  destruct (rows st !! _) as [t|]; [|split; [by intros [? [=]] | done]].
  case_bool_decide as Hexp.
  - split; [by intros [? [=]]|]. intros [= H]. apply bool_decide_eq_true in H. lia.
  - split; [|by eexists]. intros _. f_equal. apply bool_decide_eq_true. lia.
Qed.

(** The purge of 2024-06-01 keeps the row of 2024-05-31 and drops the
    row of 1970. *)
Lemma purged_rows_are_in_force_witness :
  let st := mkStateDB 168 {[ Demo.key "sonarr" "tv" "1" := 5;
                             Demo.key "sonarr" "tv" "2" := Demo.may_31st ]} in
  ∃ n st', purge_expired st Demo.june_1st = Ok (n, st')
           ∧ is_searched st' Demo.june_1st "sonarr" "tv" "2" = Ok true
           ∧ ¬ is_Some (rows st' !! Demo.key "sonarr" "tv" "1").
Proof.
  intros st.
  destruct (purge_expired st Demo.june_1st) as [[n st']|e] eqn:Hp;
    [|by vm_compute in Hp].
  exists n, st'. split; [done|]. split.
  - apply (purged_rows_are_in_force st st' Demo.june_1st n "sonarr" "tv" "2" Hp).
    vm_compute in Hp. injection Hp as _ <-. vm_compute. by eexists.
  - intros Hsome.
    apply (purged_rows_are_in_force st st' Demo.june_1st n "sonarr" "tv" "1" Hp) in Hsome.
    vm_compute in Hp. injection Hp as _ <-. by vm_compute in Hsome.
Defined.

(** ** Texts *)

Lemma contains_app c a b :
  Str.contains c (a +:+ b) = Str.contains c a || Str.contains c b.
Proof.
  induction a as [|x a IH]; simpl; [done|].
  destruct (Ascii.eqb x c); [done | apply IH].
Qed.

Lemma before_app_absent c a b :
  Str.contains c a = false →
  Str.before c (a +:+ String c b) = a.
Proof.
  induction a as [|x a IH]; simpl.
  - by rewrite Ascii.eqb_refl.
  - destruct (Ascii.eqb x c); [done|]. intros H. by rewrite IH.
Qed.

Lemma endswith_app c a b :
  b ≠ "" → Str.endswith c (a +:+ b) = Str.endswith c b.
Proof.
  intros Hb. induction a as [|x a IH]; [done|].
  change (String x a +:+ b) with (String x (a +:+ b)).
  cbn [Str.endswith]. rewrite <- IH.
  destruct (a +:+ b) eqn:E; [|done].
  destruct a; simpl in E; [contradiction | discriminate].
Qed.

Lemma drop_last_app a x :
  Str.drop_last (a +:+ String x "") = a.
Proof.
  induction a as [|y a IH]; simpl; [done|].
  destruct (a +:+ String x "") eqn:E; [by destruct a | by rewrite IH].
Qed.

Lemma endswith_contains c s : Str.endswith c s = true → Str.contains c s = true.
Proof.
  induction s as [|x s IH]; simpl; [done|].
  destruct s as [|y s]; [by intros -> |].
  intros H. destruct (Ascii.eqb x c); [done | by apply IH].
Qed.

Lemma truthy_app_nonempty a b : b ≠ "" → Str.truthy (Some (a +:+ b)) = true.
Proof. intros Hb. destruct a; simpl; [by destruct b | done]. Qed.

Lemma _parse_date_nonempty (iso : string → option datetime) (s : string) :
  s ≠ "" →
  _parse_date iso (Some s)
  = iso (let clean :=
           if Str.contains "." s && Str.contains "Z" s
           then Str.before "." s +:+ "Z" else s in
         if Str.endswith "Z" clean then Str.drop_last clean +:+ "+00:00" else clean).
Proof. intros Hs. unfold _parse_date. by destruct s. Qed.

(** X5. [_parse_date] answers [None] on a missing or empty text without
    looking further, and otherwise hands [datetime.fromisoformat] one
    text, which never ends in ["Z"]: the suffix that older Python
    versions reject is always rewritten. *)
Theorem parse_date_never_passes_Z :
  ∀ (s : option string),
    (Str.truthy s = false ∧ ∀ iso, _parse_date iso s = None)
    ∨ (Str.truthy s = true
       ∧ ∃ clean, Str.endswith "Z" clean = false ∧ ∀ iso, _parse_date iso s = iso clean).
Proof.
  intros s. destruct (Str.truthy s) eqn:Etruthy.
  - right. split; [done|]. unfold _parse_date. rewrite Etruthy. simpl.
    set (c1 := if Str.contains "." (default "" s) && Str.contains "Z" (default "" s)
               then Str.before "." (default "" s) +:+ "Z" else default "" s).
    destruct (Str.endswith "Z" c1) eqn:Eends.
    + exists (Str.drop_last c1 +:+ "+00:00"). split; [|done].
      by rewrite endswith_app.
    + by exists c1.
  - left. split; [done|]. intros iso. unfold _parse_date. by rewrite Etruthy.
Qed.

(** X6. A text ending in ["Z"] is parsed as the same text with the offset
    [+00:00]; if it also holds a fraction of a second, the fraction is
    dropped with everything up to the ["Z"], so that dates which differ
    only there parse alike.  [p] is the part before the fraction. *)
Theorem parse_date_utc_suffix :
  ∀ (iso : string → option datetime) (p q : string),
    Str.contains "." p = false →
    _parse_date iso (Some (p +:+ "Z")) = iso (p +:+ "+00:00")
    ∧ _parse_date iso (Some (p +:+ "." +:+ q +:+ "Z")) = iso (p +:+ "+00:00").
Proof.
  intros iso p q Hp. split.
  - assert (H1 : Str.contains "." (p +:+ "Z") = false)
      by (rewrite contains_app, Hp; reflexivity).
    assert (H2 : Str.endswith "Z" (p +:+ "Z") = true)
      by (rewrite endswith_app by done; reflexivity).
    rewrite _parse_date_nonempty by (by destruct p).
    cbv zeta. rewrite H1. cbn [andb]. rewrite H2. by rewrite drop_last_app.
  - set (s := p +:+ "." +:+ q +:+ "Z").
    assert (H1 : Str.contains "." s = true).
    { unfold s. rewrite contains_app. simpl (Str.contains "." ("." +:+ _)).
      by rewrite orb_true_r. }
    assert (H2 : Str.contains "Z" s = true).
    { unfold s. rewrite !contains_app. simpl (Str.contains "Z" "Z").
      by rewrite !orb_true_r. }
    assert (H3 : Str.before "." s = p).
    { unfold s. change (p +:+ "." +:+ q +:+ "Z") with (p +:+ String "." (q +:+ "Z")).
      by apply before_app_absent. }
    assert (H4 : Str.endswith "Z" (p +:+ "Z") = true)
      by (rewrite endswith_app by done; reflexivity).
    rewrite _parse_date_nonempty by (unfold s; by destruct p).
    cbv zeta. rewrite H1, H2, H3. cbn [andb]. rewrite H4. by rewrite drop_last_app.
Qed.

(** An air date as Sonarr writes it, with and without milliseconds. *)
Lemma parse_date_utc_suffix_witness :
  _parse_date Demo.iso (Some "2999-01-01T00:00:00Z")
  = Some (mkDatetime 32472144000000000 true)
  ∧ _parse_date Demo.iso (Some "2999-01-01T00:00:00.123Z")
    = Some (mkDatetime 32472144000000000 true).
Proof.
  assert (Hp : Str.contains "." "2999-01-01T00:00:00" = false) by reflexivity.
  destruct (parse_date_utc_suffix Demo.iso "2999-01-01T00:00:00" "123" Hp) as [H1 H2].
  split; [exact H1 | exact H2].
Defined.

(** X7. A non-empty text without any ["Z"] goes to
    [datetime.fromisoformat] as it is, fraction and offset included. *)
Theorem parse_date_passes_through :
  ∀ (iso : string → option datetime) (s : string),
    s ≠ "" →
    Str.contains "Z" s = false →
    _parse_date iso (Some s) = iso s.
Proof.
  intros iso s Hs Hz. unfold _parse_date.
  replace (Str.truthy (Some s)) with true by (by destruct s).
  cbn [negb default from_option]. change (Datatypes.id s) with s.
  rewrite Hz, andb_false_r.
  destruct (Str.endswith "Z" s) eqn:E; [|done].
  apply endswith_contains in E. congruence.
Qed.

Lemma parse_date_passes_through_witness :
  _parse_date Demo.iso (Some "2000-01-01T00:00:00+00:00")
  = Some (mkDatetime 946684800000000 true).
Proof.
  apply (parse_date_passes_through Demo.iso "2000-01-01T00:00:00+00:00");
    [discriminate | reflexivity].
Defined.

(** ** The client *)

Lemma rstrip_slash_app_slash u : rstrip_slash (u +:+ "/") = rstrip_slash u.
Proof.
  induction u as [|a u IH]; [reflexivity|].
  change (String a u +:+ "/") with (String a (u +:+ "/")).
  cbn [rstrip_slash]. by rewrite IH.
Qed.

Lemma rstrip_slash_no_slash u : Str.endswith "/" (rstrip_slash u) = false.
Proof.
  induction u as [|a u IH]; [reflexivity|].
  cbn [rstrip_slash]. destruct (rstrip_slash u) as [|b r] eqn:E.
  - destruct (Ascii.eqb a "/") eqn:Ea; [reflexivity|]. simpl. exact Ea.
  - exact IH.
Qed.

Lemma rstrip_slash_fixed u : Str.endswith "/" u = false → rstrip_slash u = u.
Proof.
  induction u as [|a u IH]; [reflexivity|].
  intros H. cbn [rstrip_slash]. destruct u as [|b u].
  - simpl in *. by rewrite H.
  - rewrite IH by exact H. reflexivity.
Qed.

Lemma lstrip_slash_no_slash e : startswith "/" (lstrip_slash e) = false.
Proof.
  induction e as [|a e IH]; [reflexivity|].
  simpl. destruct (Ascii.eqb a "/") eqn:Ea; [exact IH | simpl; exact Ea].
Qed.

(** X8. The URL of a request does not depend on trailing slashes of the
    configured [url] nor on leading slashes of the endpoint: the base
    kept by the client never ends in a slash, the path put after
    [/api/v3/] never starts with one, and a [url] without trailing slash
    is kept as it is. *)
Theorem url_is_normalised :
  ∀ (name url api_key endpoint : string),
    _url (ArrClient_init name (url +:+ "/") api_key) endpoint
    = _url (ArrClient_init name url api_key) endpoint
    ∧ _url (ArrClient_init name url api_key) ("/" +:+ endpoint)
      = _url (ArrClient_init name url api_key) endpoint
    ∧ Str.endswith "/" (client_base (ArrClient_init name url api_key)) = false
    ∧ startswith "/" (lstrip_slash endpoint) = false
    ∧ (Str.endswith "/" url = false →
       _url (ArrClient_init name url api_key) endpoint
       = url +:+ "/api/v3/" +:+ lstrip_slash endpoint).
Proof.
  intros name url api_key endpoint. unfold _url, ArrClient_init. simpl.
  split; [by rewrite rstrip_slash_app_slash|].
  split; [done|].
  split; [apply rstrip_slash_no_slash|].
  split; [apply lstrip_slash_no_slash|].
  intros H. by rewrite rstrip_slash_fixed.
Qed.

Lemma url_is_normalised_witness :
  _url (ArrClient_init "tv" "http://tv:8989//" "k") "/wanted/missing"
  = "http://tv:8989/api/v3/wanted/missing"
  ∧ _url (ArrClient_init "tv" "http://tv:8989" "k") "wanted/missing"
    = "http://tv:8989" +:+ "/api/v3/" +:+ lstrip_slash "wanted/missing".
Proof.
  split; [reflexivity|].
  apply (proj2 (proj2 (proj2 (proj2
           (url_is_normalised "tv" "http://tv:8989" "k" "wanted/missing"))))).
  reflexivity.
Defined.

(** X9. [check_connection] never raises: it issues the one
    [system/status] query, leaves the ledger alone, and answers [False]
    whenever the query fails; it answers [True] only for a query that
    was answered. *)
Theorem check_connection_never_raises :
  ∀ (W : Type) (env : Env W) (c : ArrClient) (s : Sys W),
    ∃ (b ok : bool) (w : W),
      check_connection env c s = (Ok b, mkSys (db s) w, [EvGet c SystemStatus ok])
      ∧ w = (session_get env c SystemStatus (world s)).2
      ∧ (ok = true ↔ is_Some (session_get env c SystemStatus (world s)).1)
      ∧ (b = true → ok = true).
Proof.
  intros W env c s.
  unfold check_connection, try_except, bind, ArrClient_get, ret.
  destruct (session_get env c SystemStatus (world s)) as [[body|] w]; simpl.
  - exists true, true, w. split; [done|]. split; [done|].
    split; [|done]. split; [by eexists | done].
  - exists false, false, w. split; [done|]. split; [done|].
    split; [|done]. split; [done | by intros [? [=]]].
Qed.

(** ** The anatomy of a hunt *)

Section Anatomy.

Context {W : Type} (env : Env W).
Variables (hk : HuntKind) (client : ArrClient) (instance : string).

Let reading (t : Z) : Prop := ∃ w, t = (clock env w).1.

(** The search loop of a real run, with the instants of its entries:
    each is a reading of the clock. *)
Lemma search_loop_readings to_search :
  ∀ n s, ∃ (outcomes : list (option Z)) (s' : Sys W),
    length outcomes = length to_search
    ∧ search_loop env hk client instance false to_search n s
      = (Ok (n + successes outcomes), s',
         batch_events hk client instance to_search outcomes)
    ∧ db s' = batch_db hk instance (db s) to_search outcomes
    ∧ Forall (λ o, ∀ t, o = Some t → reading t) outcomes.
Proof.
  induction to_search as [|x rest IH]; intros n s.
  - exists [], s. simpl. unfold ret, successes. simpl. rewrite Z.add_0_r.
    by repeat split.
  - cbn [search_loop]. unfold bind at 1. rewrite search_one_live.
    destruct (session_post env client (hk_command hk (id x)) (world s)) as [[|] w1].
    + destruct (IH (n + 1)
        (mkSys (mark_searched (db s) (clock env w1).1 (hk_app hk) instance (pretty (id x)))
               (clock env w1).2)) as (os & s' & Hlen & Hrun & Hdb & Hread).
      exists (Some (clock env w1).1 :: os), s'. rewrite Hrun. simpl.
      split; [by rewrite Hlen|]. split.
      { f_equal. f_equal. f_equal. unfold successes. simpl. lia. }
      split; [done|]. constructor; [|done]. intros t [= <-]. by exists w1.
    + destruct (IH n (mkSys (db s) w1)) as (os & s' & Hlen & Hrun & Hdb & Hread).
      exists (None :: os), s'. rewrite Hrun. simpl.
      split; [by rewrite Hlen|]. split; [done|]. split; [done|].
      by constructor.
Qed.

(** The ledger filter, when it returns, keeps only items that were not
    recently searched at the reading of the clock made for them: the
    reading number [j] for the item at position [j]. *)
Lemma filter_unsearched_kept items :
  ∀ s l s' evs,
    filter_unsearched env hk instance items s = (Ok l, s', evs) →
    evs = [] ∧ db s' = db s ∧ l `sublist_of` items
    ∧ Forall (λ x, ∃ j, items !! j = Some x
                        ∧ is_searched (db s) (clock env (tick env j (world s))).1
                            (hk_app hk) instance (pretty (id x)) = Ok false) l.
Proof.
  induction items as [|x items IH]; intros s l s' evs.
  - intros [= <- <- <-]. by repeat split.
  - cbn [filter_unsearched]. unfold bind at 1. rewrite StateDB_is_searched_eq.
    destruct (is_searched _ _ _ _ _) as [b|e] eqn:E; [|done].
    destruct (filter_unsearched env hk instance items
                (mkSys (db s) (clock env (world s)).2)) as [[r1 s1] l1] eqn:Hrest.
    unfold bind. rewrite Hrest. destruct r1 as [rest|e]; [|done].
    destruct (IH _ _ _ _ Hrest) as (-> & Hdb & Hsub & Hall).
    unfold ret. intros [= <- <- <-]. split; [done|]. split; [done|].
    assert (Hrest_ok : Forall (λ y, ∃ j, (x :: items) !! j = Some y
                         ∧ is_searched (db s) (clock env (tick env j (world s))).1
                             (hk_app hk) instance (pretty (id y)) = Ok false) rest).
    { eapply Forall_impl; [exact Hall|]. intros y (j & Hj & Hy). by exists (S j). }
    destruct b.
    + split; [by apply sublist_cons | done].
    + split; [by apply sublist_skip|]. constructor; [|done]. by exists 0%nat.
Qed.

Lemma Forall_list_filter_true {A : Type} (p : A → bool) (l : list A) :
  Forall (λ x, p x = true) (List.filter p l).
Proof.
  induction l as [|x l IH]; simpl; [done|].
  destruct (p x) eqn:E; [by constructor | done].
Qed.

Lemma list_filter_sublist {A : Type} (p : A → bool) (l : list A) :
  List.filter p l `sublist_of` l.
Proof.
  induction l as [|y ys IH]; [reflexivity|].
  cbn [List.filter]. destruct (p y); [by apply sublist_skip | by apply sublist_cons].
Qed.

Lemma Forall_sublist {A : Type} (P : A → Prop) (l k : list A) :
  l `sublist_of` k → Forall P k → Forall P l.
Proof.
  intros Hsub Hk. apply Forall_forall. intros x Hx.
  rewrite Forall_forall in Hk. apply Hk. by eapply elem_of_sublist.
Qed.

(** The future filter, when it returns, keeps only items its test kept. *)
Lemma filter_future_kept skip items (s : Sys W) l s' evs :
  filter_future env hk skip items s = (Ok l, s', evs) →
  evs = [] ∧ db s' = db s ∧ l `sublist_of` items
  ∧ (∀ nf, skip = true → hk_not_future hk = Some nf →
           Forall (λ x, nf (clock env (world s)).1 x = Ok true) l).
Proof.
  intros Hrun.
  destruct (filter_future_frame env hk _ _ _ _ _ _ Hrun) as (-> & Hdb & Hsub).
  split; [done|]. split; [done|]. split; [by apply Hsub|].
  intros nf -> Hnf. rewrite (filter_future_missing env hk nf true items s Hnf) in Hrun.
  injection Hrun as Hl _. apply filter_raising_ok in Hl. subst l.
  eapply Forall_impl; [apply Forall_list_filter_true|].
  intros x Hx. by apply bool_decide_eq_true in Hx.
Qed.

(** The candidates of a hunt, step by step: the page drawn, the page
    fetched, what the monitored and the future filter kept of it, what
    the ledger filter kept of that.  The candidates are records of the
    page, in their order; they passed the monitored test when
    [monitored_only], the future test at the reading of the clock made
    before it when [skip_future], and were not recently searched at the
    reading of the clock made for them. *)
Lemma hunt_candidates_sound total mo sf (s : Sys W) cands s' evs :
  hunt_candidates env hk client instance total mo sf s = (Ok cands, s', evs) →
  ∃ page s1 body s2 kept s3,
    let q := page_request hk page (Paging.page_size total) mo in
    1 ≤ page ≤ Paging.total_pages total
    ∧ randint env 1 (Paging.total_pages total) s = (Ok page, s1, [])
    ∧ ArrClient_get env client q s1 = (Ok body, s2, [EvGet client q true])
    ∧ filter_future env hk sf (filter_monitored hk mo (default [] (records body))) s2
      = (Ok kept, s3, [])
    ∧ evs = [EvGet client q true]
    ∧ db s' = db s
    ∧ cands `sublist_of` default [] (records body)
    ∧ Forall (λ x,
        (mo = true → hk_monitored hk x = true)
        ∧ (∀ nf, sf = true → hk_not_future hk = Some nf →
                 nf (clock env (world s2)).1 x = Ok true)
        ∧ ∃ j, kept !! j = Some x
               ∧ is_searched (db s) (clock env (tick env j (world s3))).1
                   (hk_app hk) instance (pretty (id x)) = Ok false) cands.
Proof.
  unfold hunt_candidates. intros Hrun.
  destruct (randint_range env 1 (Paging.total_pages total) s (total_pages_ge_1 total))
    as (page & s0 & Hpage & Hdb0 & Hrange).
  rewrite (bind_ok _ _ _ _ _ _ Hpage) in Hrun. simpl in Hrun.
  set (q := page_request hk page (Paging.page_size total) mo) in *.
  destruct (ArrClient_get_cases env client q s0)
    as [(body & w & Hsession & Hget) | (w & _ & Hget)].
  2: { by rewrite (bind_raise _ _ _ _ _ _ Hget) in Hrun. }
  rewrite (bind_ok _ _ _ _ _ _ Hget) in Hrun. simpl in Hrun.
  set (items := filter_monitored hk mo (default [] (records body))) in *.
  destruct (filter_future env hk sf items (mkSys (db s0) w)) as [[rf sf'] lf] eqn:Hf.
  destruct rf as [kept|e].
  2: { by rewrite (bind_raise _ _ _ _ _ _ Hf) in Hrun. }
  rewrite (bind_ok _ _ _ _ _ _ Hf) in Hrun.
  destruct (filter_future_kept _ _ _ _ _ _ Hf) as (-> & Hdbf & Hsubf & Hfut).
  destruct (filter_unsearched env hk instance kept sf') as [[ru s2] lu] eqn:Hu.
  simpl in Hrun. injection Hrun as -> <- <-.
  destruct (filter_unsearched_kept _ _ _ _ _ Hu) as (-> & Hdbu & Hsubu & Hfresh).
  exists page, s0, body, (mkSys (db s0) w), kept, sf'. cbv zeta. fold q.
  split; [done|]. split; [done|]. split; [done|]. split; [done|].
  split; [done|].
  split; [by rewrite Hdbu, Hdbf, <- Hdb0|].
  assert (Hitems : items `sublist_of` default [] (records body)).
  { unfold items, filter_monitored. destruct mo; [|reflexivity].
    apply list_filter_sublist. }
  split; [transitivity kept; [done|]; by transitivity items|].
  apply Forall_forall. intros x Hx. split; [|split].
  - intros ->. unfold items, filter_monitored in Hsubf.
    assert (Hin : x ∈ List.filter (hk_monitored hk) (default [] (records body)))
      by (eapply elem_of_sublist; [|exact Hsubf]; by eapply elem_of_sublist).
    pose proof (Forall_list_filter_true (hk_monitored hk) (default [] (records body))) as Hm.
    rewrite Forall_forall in Hm. by apply Hm.
  - intros nf Hsf Hnf. specialize (Hfut nf Hsf Hnf).
    rewrite Forall_forall in Hfut. apply Hfut. by eapply elem_of_sublist.
  - rewrite Forall_forall in Hfresh. destruct (Hfresh x Hx) as (j & Hj & Hw).
    exists j. split; [done|]. simpl in Hdbf. by rewrite <- Hdb0, <- Hdbf.
Qed.

(** A hunt, laid out: at most two queries, then the turns of its batch,
    over a selection of at most [limit] of its candidates. *)
Lemma hunt_anatomy limit mo sf dry (s : Sys W) r s' evs :
  hunt env hk client instance limit mo sf dry s = (r, s', evs) →
  ∃ gets to_search outcomes,
    evs = gets ++ batch_events hk client instance to_search outcomes
    ∧ Forall (λ e, ∃ page page_size ok,
                e = EvGet client (page_request hk page page_size mo) ok) gets
    ∧ (length gets ≤ 2)%nat
    ∧ (length outcomes ≤ length to_search)%nat
    ∧ (dry = true → outcomes = [])
    ∧ (0 ≤ limit → Z.of_nat (length to_search) ≤ limit)
    ∧ db s' = batch_db hk instance (db s) to_search outcomes
    ∧ Forall (λ o, ∀ t, o = Some t → reading t) outcomes
    ∧ (to_search = []
       ∨ ∃ count s0 s1 evs1 cands,
           ArrClient_get env client (count_request hk mo) s
           = (Ok count, s0, [EvGet client (count_request hk mo) true])
           ∧ db s0 = db s
           ∧ hunt_candidates env hk client instance (default 0 (totalRecords count))
               mo sf s0 = (Ok cands, s1, evs1)
           ∧ to_search ⊆+ cands).
Proof.
  intros Hrun. unfold hunt in Hrun.
  assert (Hquiet : ∀ gets,
    evs = gets →
    Forall (λ e, ∃ page page_size ok,
              e = EvGet client (page_request hk page page_size mo) ok) gets →
    (length gets ≤ 2)%nat → db s' = db s →
    ∃ gets to_search outcomes,
      evs = gets ++ batch_events hk client instance to_search outcomes
      ∧ Forall (λ e, ∃ page page_size ok,
                  e = EvGet client (page_request hk page page_size mo) ok) gets
      ∧ (length gets ≤ 2)%nat
      ∧ (length outcomes ≤ length to_search)%nat
      ∧ (dry = true → outcomes = [])
      ∧ (0 ≤ limit → Z.of_nat (length to_search) ≤ limit)
      ∧ db s' = batch_db hk instance (db s) to_search outcomes
      ∧ Forall (λ o, ∀ t, o = Some t → reading t) outcomes
      ∧ (to_search = []
         ∨ ∃ count s0 s1 evs1 cands,
             ArrClient_get env client (count_request hk mo) s
             = (Ok count, s0, [EvGet client (count_request hk mo) true])
             ∧ db s0 = db s
             ∧ hunt_candidates env hk client instance (default 0 (totalRecords count))
                 mo sf s0 = (Ok cands, s1, evs1)
             ∧ to_search ⊆+ cands)).
  { intros gets -> Hgets Hlen Hdb. exists gets, [], [].
    rewrite app_nil_r. repeat (split; [first [done | simpl; lia]|]). by left. }
  assert (Hq0 : ∀ ok, ∃ page page_size ok',
             EvGet client (count_request hk mo) ok
             = EvGet client (page_request hk page page_size mo) ok')
    by (intros ok; by exists 1, 1, ok).
  destruct (ArrClient_get_cases env client (count_request hk mo) s)
    as [(body & w & _ & Hget) | (w & _ & Hget)].
  2: { rewrite (bind_raise _ _ _ _ _ _ Hget) in Hrun. injection Hrun as <- <- <-.
       eapply Hquiet; [reflexivity | by repeat constructor | simpl; lia | done]. }
  rewrite (bind_ok _ _ _ _ _ _ Hget) in Hrun. simpl in Hrun.
  destruct (default 0 (totalRecords body) =? 0) eqn:Etotal.
  { injection Hrun as <- <- <-.
    eapply Hquiet; [reflexivity | by repeat constructor | simpl; lia | done]. }
  set (total := default 0 (totalRecords body)) in *.
  set (s0 := mkSys (db s) w) in *.
  destruct (hunt_candidates env hk client instance total mo sf s0)
    as [[rc s1] lc] eqn:Hc.
  destruct (hunt_candidates_cases env hk client instance _ _ _ _ _ _ _ Hc)
    as (Hdb1 & page & _ & Hlc).
  assert (Hgets : ∃ ok, lc = [EvGet client
                  (page_request hk page (Paging.page_size total) mo) ok]).
  { destruct Hlc as [(_ & ->) | ->]; by eexists. }
  destruct Hgets as [ok ->].
  assert (Hpair : Forall (λ e, ∃ page page_size ok,
                    e = EvGet client (page_request hk page page_size mo) ok)
                  [EvGet client (count_request hk mo) true;
                   EvGet client (page_request hk page (Paging.page_size total) mo) ok]).
  { constructor; [apply Hq0|]. constructor; [by eexists _, _, _ | done]. }
  destruct rc as [cands|e].
  2: { rewrite (bind_raise _ _ _ _ _ _ Hc) in Hrun. simpl in Hrun.
       injection Hrun as <- <- <-.
       eapply Hquiet; [reflexivity | done | simpl; lia | done]. }
  rewrite (bind_ok _ _ _ _ _ _ Hc) in Hrun. simpl in Hrun.
  destruct (hunt_batch env hk client instance limit dry cands s1)
    as [[rb sb] lb] eqn:Hb.
  simpl in Hrun. injection Hrun as <- <- <-.
  destruct (hunt_batch_cases env hk client instance _ _ _ _ _ _ _ Hb)
    as [(-> & -> & -> & ->) | [(? & ? & -> & -> & ->)
        | (l & s2 & Hl & Hne & Hsub & Hlen & Hdb2 & Hloop)]].
  - eapply Hquiet; [reflexivity | done | simpl; lia | done].
  - eapply Hquiet; [reflexivity | done | simpl; lia | done].
  - clear Hquiet. destruct dry.
    + rewrite search_loop_dry in Hloop. injection Hloop as <- <- <-.
      eexists [_; _], l, []. split; [by destruct l|]. split; [done|].
      split; [simpl; lia|]. split; [simpl; lia|]. split; [done|].
      split; [lia|]. split; [rewrite Hdb2, Hdb1; by destruct l|].
      split; [done|]. right. eexists body, s0, s1, _, cands.
      split; [exact Hget|]. split; [done|]. split; [exact Hc | done].
    + destruct (search_loop_readings l 0 s2) as (os & s3 & Hos & Hrun' & Hdb' & Hread).
      rewrite Hrun' in Hloop. injection Hloop as <- <- <-.
      eexists [_; _], l, os. split; [done|]. split; [done|].
      split; [simpl; lia|]. split; [lia|]. split; [done|].
      split; [lia|]. split; [by rewrite Hdb', Hdb2, Hdb1|].
      split; [done|]. right. eexists body, s0, s1, _, cands.
      split; [exact Hget|]. split; [done|]. split; [exact Hc | done].
Qed.

End Anatomy.

(** ** What a hunt posts *)

Section Posts.

Context {W : Type} (env : Env W).
Variables (hk : HuntKind) (client : ArrClient) (instance : string).

(** The search command of the kind names the one id it is given. *)
Hypothesis Hcommand :
  (∀ i, hk_command hk i = EpisodeSearch [i]) ∨ (∀ i, hk_command hk i = MoviesSearch [i]).

Lemma posted_ids_app l1 l2 : posted_ids (l1 ++ l2) = posted_ids l1 ++ posted_ids l2.
Proof. unfold posted_ids. apply flat_map_app. Qed.

Lemma accepted_ids_app l1 l2 : accepted_ids (l1 ++ l2) = accepted_ids l1 ++ accepted_ids l2.
Proof. unfold accepted_ids. apply flat_map_app. Qed.

Lemma posted_ids_gets gets :
  Forall (λ e, Events.is_get e = true) gets → posted_ids gets = [].
Proof.
  induction 1 as [|e gets He _ IH]; [done|].
  destruct e; first [done | exact IH].
Qed.

Lemma accepted_ids_gets gets :
  Forall (λ e, Events.is_get e = true) gets → accepted_ids gets = [].
Proof.
  induction 1 as [|e gets He _ IH]; [done|].
  destruct e; first [done | exact IH].
Qed.

(** A batch posts the ids of the items it took its turns on, in order. *)
Lemma posted_ids_batch xs :
  ∀ os, posted_ids (batch_events hk client instance xs os)
        = id <$> take (length os) xs.
Proof.
  induction xs as [|x xs IH]; intros [|o os]; try done.
  cbn [batch_events]. rewrite posted_ids_app, IH. cbn [length take fmap list_fmap].
  destruct o as [t|]; cbn [turn_events posted_ids flat_map];
    destruct Hcommand as [Hc | Hc]; rewrite Hc; reflexivity.
Qed.

(** An accepted id belongs to a turn that wrote its entry. *)
Lemma accepted_ids_batch xs :
  ∀ os i, i ∈ accepted_ids (batch_events hk client instance xs os) →
          ∃ j x t, xs !! j = Some x ∧ os !! j = Some (Some t) ∧ id x = i.
Proof.
  induction xs as [|x xs IH]; intros [|o os] i Hi; try by apply elem_of_nil in Hi.
  cbn [batch_events] in Hi. rewrite accepted_ids_app in Hi.
  apply elem_of_app in Hi as [Hi | Hi].
  - destruct o as [t|]; cbn [turn_events accepted_ids flat_map] in Hi.
    + exists 0%nat, x, t. split; [done|]. split; [done|].
      destruct Hcommand as [Hc | Hc]; rewrite Hc in Hi; simpl in Hi;
        apply list_elem_of_singleton in Hi; done.
    + destruct Hcommand as [Hc | Hc]; rewrite Hc in Hi; simpl in Hi;
        by apply elem_of_nil in Hi.
  - destruct (IH os i Hi) as (j & y & t & ? & ? & ?). by exists (S j), y, t.
Qed.

(** What the turns of a batch leave in the ledger: the TTL is untouched,
    a row that is there stays there, with an instant that is its old one
    or one of the batch, and the item of an accepted turn has a row. *)
Lemma ttl_batch_db xs : ∀ os st, ttl_hours (batch_db hk instance st xs os) = ttl_hours st.
Proof.
  induction xs as [|x xs IH]; intros [|o os] st; try done.
  cbn [batch_db]. rewrite IH. by destruct o.
Qed.

Lemma batch_db_keeps (P : Z → Prop) xs :
  ∀ os st k t0,
    Forall (λ o, ∀ t, o = Some t → P t) os →
    rows st !! k = Some t0 → P t0 →
    ∃ t', rows (batch_db hk instance st xs os) !! k = Some t' ∧ P t'.
Proof.
  induction xs as [|x xs IH]; intros [|o os] st k t0 Hos Hk Ht0; try by eauto.
  cbn [batch_db]. apply Forall_cons in Hos as [Ho Hos].
  destruct o as [t|]; cbn [turn_db]; [|by eapply IH].
  destruct (decide (k = (hk_app hk, instance, pretty (id x)))) as [-> | Hne].
  - eapply (IH os _ _ t); [done | | by apply Ho].
    unfold mark_searched; simpl. by rewrite lookup_insert_eq.
  - eapply (IH os _ _ t0); [done | | done].
    unfold mark_searched; simpl. by rewrite lookup_insert_ne.
Qed.

Lemma batch_db_written (P : Z → Prop) xs :
  ∀ os st j x t,
    Forall (λ o, ∀ t, o = Some t → P t) os →
    xs !! j = Some x → os !! j = Some (Some t) →
    ∃ t', rows (batch_db hk instance st xs os) !! (hk_app hk, instance, pretty (id x))
          = Some t' ∧ P t'.
Proof.
  induction xs as [|x0 xs IH]; intros [|o os] st j x t Hos Hx Ho; try done.
  cbn [batch_db]. pose proof Hos as Hos'. apply Forall_cons in Hos' as [Ho0 Hos'].
  destruct j as [|j]; simplify_eq/=.
  - eapply (batch_db_keeps P xs os _ _ t); [done | | by apply Ho0].
    unfold mark_searched; simpl. by rewrite lookup_insert_eq.
  - by eapply IH.
Qed.

End Posts.

Lemma hunt_kinds_command {W : Type} (env : Env W) hk :
  hk ∈ hunt_kinds env →
  (∀ i, hk_command hk i = EpisodeSearch [i]) ∨ (∀ i, hk_command hk i = MoviesSearch [i]).
Proof.
  unfold hunt_kinds. rewrite !elem_of_cons, elem_of_nil.
  intros [-> | [-> | [-> | [-> | []]]]]; first [by left | by right].
Qed.

Lemma gets_are_gets client hk mo gets :
  Forall (λ e, ∃ page page_size ok,
            e = EvGet client (page_request hk page page_size mo) ok) gets →
  Forall (λ e, Events.is_get e = true) gets.
Proof. intros H. eapply Forall_impl; [exact H|]. by intros e (? & ? & ? & ->). Qed.

Lemma count_gets_length evs :
  Forall (λ e, Events.is_get e = true) evs →
  Events.count Events.is_get evs = Z.of_nat (length evs).
Proof.
  unfold Events.count. induction 1 as [|e evs He _ IH]; [done|].
  simpl. rewrite He. simpl. lia.
Qed.

Lemma count_is_get_batch hk client instance xs :
  ∀ os, Events.count Events.is_get (batch_events hk client instance xs os) = 0.
Proof.
  unfold Events.count.
  induction xs as [|x xs IH]; intros [|o os]; try done.
  cbn [batch_events]. rewrite List.filter_app, length_app.
  specialize (IH os). destruct o; simpl in *; lia.
Qed.

Lemma count_is_trigger_batch hk client instance xs :
  ∀ os, (length os ≤ length xs)%nat →
        Events.count Events.is_trigger (batch_events hk client instance xs os)
        = Z.of_nat (length os).
Proof.
  unfold Events.count.
  induction xs as [|x xs IH]; intros [|o os] Hlen; simpl in *; try done; [lia|].
  specialize (IH os ltac:(lia)). destruct o; simpl in *; lia.
Qed.

Lemma count_is_mark_batch hk client instance xs :
  ∀ os, Events.count Events.is_mark (batch_events hk client instance xs os)
        ≤ Events.count Events.is_trigger (batch_events hk client instance xs os).
Proof.
  unfold Events.count.
  induction xs as [|x xs IH]; intros [|o os]; simpl in *; try done.
  specialize (IH os). destruct o; simpl in *; lia.
Qed.

(** The counts of the events of a hunt, from its anatomy. *)
Lemma anatomy_counts hk client instance mo gets ts os :
  Forall (λ e, ∃ page page_size ok,
            e = EvGet client (page_request hk page page_size mo) ok) gets →
  (length os ≤ length ts)%nat →
  let evs := gets ++ batch_events hk client instance ts os in
  Events.count Events.is_get evs = Z.of_nat (length gets)
  ∧ Events.count Events.is_trigger evs = Z.of_nat (length os)
  ∧ Events.count Events.is_mark evs ≤ Z.of_nat (length os).
Proof.
  intros Hgets Hos evs. subst evs. apply gets_are_gets in Hgets.
  rewrite !count_app, count_is_get_batch, (count_gets_length gets Hgets).
  rewrite (count_gets Events.is_trigger gets) by (by intros [] || done).
  rewrite (count_gets Events.is_mark gets) by (by intros [] || done).
  rewrite count_is_trigger_batch by done.
  pose proof (count_is_mark_batch hk client instance ts os) as Hmark.
  rewrite count_is_trigger_batch in Hmark by done.
  split; [lia|]. split; lia.
Qed.

(** X10. The work of a hunt is bounded: however it ends, it has made at
    most two GET queries and, for a limit that is not negative, posted
    at most [limit] search commands; it never writes more ledger entries
    than it posted commands, and in a dry run it posts none. *)
Theorem hunt_work_is_bounded :
  ∀ (W : Type) (env : Env W) hk client instance limit monitored_only skip_future
    dry_run (s s' : Sys W) r evs,
    hunt env hk client instance limit monitored_only skip_future dry_run s
    = (r, s', evs) →
    Events.count Events.is_get evs ≤ 2
    ∧ (0 ≤ limit → Events.count Events.is_trigger evs ≤ limit)
    ∧ Events.count Events.is_mark evs ≤ Events.count Events.is_trigger evs
    ∧ (dry_run = true → Events.count Events.is_trigger evs = 0).
Proof.
  intros W env hk client instance limit mo sf dry s s' r evs Hrun.
  destruct (hunt_anatomy env hk client instance _ _ _ _ _ _ _ _ Hrun)
    as (gets & ts & os & -> & Hgets & Hlen & Hos & Hdry & Hlimit & _).
  destruct (anatomy_counts hk client instance mo gets ts os Hgets Hos)
    as (Hg & Ht & Hm).
  rewrite Hg, Ht.
  split; [lia|]. split; [intros H; specialize (Hlimit H); lia|].
  split; [lia|]. intros ->. by rewrite (Hdry eq_refl).
Qed.

(** Three candidates, a limit of 2. *)
Lemma hunt_work_is_bounded_witness :
  let env := Demo.env Demo.get_three Demo.post_rejects_2 Demo.iso in
  let out := sonarr_hunt_missing env (Demo.client "tv") "tv" 2 true true false
               (Demo.start ∅ []) in
  Events.count Events.is_get out.2 ≤ 2
  ∧ Events.count Events.is_trigger out.2 ≤ 2.
Proof.
  intros env out.
  assert (Hrun : hunt env (SonarrMissing env) (Demo.client "tv") "tv" 2 true true false
                   (Demo.start ∅ []) = (out.1.1, out.1.2, out.2))
    by (subst out; unfold sonarr_hunt_missing;
        by destruct (hunt env _ _ _ _ _ _ _ _) as [[??]?]).
  destruct (hunt_work_is_bounded _ env _ _ _ _ _ _ _ _ _ _ _ Hrun) as (Hg & Hp & _).
  split; [exact Hg | apply Hp; lia].
Defined.

(** A posted id is the id of a candidate of the hunt. *)
Lemma posted_ids_from_candidates {W : Type} (env : Env W) hk client instance limit mo sf
    dry (s s' : Sys W) r evs i :
  hk ∈ hunt_kinds env →
  hunt env hk client instance limit mo sf dry s = (r, s', evs) →
  i ∈ posted_ids evs →
  ∃ x count s0 s1 evs1 cands,
    id x = i
    ∧ ArrClient_get env client (count_request hk mo) s
      = (Ok count, s0, [EvGet client (count_request hk mo) true])
    ∧ db s0 = db s
    ∧ hunt_candidates env hk client instance (default 0 (totalRecords count)) mo sf s0
      = (Ok cands, s1, evs1)
    ∧ x ∈ cands.
Proof.
  intros Hk Hrun Hi.
  pose proof (hunt_kinds_command env hk Hk) as Hcmd.
  destruct (hunt_anatomy env hk client instance _ _ _ _ _ _ _ _ Hrun)
    as (gets & ts & os & -> & Hgets & _ & _ & _ & _ & _ & _ & Hts).
  rewrite posted_ids_app, (posted_ids_gets gets) in Hi by (by eapply gets_are_gets).
  rewrite app_nil_l, (posted_ids_batch hk client instance Hcmd) in Hi.
  apply list_elem_of_fmap in Hi as (x & -> & Hx).
  assert (Hin : x ∈ ts) by (eapply elem_of_sublist; [exact Hx | apply sublist_take]).
  destruct Hts as [-> | (count & s0 & s1 & evs1 & cands & Hget & Hdb0 & Hc & Hsub)];
    [by apply elem_of_nil in Hin|].
  exists x, count, s0, s1, evs1, cands.
  split; [done|]. split; [done|]. split; [done|]. split; [done|].
  by eapply elem_of_submseteq.
Qed.

(** X11. What a hunt posts, it has reason to post.  Every id in a search
    command of the hunt is the id of a record [x] of the page this hunt
    fetched, after its count query and for the page number it drew;
    [x] passed the monitored test when [monitored_only] and, when
    [skip_future], the future test at the reading of the clock the hunt
    made after fetching the page; and [x], at some position [j] of what
    these two filters kept, was not recently searched in the ledger the
    hunt started with at the reading of the clock the ledger filter made
    for position [j], the one that follows [j] earlier readings. *)
Theorem posted_ids_are_candidates :
  ∀ (W : Type) (env : Env W) hk client instance limit monitored_only skip_future
    dry_run (s s' : Sys W) r evs i,
    hk ∈ hunt_kinds env →
    hunt env hk client instance limit monitored_only skip_future dry_run s
    = (r, s', evs) →
    i ∈ posted_ids evs →
    let q0 := count_request hk monitored_only in
    ∃ count s0 page s1 body s2 kept s3 x j,
      let total := default 0 (totalRecords count) in
      let q1 := page_request hk page (Paging.page_size total) monitored_only in
      ArrClient_get env client q0 s = (Ok count, s0, [EvGet client q0 true])
      ∧ randint env 1 (Paging.total_pages total) s0 = (Ok page, s1, [])
      ∧ ArrClient_get env client q1 s1 = (Ok body, s2, [EvGet client q1 true])
      ∧ filter_future env hk skip_future
          (filter_monitored hk monitored_only (default [] (records body))) s2
        = (Ok kept, s3, [])
      ∧ id x = i
      ∧ x ∈ default [] (records body)
      ∧ (monitored_only = true → hk_monitored hk x = true)
      ∧ (∀ not_future, skip_future = true → hk_not_future hk = Some not_future →
                       not_future (clock env (world s2)).1 x = Ok true)
      ∧ kept !! j = Some x
      ∧ is_searched (db s) (clock env (tick env j (world s3))).1
          (hk_app hk) instance (pretty i) = Ok false.
Proof.
  intros W env hk client instance limit mo sf dry s s' r evs i Hk Hrun Hi q0.
  destruct (posted_ids_from_candidates env _ _ _ _ _ _ _ _ _ _ _ _ Hk Hrun Hi)
    as (x & count & s0 & s4 & evs1 & cands & <- & Hget & Hdb0 & Hc & Hcand).
  destruct (hunt_candidates_sound env hk client instance _ _ _ _ _ _ _ Hc)
    as (page & s1 & body & s2 & kept & s3 & _ & Hpage & Hget1 & Hf & _ & _ & Hsub & Hall).
  rewrite Forall_forall in Hall.
  destruct (Hall x Hcand) as (Hmon & Hfut & j & Hj & Hfresh).
  exists count, s0, page, s1, body, s2, kept, s3, x, j. cbv zeta.
  split; [exact Hget|]. split; [exact Hpage|]. split; [exact Hget1|].
  split; [exact Hf|]. split; [done|].
  split; [by eapply elem_of_sublist|]. split; [done|]. split; [done|].
  split; [done|]. by rewrite <- Hdb0.
Qed.

(** X12. Within one hunt no id is posted twice, provided the ids of the
    records of a page are pairwise distinct. *)
Theorem no_id_posted_twice :
  ∀ (W : Type) (env : Env W) hk client instance limit monitored_only skip_future
    dry_run (s s' : Sys W) r evs,
    ids_distinct env →
    hk ∈ hunt_kinds env →
    hunt env hk client instance limit monitored_only skip_future dry_run s
    = (r, s', evs) →
    NoDup (posted_ids evs).
Proof.
  intros W env hk client instance limit mo sf dry s s' r evs Hids Hk Hrun.
  pose proof (hunt_kinds_command env hk Hk) as Hcmd.
  destruct (hunt_anatomy env hk client instance _ _ _ _ _ _ _ _ Hrun)
    as (gets & ts & os & -> & Hgets & _ & _ & _ & _ & _ & _ & Hts).
  rewrite posted_ids_app, (posted_ids_gets gets) by (by eapply gets_are_gets).
  rewrite app_nil_l, (posted_ids_batch hk client instance Hcmd).
  destruct Hts as [-> | (count & s0 & s1 & evs1 & cands & _ & Hdb0 & Hc & Hsub)].
  { rewrite take_nil. apply NoDup_nil_2. }
  destruct (hunt_candidates_sound env hk client instance _ _ _ _ _ _ _ Hc)
    as (page & s2 & body & s3 & kept & s4 & _ & _ & Hget & _ & _ & _ & Hpage & _).
  assert (Hsession : session_get env client
                       (page_request hk page
                          (Paging.page_size (default 0 (totalRecords count))) mo)
                       (world s2) = (Some body, world s3)).
  { unfold ArrClient_get in Hget.
    destruct (session_get env client _ (world s2)) as [[b|] w]; [|done].
    by injection Hget as -> <-. }
  specialize (Hids _ _ _ _ _ Hsession).
  apply (sublist_NoDup _ (id <$> ts)); [|apply fmap_sublist, sublist_take].
  apply (submseteq_NoDup _ (id <$> cands)); [by apply fmap_submseteq|].
  apply (sublist_NoDup _ (id <$> default [] (records body))); [done|].
  by apply fmap_sublist.
Qed.

(** The records of the examples have pairwise distinct ids. *)
Lemma get_three_ids_distinct now post iso :
  ids_distinct (Still.env now Demo.get_three post iso).
Proof.
  intros c rq w body w' Hget. simpl in Hget.
  destruct rq; injection Hget as <- _; cbn [records default from_option].
  - apply NoDup_nil_2.
  - apply NoDup_ListNoDup. repeat constructor; simpl; intuition discriminate.
Qed.

Lemma posted_ids_are_candidates_witness :
  let env := Still.env Demo.june_1st Demo.get_three Demo.post_rejects_2 Demo.iso in
  let out := hunt env (SonarrMissing env) (Demo.client "tv") "tv" 5 true true false
               (Demo.start ∅ []) in
  posted_ids out.2 = [1; 2; 3]
  ∧ ∃ x w, id x = 2 ∧ episode_monitored x = true
           ∧ is_searched (mkStateDB 168 ∅) (clock env w).1 "sonarr" "tv" "2" = Ok false.
Proof.
  intros env out. split; [vm_compute; reflexivity|].
  assert (Hrun : hunt env (SonarrMissing env) (Demo.client "tv") "tv" 5 true true false
                   (Demo.start ∅ []) = (out.1.1, out.1.2, out.2))
    by (subst out; by destruct (hunt env _ _ _ _ _ _ _ _) as [[??]?]).
  assert (Hk : SonarrMissing env ∈ hunt_kinds env) by (by left).
  assert (Hi : 2 ∈ posted_ids out.2).
  { replace (posted_ids out.2) with [1; 2; 3] by (vm_compute; reflexivity).
    by right; left. }
  destruct (posted_ids_are_candidates _ env _ _ _ _ _ _ _ _ _ _ _ 2 Hk Hrun Hi)
    as (count & s0 & page & s1 & body & s2 & kept & s3 & x & j
        & _ & _ & _ & _ & Hid & _ & Hmon & _ & _ & Hfresh).
  exists x, (tick env j (world s3)). split; [exact Hid|].
  split; [by apply Hmon | exact Hfresh].
Defined.

Lemma no_id_posted_twice_witness :
  let env := Still.env Demo.june_1st Demo.get_three Demo.post_rejects_2 Demo.iso in
  let out := hunt env (SonarrMissing env) (Demo.client "tv") "tv" 5 true true false
               (Demo.start ∅ []) in
  NoDup (posted_ids out.2).
Proof.
  intros env out.
  assert (Hrun : hunt env (SonarrMissing env) (Demo.client "tv") "tv" 5 true true false
                   (Demo.start ∅ []) = (out.1.1, out.1.2, out.2))
    by (subst out; by destruct (hunt env _ _ _ _ _ _ _ _) as [[??]?]).
  assert (Hk : SonarrMissing env ∈ hunt_kinds env) by (by left).
  exact (no_id_posted_twice _ env _ _ _ _ _ _ _ _ _ _ _
           (get_three_ids_distinct _ _ _) Hk Hrun).
Defined.

(** X13. No re-trigger within the TTL.  Let all readings of the clock lie
    in a window shorter than the TTL.  If a real hunt had the search
    command for an id accepted, then a later hunt of the same kind on the
    same instance name, started with that id's ledger entry as the first
    hunt left it and with the same TTL, posts no command for that id,
    whatever page the server sends it. *)
Theorem no_retrigger_within_ttl :
  ∀ (W : Type) (env : Env W) hk client client' instance
    limit monitored_only skip_future limit' monitored_only' skip_future' dry_run'
    (T0 : Z) (s s1 s1' s2 : Sys W) r1 r2 evs1 evs2 (i : Z),
    hk ∈ hunt_kinds env →
    (∀ w, T0 ≤ (clock env w).1 < T0 + ttl_hours (db s) * us_per_hour) →
    hunt env hk client instance limit monitored_only skip_future false s
    = (r1, s1, evs1) →
    i ∈ accepted_ids evs1 →
    ttl_hours (db s1') = ttl_hours (db s) →
    rows (db s1') !! (hk_app hk, instance, pretty i)
    = rows (db s1) !! (hk_app hk, instance, pretty i) →
    hunt env hk client' instance limit' monitored_only' skip_future' dry_run' s1'
    = (r2, s2, evs2) →
    i ∉ posted_ids evs2.
Proof.
  intros W env hk client client' instance limit mo sf limit' mo' sf' dry'
    T0 s s1 s1' s2 r1 r2 evs1 evs2 i Hk Hclock Hrun1 Hacc Httl Hrow Hrun2 Hposted.
  pose proof (hunt_kinds_command env hk Hk) as Hcmd.
  (* the first hunt wrote the entry, at a reading of the clock *)
  destruct (hunt_anatomy env hk client instance _ _ _ _ _ _ _ _ Hrun1)
    as (gets & ts & os & -> & Hgets & _ & _ & _ & _ & Hdb1 & Hread & _).
  rewrite accepted_ids_app, (accepted_ids_gets gets) in Hacc
    by (by eapply gets_are_gets).
  rewrite app_nil_l in Hacc.
  destruct (accepted_ids_batch hk client instance Hcmd ts os i Hacc)
    as (j & x & t & Hx & Ho & <-).
  destruct (batch_db_written hk instance (λ t, T0 ≤ t) ts os (db s) j x t)
    as (t' & Hwritten & Ht'); [|done|done|].
  { eapply Forall_impl; [exact Hread|]. intros o Hreading t0 Ho0.
    destruct (Hreading t0 Ho0) as [w ->]. apply Hclock. }
  rewrite <- Hdb1, <- Hrow in Hwritten.
  (* the second hunt only posts what it found not recently searched *)
  destruct (posted_ids_from_candidates env _ _ _ _ _ _ _ _ _ _ _ _ Hk Hrun2 Hposted)
    as (y & count & s0 & s3 & evs3 & cands & Hy & _ & Hdb0 & Hc & Hcand).
  destruct (hunt_candidates_sound env hk client' instance _ _ _ _ _ _ _ Hc)
    as (page & s4 & body & s5 & kept & s6 & _ & _ & _ & _ & _ & _ & _ & Hall).
  rewrite Forall_forall in Hall. destruct (Hall y Hcand) as (_ & _ & j2 & _ & Hfresh).
  rewrite Hy in Hfresh. set (w := tick env j2 (world s6)) in *.
  rewrite Hdb0 in Hfresh.
  apply is_searched_inv in Hfresh as (c & Hcut & Hsel).
  apply cutoff_Ok in Hcut as [-> _].
  unfold select_after in Hsel. rewrite Hwritten in Hsel.
  symmetry in Hsel. apply bool_decide_eq_false in Hsel. apply Hsel.
  rewrite Httl. specialize (Hclock w). lia.
Qed.

(** Two hunts for missing episodes in a row, at a clock standing still:
    episode 1, accepted in the first, is not posted by the second. *)
Lemma no_retrigger_within_ttl_witness :
  let env := Still.env Demo.june_1st Demo.get_three Demo.post_rejects_2 Demo.iso in
  let first := hunt env (SonarrMissing env) (Demo.client "tv") "tv" 5 true true false
                 (Demo.start ∅ []) in
  let second := hunt env (SonarrMissing env) (Demo.client "tv") "tv" 5 true true false
                  first.1.2 in
  accepted_ids first.2 = [1; 3] ∧ posted_ids second.2 = [2] ∧ 1 ∉ posted_ids second.2.
Proof.
  intros env first second.
  split; [vm_compute; reflexivity|]. split; [vm_compute; reflexivity|].
  assert (Hk : SonarrMissing env ∈ hunt_kinds env) by (by left).
  assert (Hrun1 : hunt env (SonarrMissing env) (Demo.client "tv") "tv" 5 true true false
                    (Demo.start ∅ []) = (first.1.1, first.1.2, first.2))
    by (subst first; by destruct (hunt env _ _ _ _ _ _ _ _) as [[??]?]).
  assert (Hrun2 : hunt env (SonarrMissing env) (Demo.client "tv") "tv" 5 true true false
                    first.1.2 = (second.1.1, second.1.2, second.2))
    by (subst second; by destruct (hunt env _ _ _ _ _ _ _ first.1.2) as [[??]?]).
  assert (Hacc : 1 ∈ accepted_ids first.2).
  { replace (accepted_ids first.2) with [1; 3] by (vm_compute; reflexivity). by left. }
  refine (no_retrigger_within_ttl _ env _ _ _ _ _ _ _ _ _ _ _ Demo.june_1st
            _ _ _ _ _ _ _ _ 1 Hk _ Hrun1 Hacc _ _ Hrun2).
  - intros w. vm_compute. split; [discriminate | reflexivity].
  - vm_compute; reflexivity.
  - reflexivity.
Defined.

(** ** Instances that cost nothing *)

Lemma truthy_default o : Str.truthy (Some (default "" o)) = Str.truthy o.
Proof. by destruct o. Qed.

(** X14. An instance that lacks its [url] or its [api_key] is passed over
    without any request; one whose [system/status] query fails, or whose
    two limits are not positive, costs that one query; in all three
    cases the totals and the ledger are left as they were and the cycle
    goes on. *)
Theorem idle_instance :
  ∀ (W : Type) (env : Env W) (sonarr dry_run : bool) (inst_cfg : InstCfg)
    (totals : Totals) (s : Sys W),
    let c := instance_client sonarr inst_cfg in
    (Str.truthy (cfg_url inst_cfg) = false ∨ Str.truthy (cfg_api_key inst_cfg) = false →
     run_instance env sonarr dry_run inst_cfg totals s = (Ok totals, s, []))
    ∧ (∀ w,
        Str.truthy (cfg_url inst_cfg) = true →
        Str.truthy (cfg_api_key inst_cfg) = true →
        session_get env c SystemStatus (world s) = (None, w) →
        run_instance env sonarr dry_run inst_cfg totals s
        = (Ok totals, mkSys (db s) w, [EvGet c SystemStatus false]))
    ∧ (∀ body w,
        Str.truthy (cfg_url inst_cfg) = true →
        Str.truthy (cfg_api_key inst_cfg) = true →
        session_get env c SystemStatus (world s) = (Some body, w) →
        default 5 (cfg_hunt_missing inst_cfg) ≤ 0 →
        default 0 (cfg_hunt_upgrades inst_cfg) ≤ 0 →
        run_instance env sonarr dry_run inst_cfg totals s
        = (Ok totals, mkSys (db s) w, [EvGet c SystemStatus true])).
Proof.
  intros W env sonarr dry inst_cfg totals s c. unfold run_instance.
  rewrite !truthy_default. fold (instance_client sonarr inst_cfg). fold c.
  split; [|split].
  - intros [-> | ->]; [done | by rewrite orb_true_r].
  - intros w -> -> Hget. cbn [negb orb].
    unfold bind, check_connection, try_except, bind, ArrClient_get, ret.
    change (mkArrClient _ _ _) with c. by rewrite Hget.
  - intros body w -> -> Hget Hm Hu. cbn [negb orb].
    unfold bind at 1. unfold check_connection, try_except, bind at 1, ArrClient_get, ret.
    change (mkArrClient _ _ _) with c. rewrite Hget. cbn [negb].
    destruct (0 <? default 5 (cfg_hunt_missing inst_cfg)) eqn:E1;
      [apply Z.ltb_lt in E1; lia|].
    destruct (0 <? default 0 (cfg_hunt_upgrades inst_cfg)) eqn:E2;
      [apply Z.ltb_lt in E2; lia|].
    reflexivity.
Qed.

(** An instance without api key; an unreachable instance; an instance
    with both limits at 0. *)
Lemma idle_instance_witness :
  let env := Demo.env (λ _ _, None) (λ _ _, true) Demo.iso in
  let env' := Demo.env Demo.get_three (λ _ _, true) Demo.iso in
  let s := Demo.start ∅ [] in
  let no_key := mkInstCfg (Some "tv") (Some "http://tv") None None None None None in
  run_instance env true false no_key no_totals s = (Ok no_totals, s, [])
  ∧ run_instance env true false (Demo.instance "tv" 5) no_totals s
    = (Ok no_totals, s, [EvGet (Demo.client "tv") SystemStatus false])
  ∧ run_instance env' true false (Demo.instance "tv" 0) no_totals s
    = (Ok no_totals, s, [EvGet (Demo.client "tv") SystemStatus true]).
Proof.
  intros env env' s no_key. split; [|split].
  - apply (proj1 (idle_instance _ env true false no_key no_totals s)). by right.
  - apply (proj1 (proj2 (idle_instance _ env true false (Demo.instance "tv" 5)
                           no_totals s)) (world s)); reflexivity.
  - apply (proj2 (proj2 (idle_instance _ env' true false (Demo.instance "tv" 0)
                           no_totals s)) (mkPage None None) (world s));
      first [reflexivity | simpl; lia].
Defined.

(** ** The cycle, instance by instance *)

Section CycleFacts.

Context {W : Type} (env : Env W).

Lemma bind_events {A B : Type} (P Q R : list Event → Prop) (m : M W A) (f : A → M W B) :
  (∀ l1 l2, P l1 → Q l2 → R (l1 ++ l2)) →
  (∀ l, P l → R l) →
  (∀ s, P (m s).2) →
  (∀ a s, Q (f a s).2) →
  ∀ s, R (bind m f s).2.
Proof.
  intros Happ Hraise Hm Hf s. specialize (Hm s). unfold bind.
  destruct (m s) as [[[a|e] s1] l1]; simpl in *; [|by apply Hraise].
  specialize (Hf a s1). destruct (f a s1) as [[r s2] l2]; simpl in *. by apply Happ.
Qed.

Lemma bind_ret_events {A B : Type} (m : M W A) (g : A → B) s :
  (bind m (λ a, ret (g a)) s).2 = (m s).2.
Proof.
  unfold bind, ret. destruct (m s) as [[[a|e] s1] l1]; simpl; by rewrite ?app_nil_r.
Qed.

(** The events of one instance: at most the status query, then the
    events of a missing hunt when that limit is positive, then those of
    an upgrade hunt when that limit is positive. *)
Lemma run_instance_events sonarr dry inst_cfg t s :
  let hm := default 5 (cfg_hunt_missing inst_cfg) in
  let hu := default 0 (cfg_hunt_upgrades inst_cfg) in
  ∃ st evs_m evs_u,
    (run_instance env sonarr dry inst_cfg t s).2 = st ++ evs_m ++ evs_u
    ∧ (st = [] ∨ ∃ c b, st = [EvGet c SystemStatus b])
    ∧ (evs_m = []
       ∨ (0 < hm ∧ ∃ hk c name mo sf s0,
             hk ∈ [SonarrMissing env; RadarrMissing env]
             ∧ evs_m = (hunt env hk c name hm mo sf dry s0).2))
    ∧ (evs_u = []
       ∨ (0 < hu ∧ ∃ hk c name mo sf s0,
             hk ∈ [SonarrUpgrades; RadarrUpgrades]
             ∧ evs_u = (hunt env hk c name hu mo sf dry s0).2)).
Proof.
  intros hm hu. unfold run_instance.
  destruct (negb _ || negb _).
  { exists [], [], []. simpl. auto. }
  match goal with
  | |- context [check_connection env ?c] =>
      destruct (check_connection_spec env c s) as (b & w & Hc)
  end.
  unfold bind at 1. rewrite Hc. fold hm hu.
  destruct b; cbn [negb].
  2: { eexists [_], [], []. simpl. split; [reflexivity|].
       split; [right; eauto|]. split; by left. }
  match goal with
  | |- context [bind ?m ?f ?st] =>
      pose proof (bind_events
        (λ l, l = [] ∨ (0 < hm ∧ ∃ hk c name mo sf s0,
                 hk ∈ [SonarrMissing env; RadarrMissing env]
                 ∧ l = (hunt env hk c name hm mo sf dry s0).2))
        (λ l, l = [] ∨ (0 < hu ∧ ∃ hk c name mo sf s0,
                 hk ∈ [SonarrUpgrades; RadarrUpgrades]
                 ∧ l = (hunt env hk c name hu mo sf dry s0).2))
        (λ l, ∃ evs_m evs_u, l = evs_m ++ evs_u
                 ∧ (evs_m = [] ∨ (0 < hm ∧ ∃ hk c name mo sf s0,
                      hk ∈ [SonarrMissing env; RadarrMissing env]
                      ∧ evs_m = (hunt env hk c name hm mo sf dry s0).2))
                 ∧ (evs_u = [] ∨ (0 < hu ∧ ∃ hk c name mo sf s0,
                      hk ∈ [SonarrUpgrades; RadarrUpgrades]
                      ∧ evs_u = (hunt env hk c name hu mo sf dry s0).2)))
        m f) as Hboth;
      destruct (Hboth) with (s := st) as (evs_m & evs_u & Hevs & Hm & Hu);
      [ | | | | destruct (bind m f st) as [[r s2] l2] ]
  end.
  - intros l1 l2 H1 H2. by exists l1, l2.
  - intros l H1. exists l, []. rewrite app_nil_r. auto.
  - intros s0. destruct (0 <? hm) eqn:E; [|by left].
    right. split; [by apply Z.ltb_lt|]. rewrite bind_ret_events.
    destruct sonarr; eexists _, _, _, _, _, _; (split; [|reflexivity]).
    + by left.
    + by right; left.
  - intros t1 s0. destruct (0 <? hu) eqn:E; [|by left].
    right. split; [by apply Z.ltb_lt|]. rewrite bind_ret_events.
    destruct sonarr; eexists _, _, _, _, _, _; (split; [|reflexivity]).
    + by left.
    + by right; left.
  - simpl in *. subst l2. eexists [_], evs_m, evs_u.
    split; [reflexivity|]. split; [right; eauto|]. by split.
Qed.

(** *** Bounded work *)

Lemma bounded_work_nil : bounded_work 0 0 [].
Proof. by repeat split. Qed.

Lemma bounded_work_app p1 g1 p2 g2 l1 l2 :
  bounded_work p1 g1 l1 → bounded_work p2 g2 l2 →
  bounded_work (p1 + p2) (g1 + g2) (l1 ++ l2).
Proof.
  unfold bounded_work. rewrite !count_app. intros (? & ? & ?) (? & ? & ?).
  repeat split; lia.
Qed.

Lemma bounded_work_mono p g p' g' l :
  p ≤ p' → g ≤ g' → bounded_work p g l → bounded_work p' g' l.
Proof. unfold bounded_work. intros ? ? (? & ? & ?). repeat split; lia. Qed.

Lemma bounded_work_bind {A B : Type} p1 g1 p2 g2 (m : M W A) (f : A → M W B) :
  0 ≤ p2 → 0 ≤ g2 →
  (∀ s, bounded_work p1 g1 (m s).2) →
  (∀ a s, bounded_work p2 g2 (f a s).2) →
  ∀ s, bounded_work (p1 + p2) (g1 + g2) (bind m f s).2.
Proof.
  intros Hp Hg. apply bind_events.
  - apply bounded_work_app.
  - intros l. apply bounded_work_mono; lia.
Qed.

Lemma hunt_bounded_work hk c name limit mo sf dry s :
  0 ≤ limit → bounded_work limit 2 (hunt env hk c name limit mo sf dry s).2.
Proof.
  intros Hlimit.
  destruct (hunt env hk c name limit mo sf dry s) as [[r s'] evs] eqn:Hrun.
  destruct (hunt_anatomy env hk c name _ _ _ _ _ _ _ _ Hrun)
    as (gets & ts & os & -> & Hgets & Hlen & Hos & _ & Hbound & _).
  destruct (anatomy_counts hk c name mo gets ts os Hgets Hos) as (Hg & Ht & Hm).
  specialize (Hbound Hlimit). unfold bounded_work. simpl. rewrite Hg, Ht.
  repeat split; lia.
Qed.

Lemma instance_budget_nonneg inst_cfg : 0 ≤ instance_budget inst_cfg.
Proof. unfold instance_budget. lia. Qed.

Lemma instances_budget_nonneg insts : 0 ≤ instances_budget insts.
Proof.
  induction insts as [|c rest IH]; simpl; [done|].
  pose proof (instance_budget_nonneg c). lia.
Qed.

Lemma run_instance_bounded_work sonarr dry inst_cfg t s :
  bounded_work (instance_budget inst_cfg) 5 (run_instance env sonarr dry inst_cfg t s).2.
Proof.
  destruct (run_instance_events sonarr dry inst_cfg t s)
    as (st & evs_m & evs_u & -> & Hst & Hm & Hu).
  unfold instance_budget.
  apply (bounded_work_mono
           (0 + (Z.max 0 (default 5 (cfg_hunt_missing inst_cfg))
                 + Z.max 0 (default 0 (cfg_hunt_upgrades inst_cfg))))
           (1 + (2 + 2))); [lia | lia |].
  apply bounded_work_app; [|apply bounded_work_app].
  - destruct Hst as [-> | (c & b & ->)]; [|by repeat split].
    eapply bounded_work_mono; [| |apply bounded_work_nil]; lia.
  - destruct Hm as [-> | (Hpos & hk & c & name & mo & sf & s0 & _ & ->)].
    + eapply bounded_work_mono; [| |apply bounded_work_nil]; lia.
    + rewrite Z.max_r by lia. apply hunt_bounded_work. lia.
  - destruct Hu as [-> | (Hpos & hk & c & name & mo & sf & s0 & _ & ->)].
    + eapply bounded_work_mono; [| |apply bounded_work_nil]; lia.
    + rewrite Z.max_r by lia. apply hunt_bounded_work. lia.
Qed.

Lemma run_instances_bounded_work sonarr dry insts :
  ∀ t s, bounded_work (instances_budget insts) (5 * Z.of_nat (length insts))
           (run_instances env sonarr dry insts t s).2.
Proof.
  induction insts as [|inst_cfg rest IH]; intros t s; cbn [run_instances].
  - apply bounded_work_nil.
  - cbn [instances_budget length].
    replace (5 * Z.of_nat (S (length rest))) with (5 + 5 * Z.of_nat (length rest)) by lia.
    apply bounded_work_bind; [apply instances_budget_nonneg | lia | | done].
    intros s0. apply run_instance_bounded_work.
Qed.

(** *** Events of one kind *)

Lemma hunt_events_local hk c name limit mo sf dry s :
  Forall (local_to hk) (hunt env hk c name limit mo sf dry s).2.
Proof.
  destruct (hunt env hk c name limit mo sf dry s) as [[r s'] evs] eqn:Hrun.
  destruct (hunt_anatomy env hk c name _ _ _ _ _ _ _ _ Hrun)
    as (gets & ts & os & -> & Hgets & _).
  simpl. apply Forall_app. split.
  - eapply Forall_impl; [exact Hgets|]. intros e (page & ps & ok & ->).
    split; [|done]. intros ep Hep. simpl. by apply bool_decide_eq_false_2.
  - clear. revert os. induction ts as [|x ts IH]; intros [|o os]; simpl; try done.
    apply Forall_app. split; [|apply IH].
    assert (Hmark : ∀ t, local_to hk (EvMark (hk_app hk) name (pretty (id x)) t)).
    { intros t. split; [done|]. intros app Happ. simpl. by apply bool_decide_eq_false_2. }
    destruct o; repeat constructor; try done. apply Hmark.
Qed.

Lemma run_instance_events_all (p : Event → Prop) sonarr dry inst_cfg t s :
  (∀ c b, p (EvGet c SystemStatus b)) →
  (0 < default 5 (cfg_hunt_missing inst_cfg) →
   ∀ hk e, hk ∈ [SonarrMissing env; RadarrMissing env] → local_to hk e → p e) →
  (0 < default 0 (cfg_hunt_upgrades inst_cfg) →
   ∀ hk e, hk ∈ [SonarrUpgrades; RadarrUpgrades] → local_to hk e → p e) →
  Forall p (run_instance env sonarr dry inst_cfg t s).2.
Proof.
  intros Hstatus Hmissing Hupgrades.
  destruct (run_instance_events sonarr dry inst_cfg t s)
    as (st & evs_m & evs_u & -> & Hst & Hm & Hu).
  rewrite !Forall_app. split; [|split].
  - destruct Hst as [-> | (c & b & ->)]; [done | by repeat constructor].
  - destruct Hm as [-> | (Hpos & hk & c & name & mo & sf & s0 & Hk & ->)]; [done|].
    eapply Forall_impl; [apply hunt_events_local|]. intros e. by apply Hmissing.
  - destruct Hu as [-> | (Hpos & hk & c & name & mo & sf & s0 & Hk & ->)]; [done|].
    eapply Forall_impl; [apply hunt_events_local|]. intros e. by apply Hupgrades.
Qed.

Lemma run_instances_events_all (p : Event → Prop) sonarr dry insts :
  (∀ inst_cfg t s, inst_cfg ∈ insts →
                   Forall p (run_instance env sonarr dry inst_cfg t s).2) →
  ∀ t s, Forall p (run_instances env sonarr dry insts t s).2.
Proof.
  induction insts as [|inst_cfg rest IH]; intros Hall t s; cbn [run_instances]; [done|].
  apply (bind_events (Forall p) (Forall p) (Forall p)).
  - intros l1 l2 ? ?. by apply Forall_app.
  - done.
  - intros s0. apply Hall. by left.
  - intros t1 s1. apply IH. intros c t2 s2 Hc. apply Hall. by right.
Qed.

(** The events of a cycle: the purge, then the Sonarr instances, then
    the Radarr instances. *)
Lemma run_events_all (p : Event → Prop) cfg dry :
  (∀ n, p (EvPurge n)) →
  (∀ sonarr inst_cfg t s, inst_cfg ∈ all_instances cfg →
                          Forall p (run_instance env sonarr dry inst_cfg t s).2) →
  ∀ s, Forall p (run env cfg dry s).2.
Proof.
  intros Hpurge Hall s. unfold run.
  unfold bind at 1. unfold StateDB_open at 1.
  unfold bind at 1. rewrite StateDB_purge_expired_eq.
  destruct (purge_expired _ _) as [[n st1]|e]; [|by simpl].
  match goal with
  | |- context [bind ?m ?f ?st] =>
      assert (Hrest : Forall p (bind m f st).2);
      [| destruct (bind m f st) as [[r s2] l2]; simpl in *; by constructor ]
  end.
  apply (bind_events (Forall p) (Forall p) (Forall p)).
  - intros l1 l2 ? ?. by apply Forall_app.
  - done.
  - intros s0. apply run_instances_events_all. intros c t1 s1 Hc. apply Hall.
    unfold all_instances. apply elem_of_app. by left.
  - intros t1 s1. apply (bind_events (Forall p) (Forall p) (Forall p)).
    + intros l1 l2 ? ?. by apply Forall_app.
    + done.
    + intros s0. apply run_instances_events_all. intros c t2 s2 Hc. apply Hall.
      unfold all_instances. apply elem_of_app. by right.
    + intros t2 s2. by simpl.
Qed.

End CycleFacts.

(** ** Properties of a whole cycle *)

(** X15. The work of a cycle is bounded by its configuration: a cycle
    posts at most as many search commands as the positive limits of its
    instances add up to, writes no more ledger entries than it posts
    commands, and makes at most five GET queries per configured
    instance (the status query and two per hunt). *)
Theorem cycle_work_is_bounded :
  ∀ (W : Type) (env : Env W) (cfg : Config) (dry_run : bool) (s : Sys W),
    let evs := (run env cfg dry_run s).2 in
    Events.count Events.is_trigger evs ≤ cycle_budget cfg
    ∧ Events.count Events.is_mark evs ≤ Events.count Events.is_trigger evs
    ∧ Events.count Events.is_get evs ≤ 5 * Z.of_nat (length (all_instances cfg)).
Proof.
  intros W env cfg dry s.
  change (bounded_work (cycle_budget cfg) (5 * Z.of_nat (length (all_instances cfg)))
            (run env cfg dry s).2).
  unfold run.
  unfold bind at 1. unfold StateDB_open at 1.
  unfold bind at 1. rewrite StateDB_purge_expired_eq.
  destruct (purge_expired _ _) as [[n st1]|e].
  2: { simpl. eapply bounded_work_mono; [| |apply bounded_work_nil].
       - unfold cycle_budget.
         pose proof (instances_budget_nonneg (default [] (cfg_sonarr cfg))).
         pose proof (instances_budget_nonneg (default [] (cfg_radarr cfg))). lia.
       - lia. }
  match goal with
  | |- context [bind ?m ?f ?st] =>
      assert (Hrest : bounded_work (cycle_budget cfg)
                        (5 * Z.of_nat (length (all_instances cfg))) (bind m f st).2);
      [| destruct (bind m f st) as [[r s2] l2]; simpl in *;
         by apply (bounded_work_app 0 0 _ _ [_]) ]
  end.
  unfold cycle_budget, all_instances. rewrite length_app, Nat2Z.inj_add, Z.mul_add_distr_l.
  apply bounded_work_bind;
    [apply instances_budget_nonneg | lia | intros; apply run_instances_bounded_work |].
  intros t1 s1.
  apply (bounded_work_mono (instances_budget (default [] (cfg_radarr cfg)) + 0)
           (5 * Z.of_nat (length (default [] (cfg_radarr cfg))) + 0)); [lia | lia |].
  apply bounded_work_bind; [done | done | intros; apply run_instances_bounded_work |].
  intros t2 s2. apply bounded_work_nil.
Qed.

(** X16. A hunt is run only on a positive limit.  When no instance has a
    positive [hunt_upgrades] (the default is 0), a cycle makes no query
    of [wanted/cutoff] and writes no ledger entry under an upgrade key;
    when no instance has a positive [hunt_missing], it makes no query of
    [wanted/missing] and writes no entry under ["sonarr"] or
    ["radarr"]. *)
Theorem hunts_need_a_positive_limit :
  ∀ (W : Type) (env : Env W) (cfg : Config) (dry_run : bool) (s : Sys W),
    ((∀ c, c ∈ all_instances cfg → default 0 (cfg_hunt_upgrades c) ≤ 0) →
     Forall (λ e, upgrade_free e = true) (run env cfg dry_run s).2)
    ∧ ((∀ c, c ∈ all_instances cfg → default 5 (cfg_hunt_missing c) ≤ 0) →
       Forall (λ e, missing_free e = true) (run env cfg dry_run s).2).
Proof.
  intros W env cfg dry s. split; intros Hoff.
  - apply run_events_all; [done|]. intros sonarr c t s0 Hc.
    apply run_instance_events_all; [done | | intros Hpos; specialize (Hoff c Hc); lia].
    intros _ hk e Hk [Hq Hm]. unfold upgrade_free.
    rewrite !elem_of_cons, elem_of_nil in Hk.
    destruct Hk as [-> | [-> | []]]; rewrite Hq, !Hm; done.
  - apply run_events_all; [done|]. intros sonarr c t s0 Hc.
    apply run_instance_events_all; [done | intros Hpos; specialize (Hoff c Hc); lia |].
    intros _ hk e Hk [Hq Hm]. unfold missing_free.
    rewrite !elem_of_cons, elem_of_nil in Hk.
    destruct Hk as [-> | [-> | []]]; rewrite Hq, !Hm; done.
Qed.

(** One Sonarr instance with the default [hunt_upgrades]. *)
Lemma hunts_need_a_positive_limit_witness :
  let env := Demo.env Demo.get_three Demo.post_rejects_2 Demo.iso in
  Forall (λ e, upgrade_free e = true) (run env Demo.one_sonarr false (Demo.start ∅ [])).2.
Proof.
  intros env.
  apply (proj1 (hunts_need_a_positive_limit _ env Demo.one_sonarr false (Demo.start ∅ []))).
  intros c Hc. apply list_elem_of_singleton in Hc as ->. simpl. lia.
Defined.
